(** * protozero: a shallow embedding of the PBF reader and writer

    The development follows the layout of the C++ headers:
    - [types.hpp]      : the fixed-width integer types, tags and wire types;
    - [varint.hpp]     : the varint and zigzag codecs;
    - [pbf_reader.hpp] : the field cursor over a borrowed byte range;
    - [pbf_writer.hpp] : the appending encoder with nested submessages.

    Integers of width [w] are values of [Z] with the wrap-around of every
    conversion written out; bytes are [Init.Byte.byte]; a [std::string]
    buffer is a [list byte]; pointers into a buffer are offsets. *)

From Stdlib Require Import ZArith Lia List Bool.
From stdpp Require Import base list.
From coqutil Require Import Byte Z.bitblast.
From coqutil Require Word.LittleEndianList.

Local Open Scope Z_scope.

(* ===================================================================== *)
(** ** Fixed-width integer conversions *)
(* ===================================================================== *)

Definition uint64_t (z : Z) : Z := z mod 2 ^ 64.
Definition uint32_t (z : Z) : Z := z mod 2 ^ 32.
Definition int64_t (z : Z) : Z := (z + 2 ^ 63) mod 2 ^ 64 - 2 ^ 63.
Definition int32_t (z : Z) : Z := (z + 2 ^ 31) mod 2 ^ 32 - 2 ^ 31.

(** [std::size_t] on the LP64 targets the library is built for. *)
Definition size_t (z : Z) : Z := z mod 2 ^ 64.

(* ===================================================================== *)
(** ** types.hpp *)
(* ===================================================================== *)

(** [using pbf_tag_type = uint32_t;] and [using pbf_length_type = uint32_t;] *)
Definition pbf_tag_type (z : Z) : Z := uint32_t z.
Definition pbf_length_type (z : Z) : Z := uint32_t z.
Definition sizeof_pbf_length_type : Z := 4.

(** [enum class pbf_wire_type : uint32_t].  A value of the enumeration is
    its underlying integer: [pbf_wire_type(value & 0x07)] can also hold the
    integers 3, 4, 6 and 7, which name no enumerator. *)
Module pbf_wire_type.
Definition varint : Z := 0.
Definition fixed64 : Z := 1.
Definition length_delimited : Z := 2.
Definition fixed32 : Z := 5.
Definition unknown : Z := 99.
End pbf_wire_type.

(** The dispatch tags of [types.hpp]. *)
Inductive type_tag : Type :=
  | varint_tag
  | bool_tag
  | svarint_tag
  | fixed_tag
  | length_delimited_tag.

(** The C++ type a logical type is carried in ([T::type]). *)
Inductive cpp_type : Type :=
  | t_int32 | t_uint32 | t_int64 | t_uint64 | t_float | t_double | t_data_view.

(** [namespace types]: the logical scalar types. *)
Inductive scalar_type : Type :=
  | _bool | _enum | _int32 | _sint32 | _uint32 | _int64 | _sint64 | _uint64
  | _fixed32 | _sfixed32 | _fixed64 | _sfixed64 | _float | _double
  | _bytes | _string | _message.

Definition tag_of (T : scalar_type) : type_tag :=
  match T with
  | _bool => bool_tag
  | _enum | _int32 | _uint32 | _int64 | _uint64 => varint_tag
  | _sint32 | _sint64 => svarint_tag
  | _fixed32 | _sfixed32 | _fixed64 | _sfixed64 | _float | _double => fixed_tag
  | _bytes | _string | _message => length_delimited_tag
  end.

Definition type_of (T : scalar_type) : cpp_type :=
  match T with
  | _bool | _enum | _int32 | _sint32 | _sfixed32 => t_int32
  | _uint32 | _fixed32 => t_uint32
  | _int64 | _sint64 | _sfixed64 => t_int64
  | _uint64 | _fixed64 => t_uint64
  | _float => t_float
  | _double => t_double
  | _bytes | _string | _message => t_data_view
  end.

Definition wire_type_of (T : scalar_type) : Z :=
  match T with
  | _bool | _enum | _int32 | _sint32 | _uint32 | _int64 | _sint64 | _uint64 =>
      pbf_wire_type.varint
  | _fixed64 | _sfixed64 | _double => pbf_wire_type.fixed64
  | _fixed32 | _sfixed32 | _float => pbf_wire_type.fixed32
  | _bytes | _string | _message => pbf_wire_type.length_delimited
  end.

(** [sizeof(T)] for the carrier types of fixed-width fields. *)
Definition sizeof (c : cpp_type) : Z :=
  match c with
  | t_int32 | t_uint32 | t_float => 4
  | t_int64 | t_uint64 | t_double => 8
  | t_data_view => 16
  end.

(** Conversion of an integer to a carrier type.  A [float] or [double] is
    carried as its IEEE-754 bit pattern, which is all the codec looks at. *)
Definition convert (c : cpp_type) (z : Z) : Z :=
  match c with
  | t_int32 => int32_t z
  | t_uint32 | t_float => uint32_t z
  | t_int64 => int64_t z
  | t_uint64 | t_double => uint64_t z
  | t_data_view => z
  end.

(** [fixed_length<T, C>::value]: a fixed-width element type read through
    (at least) a forward iterator. *)
Definition fixed_length (G : type_tag) (forward_iterator : bool) : bool :=
  match G with
  | fixed_tag => forward_iterator
  | _ => false
  end.

(** The condition both headers assert of a field tag: tags 0 and 19000 to
    19999 are not allowed.
    [(tag > 0 && tag < 19000) || (tag > 19999 && tag <= ((1 << 29) - 1))] *)
Definition tag_in_range (tag : Z) : bool :=
  ((0 <? tag) && (tag <? 19000))
  || ((19999 <? tag) && (tag <=? Z.shiftl 1 29 - 1)).

(* ===================================================================== *)
(** ** Exceptions and outcomes *)
(* ===================================================================== *)

Inductive exception : Type :=
  | end_of_buffer_exception
  | varint_too_long_exception
  | unknown_pbf_wire_type_exception.

(** What a call does: it returns, it throws, or a [protozero_assert] fails
    (debug builds only), which aborts the program. *)
Inductive outcome (A : Type) : Type :=
  | Ret (a : A)
  | Throw (e : exception)
  | Abort.
Arguments Ret {A} a.
Arguments Throw {A} e.
Arguments Abort {A}.

(* ===================================================================== *)
(** ** varint.hpp *)
(* ===================================================================== *)

Module Varint.

Definition max_varint_length : nat := 10.

(** Modelled from the spec: [decode_varint] of [varint.hpp], which is not
    among the sources.  It reads up to 10 bytes; each byte contributes its
    low 7 bits in little-endian order and the first byte with a clear
    high bit ends the varint.  It fails with [end_of_buffer] when the
    data ends before a terminator and with [varint_too_long] when the
    10th byte still has its continuation bit set.  The result is the
    pair of the accumulated groups and the number of bytes read. *)
Fixpoint decode_varint_impl (fuel : nat) (data : list byte) : outcome (Z * Z) :=
  match fuel with
  | O => Throw varint_too_long_exception
  | S fuel' =>
      match data with
      | [] => Throw end_of_buffer_exception
      | b :: rest =>
          if byte.unsigned b <? 128 then Ret (byte.unsigned b, 1)
          else
            match decode_varint_impl fuel' rest with
            | Ret (v, n) =>
                Ret (Z.lor (Z.land (byte.unsigned b) 127) (Z.shiftl v 7), n + 1)
            | Throw e => Throw e
            | Abort => Abort
            end
      end
  end.

(** The bytes of [mem] in the half-open range of offsets [first, last). *)
Definition bytes_between (mem : list byte) (first last : Z) : list byte :=
  take (Z.to_nat (last - first)) (drop (Z.to_nat first) mem).

(** Modelled from the spec: [decode_varint(const char** data, const char*
    end)].  Its value is the accumulated value modulo [2^64]; on success
    [*data] is moved past the terminator (the second component is the new
    [*data]); on failure [*data] is left as it was. *)
Definition decode_varint (mem : list byte) (data end_ : Z) : outcome (Z * Z) :=
  match decode_varint_impl max_varint_length (bytes_between mem data end_) with
  | Ret (v, n) => Ret (uint64_t v, data + n)
  | Throw e => Throw e
  | Abort => Abort
  end.

(** Modelled from the spec: [write_varint] of [varint.hpp], absent from
    the sources: repeatedly take the low 7 bits, set the high bit when
    more bits remain, emit the byte and shift right by 7; stop after a
    byte whose high bit is clear.  A [uint64_t] has at most 10 groups, so
    the loop is unrolled with that bound. *)
Fixpoint write_varint_loop (fuel : nat) (value : Z) : list byte :=
  match fuel with
  | O => []
  | S fuel' =>
      if value <? 128 then [byte.of_Z value]
      else byte.of_Z (Z.lor (Z.land value 127) 128)
             :: write_varint_loop fuel' (Z.shiftr value 7)
  end.

(** The bytes [write_varint] sends to its output iterator; the function's
    return value is their number. *)
Definition write_varint (value : Z) : list byte :=
  write_varint_loop max_varint_length (uint64_t value).

(** Modelled from the spec: [encode_zigzag64] of [varint.hpp]:
    [(i64 as u64) << 1 XOR (i64 >> 63 as u64)], the right shift being
    arithmetic. *)
Definition encode_zigzag64 (value : Z) : Z :=
  Z.lxor (uint64_t (Z.shiftl (uint64_t value) 1)) (uint64_t (Z.shiftr value 63)).

(** Modelled from the spec: [decode_zigzag64] of [varint.hpp]:
    [(u >> 1) XOR -(u & 1)], read as an [int64_t]. *)
Definition decode_zigzag64 (value : Z) : Z :=
  int64_t (Z.lxor (Z.shiftr value 1) (uint64_t (- Z.land value 1))).

End Varint.
Import Varint.


(* ===================================================================== *)
(** ** pbf_reader.hpp *)
(* ===================================================================== *)

Module Reader.

(** [class pbf_reader]: two pointers into the borrowed bytes, and the wire
    type and tag of the current field. *)
Record pbf_reader : Type := Build_pbf_reader {
  m_data : Z;
  m_end : Z;
  m_wire_type : Z;
  m_tag : Z
}.

(** [class data_view] of [types.hpp]: a pointer and a length. *)
Record data_view : Type := Build_data_view {
  data : Z;
  size : Z
}.

(** A member function runs on the object and leaves it in some state,
    also when it throws: the state at the point of the throw is what the
    caller sees afterwards. *)
Definition M (A : Type) : Type := pbf_reader -> outcome A * pbf_reader.

Definition ret {A} (a : A) : M A := fun r => (Ret a, r).
Definition throw {A} (e : exception) : M A := fun r => (Throw e, r).
Definition bind {A B} (m : M A) (k : A -> M B) : M B :=
  fun r =>
    match m r with
    | (Ret a, r') => k a r'
    | (Throw e, r') => (Throw e, r')
    | (Abort, r') => (Abort, r')
    end.
Definition this : M pbf_reader := fun r => (Ret r, r).
Definition set_m_data (p : Z) : M unit :=
  fun r => (Ret tt, Build_pbf_reader p (m_end r) (m_wire_type r) (m_tag r)).
Definition set_m_wire_type (w : Z) : M unit :=
  fun r => (Ret tt, Build_pbf_reader (m_data r) (m_end r) w (m_tag r)).
Definition set_m_tag (t : Z) : M unit :=
  fun r => (Ret tt, Build_pbf_reader (m_data r) (m_end r) (m_wire_type r) t).

Declare Scope reader_scope.
Delimit Scope reader_scope with reader.
Notation "x <- m ;; k" := (bind m (fun x => k))
  (at level 100, m at next level, right associativity) : reader_scope.
Notation "m ;; k" := (bind m (fun _ => k))
  (at level 100, right associativity) : reader_scope.
Local Open Scope reader_scope.

(** Modelled from the spec: [detail::copy_or_byteswap], whose header is not
    among the sources: fixed-width values are loaded little-endian, on
    hosts of either byte order. *)
Fixpoint le_combine (l : list byte) : Z :=
  match l with
  | [] => 0
  | h :: t => Z.lor (byte.unsigned h) (Z.shiftl (le_combine t) 8)
  end.

Section Build.

(** [NDEBUG] is defined in release builds.  Modelled from the spec: the
    macro [protozero_assert] of [config.hpp], which is not among the
    sources, is [assert]: checked in debug builds, where a failure aborts,
    and not evaluated in release builds. *)
Variable NDEBUG : bool.

(** The memory the reader's pointers point into. *)
Variable mem : list byte.

Definition protozero_assert (c : bool) : M unit :=
  fun r => if NDEBUG || c then (Ret tt, r) else (Abort, r).

(** [decode_varint(&m_data, m_end)] *)
Definition decode_varint_m_data : M Z :=
  fun r =>
    match decode_varint mem (m_data r) (m_end r) with
    | Ret (v, p) =>
        (Ret v, Build_pbf_reader p (m_end r) (m_wire_type r) (m_tag r))
    | Throw e => (Throw e, r)
    | Abort => (Abort, r)
    end.

(** Read of the byte a pointer points to; a read outside the memory has
    no defined result. *)
Definition deref (p : Z) : M byte :=
  fun r =>
    if p <? 0 then (Abort, r)
    else match mem !! Z.to_nat p with
         | Some b => (Ret b, r)
         | None => (Abort, r)
         end.

Definition get_length : M Z :=
  v <- decode_varint_m_data ;; ret (pbf_length_type v).

Definition skip_bytes (len : Z) : M unit :=
  r <- this ;;
  if m_data r + len >? m_end r then throw end_of_buffer_exception
  else
    set_m_data (m_data r + len) ;;
    (* #ifndef NDEBUG *)
    if NDEBUG then ret tt else set_m_tag 0.

Definition get_len_and_skip : M Z :=
  len <- get_length ;;
  skip_bytes len ;;
  ret len.

(** [get_scalar<T, R>(varint_tag)] *)
Definition get_scalar_varint (R : cpp_type) : M Z :=
  v <- decode_varint_m_data ;; ret (convert R v).

(** [get_scalar<T, R>(bool_tag)] *)
Definition get_scalar_bool (R : cpp_type) : M Z :=
  r <- this ;;
  (if NDEBUG then ret tt
   else b <- deref (m_data r) ;;
        protozero_assert (Z.land (byte.unsigned b) 128 =? 0)) ;;
  skip_bytes 1 ;;
  r' <- this ;;
  b <- deref (m_data r' - 1) ;;
  ret (convert R (if byte.unsigned b =? 0 then 0 else 1)).

(** [get_scalar<T, R>(svarint_tag)] *)
Definition get_scalar_svarint (R : cpp_type) : M Z :=
  v <- decode_varint_m_data ;; ret (convert R (decode_zigzag64 v)).

(** [get_scalar<T, R>(fixed_tag)] *)
Definition get_scalar_fixed (R : cpp_type) : M Z :=
  skip_bytes (sizeof R) ;;
  r <- this ;;
  ret (convert R (le_combine (bytes_between mem (m_data r - sizeof R) (m_data r)))).

(** [get_scalar<T, R>(length_delimited_tag)] *)
Definition get_scalar_length_delimited : M data_view :=
  len <- get_len_and_skip ;;
  r <- this ;;
  ret (Build_data_view (m_data r - len) len).

Definition has_wire_type (type : Z) : M bool :=
  r <- this ;; ret (m_wire_type r =? type).

(** What a [get<T>()] hands back: a number for the numeric types, a view
    for the length-delimited ones. *)
Definition result_of (G : type_tag) : Type :=
  match G with
  | length_delimited_tag => data_view
  | _ => Z
  end.

Definition get_scalar (T : scalar_type) : M (result_of (tag_of T)) :=
  match tag_of T as G return M (result_of G) with
  | varint_tag => get_scalar_varint (type_of T)
  | bool_tag => get_scalar_bool (type_of T)
  | svarint_tag => get_scalar_svarint (type_of T)
  | fixed_tag => get_scalar_fixed (type_of T)
  | length_delimited_tag => get_scalar_length_delimited
  end.

(** [get_impl<T, R>(detail::is_scalar)] *)
Definition get_impl_is_scalar (T : scalar_type) : M (result_of (tag_of T)) :=
  w <- has_wire_type (wire_type_of T) ;;
  protozero_assert w ;;
  get_scalar T.

(** [get_impl<T, R>(detail::is_packed)]: the iterator range is the pair
    of its two pointers. *)
Definition get_impl_is_packed : M (Z * Z) :=
  len <- get_len_and_skip ;;
  r <- this ;;
  ret (m_data r - len, m_data r).

Definition next : M bool :=
  r <- this ;;
  if m_data r =? m_end r then ret false
  else
    value <- decode_varint_m_data ;;
    set_m_tag (pbf_tag_type (Z.shiftr value 3)) ;;
    r1 <- this ;;
    protozero_assert (tag_in_range (m_tag r1)) ;;
    set_m_wire_type (Z.land value 7) ;;
    r2 <- this ;;
    if (m_wire_type r2 =? pbf_wire_type.varint)
       || (m_wire_type r2 =? pbf_wire_type.fixed64)
       || (m_wire_type r2 =? pbf_wire_type.length_delimited)
       || (m_wire_type r2 =? pbf_wire_type.fixed32)
    then ret true
    else throw unknown_pbf_wire_type_exception.

Definition tag : M Z := r <- this ;; ret (m_tag r).
Definition wire_type : M Z := r <- this ;; ret (m_wire_type r).

(** [get<T>()] for a scalar [T]. *)
Definition get (T : scalar_type) : M (result_of (tag_of T)) :=
  t <- tag ;;
  protozero_assert (negb (t =? 0)) ;;
  get_impl_is_scalar T.

(** [get<types::packed<T>>()] *)
Definition get_packed : M (Z * Z) :=
  t <- tag ;;
  protozero_assert (negb (t =? 0)) ;;
  get_impl_is_packed.

Definition get_bool : M bool :=
  v <- get _bool ;; ret (negb (v =? 0)).
Definition get_enum : M Z := get _enum.
Definition get_int32 : M Z := get _int32.
Definition get_sint32 : M Z := get _sint32.
Definition get_uint32 : M Z := get _uint32.
Definition get_int64 : M Z := get _int64.
Definition get_sint64 : M Z := get _sint64.
Definition get_uint64 : M Z := get _uint64.
Definition get_fixed32 : M Z := get _fixed32.
Definition get_sfixed32 : M Z := get _sfixed32.
Definition get_fixed64 : M Z := get _fixed64.
Definition get_sfixed64 : M Z := get _sfixed64.
Definition get_view : M data_view := get _string.
Definition get_data : M data_view := get _string.

(** [get_bytes] copies the viewed bytes into a [std::string]. *)
Definition get_bytes : M (list byte) :=
  v <- get _string ;; ret (bytes_between mem (data v) (data v + size v)).
Definition get_string : M (list byte) := get_bytes.

(** [get_message]: a reader over the viewed bytes. *)
Definition get_message : M pbf_reader :=
  v <- get_data ;;
  ret (Build_pbf_reader (data v) (data v + size v) pbf_wire_type.unknown 0).

Definition skip : M unit :=
  t <- tag ;;
  protozero_assert (negb (t =? 0)) ;;
  w <- wire_type ;;
  if w =? pbf_wire_type.varint then _ <- get_uint32 ;; ret tt
  else if w =? pbf_wire_type.fixed64 then skip_bytes 8
  else if w =? pbf_wire_type.length_delimited then
    len <- get_length ;; skip_bytes len
  else if w =? pbf_wire_type.fixed32 then skip_bytes 4
  else protozero_assert false.

Definition get_float : M Z := get _float.
Definition get_double : M Z := get _double.

(** [next(pbf_tag_type tag)]: [while (next()) { if (m_tag == tag) return
    true; else skip(); } return false;].  Every turn of the loop reads at
    least the byte of a field header, so the number of turns is bounded by
    the number of bytes left plus one; [None] stands for a loop that has
    not ended within the bound. *)
Fixpoint next_tag_loop (fuel : nat) (tag : Z) : M (option bool) :=
  match fuel with
  | O => ret None
  | S fuel' =>
      more <- next ;;
      if more then
        r <- this ;;
        if m_tag r =? tag then ret (Some true)
        else skip ;; next_tag_loop fuel' tag
      else ret (Some false)
  end.

Definition next_tag (tag : Z) : M (option bool) :=
  r <- this ;;
  next_tag_loop (Z.to_nat (m_end r - m_data r) + 1) tag.

End Build.

(** [pbf_reader(const char* data, std::size_t length)] *)
Definition new (data_ : Z) (length : Z) : pbf_reader :=
  Build_pbf_reader data_ (data_ + length) pbf_wire_type.unknown 0.

(** [operator bool()] and [length()] *)
Definition has_more (r : pbf_reader) : bool := m_data r <? m_end r.
Definition length (r : pbf_reader) : Z := size_t (m_end r - m_data r).

End Reader.

(* ===================================================================== *)
(** ** pbf_writer.hpp *)
(* ===================================================================== *)

Module Writer.

(** [class pbf_writer].  All writers of one chain point to the same
    [std::string]; [m_data] records whether the pointer is set, and
    [m_parent_writer] holds the address of the parent object. *)
Record pbf_writer : Type := Build_pbf_writer {
  m_data : bool;
  m_parent_writer : option nat;
  m_rollback_pos : Z;
  m_pos : Z
}.

(** The objects a program works on: the string that is the data store and
    the writer objects, each at the address that is its index.  A parent
    and its child are two objects sharing the one string. *)
Record store : Type := Build_store {
  buffer : list byte;
  objects : list pbf_writer
}.

Definition W (A : Type) : Type := store -> outcome A * store.

Definition ret {A} (a : A) : W A := fun s => (Ret a, s).
Definition abort {A} : W A := fun s => (Abort, s).
Definition bind {A B} (m : W A) (k : A -> W B) : W B :=
  fun s =>
    match m s with
    | (Ret a, s') => k a s'
    | (Throw e, s') => (Throw e, s')
    | (Abort, s') => (Abort, s')
    end.

Declare Scope writer_scope.
Delimit Scope writer_scope with writer.
Notation "x <- m ;; k" := (bind m (fun x => k))
  (at level 100, m at next level, right associativity) : writer_scope.
Notation "m ;; k" := (bind m (fun _ => k))
  (at level 100, right associativity) : writer_scope.
Local Open Scope writer_scope.

(** Access to the object at an address; there is no object to use at an
    address that was never constructed. *)
Definition load (this : nat) : W pbf_writer :=
  fun s =>
    match objects s !! this with
    | Some w => (Ret w, s)
    | None => (Abort, s)
    end.

Definition store_object (this : nat) (w : pbf_writer) : W unit :=
  fun s => (Ret tt, Build_store (buffer s) (<[this := w]> (objects s))).

Definition set_m_data (this : nat) (p : bool) : W unit :=
  w <- load this ;;
  store_object this (Build_pbf_writer p (m_parent_writer w) (m_rollback_pos w) (m_pos w)).
Definition set_m_rollback_pos (this : nat) (v : Z) : W unit :=
  w <- load this ;;
  store_object this (Build_pbf_writer (m_data w) (m_parent_writer w) v (m_pos w)).
Definition set_m_pos (this : nat) (v : Z) : W unit :=
  w <- load this ;;
  store_object this (Build_pbf_writer (m_data w) (m_parent_writer w) (m_rollback_pos w) v).

(** A new object, at the next free address. *)
Definition allocate (w : pbf_writer) : W nat :=
  fun s => (Ret (List.length (objects s)),
            Build_store (buffer s) (objects s ++ [w])).

(** *** The operations of [std::string] the writer uses, through
    [*m_data]; a null [m_data] cannot be dereferenced. *)

Definition deref_m_data (this : nat) : W unit :=
  w <- load this ;; if m_data w then ret tt else abort.

Definition string_size (this : nat) : W Z :=
  deref_m_data this ;;
  fun s => (Ret (Z.of_nat (List.length (buffer s))), s).

(** [append] of a byte sequence, and what a [std::back_inserter] does
    with the bytes sent to it. *)
Definition string_append (this : nat) (bs : list byte) : W unit :=
  deref_m_data this ;;
  fun s => (Ret tt, Build_store (buffer s ++ bs) (objects s)).

(** [resize(n)]: truncates, or pads with null bytes. *)
Definition string_resize (this : nat) (n : Z) : W unit :=
  deref_m_data this ;;
  fun s => (Ret tt, Build_store (resize (Z.to_nat n) Byte.x00 (buffer s)) (objects s)).

(** [erase(begin() + first, begin() + last)]; the iterators have to
    delimit a range of the string. *)
Definition string_erase (this : nat) (first last : Z) : W unit :=
  deref_m_data this ;;
  fun s =>
    if (0 <=? first) && (first <=? last)
       && (last <=? Z.of_nat (List.length (buffer s)))
    then (Ret tt,
          Build_store (take (Z.to_nat first) (buffer s)
                         ++ drop (Z.to_nat last) (buffer s))
                      (objects s))
    else (Abort, s).

(** Writing a byte sequence through the iterator [begin() + pos]: the
    bytes overwrite the string in place and have to stay inside it. *)
Definition string_write_at (this : nat) (pos : Z) (bs : list byte) : W unit :=
  deref_m_data this ;;
  fun s =>
    if (0 <=? pos)
       && (pos + Z.of_nat (List.length bs) <=? Z.of_nat (List.length (buffer s)))
    then (Ret tt,
          Build_store (list_inserts (Z.to_nat pos) bs (buffer s)) (objects s))
    else (Abort, s).

(** Little-endian bytes of a fixed-width value: what [add_fixed] appends
    on hosts of either byte order. *)
Fixpoint le_split (n : nat) (w : Z) : list byte :=
  match n with
  | O => []
  | S n' => byte.of_Z w :: le_split n' (Z.shiftr w 8)
  end.

(** [static const int reserve_bytes = sizeof(pbf_length_type) * 8 / 7 + 1;] *)
Definition reserve_bytes : Z := sizeof_pbf_length_type * 8 / 7 + 1.

(** [static const std::size_t size_is_known =
     std::numeric_limits<std::size_t>::max();] *)
Definition size_is_known : Z := 2 ^ 64 - 1.

(** The argument a field of a given dispatch tag is written from: the
    viewed bytes for a [data_view], a number otherwise. *)
Definition carrier (G : type_tag) : Type :=
  match G with
  | length_delimited_tag => list byte
  | _ => Z
  end.

Fixpoint for_each {A} (f : A -> W unit) (l : list A) : W unit :=
  match l with
  | [] => ret tt
  | x :: l' => f x ;; for_each f l'
  end.

Section Build.

Variable NDEBUG : bool.

Definition protozero_assert (c : bool) : W unit :=
  fun s => if NDEBUG || c then (Ret tt, s) else (Abort, s).

Definition add_varint (this : nat) (value : Z) : W unit :=
  w <- load this ;;
  protozero_assert (m_pos w =? 0) ;;
  protozero_assert (m_data w) ;;
  string_append this (write_varint value).

Definition add_field (this : nat) (tag : Z) (type : Z) : W unit :=
  protozero_assert (tag_in_range tag) ;;
  let b := uint32_t (Z.lor (uint32_t (Z.shiftl tag 3)) (uint32_t type)) in
  add_varint this b.

Definition add_fixed (this : nat) (T : cpp_type) (value : Z) : W unit :=
  w <- load this ;;
  protozero_assert (m_pos w =? 0) ;;
  protozero_assert (m_data w) ;;
  string_append this (le_split (Z.to_nat (sizeof T)) value).

Definition add_length_varint (this : nat) (tag : Z) (length : Z) : W unit :=
  add_field this tag pbf_wire_type.length_delimited ;;
  add_varint this length.

(** [reserve(size)] changes the capacity of the string only. *)
Definition reserve (this : nat) (size : Z) : W unit :=
  w <- load this ;;
  protozero_assert (m_data w) ;;
  deref_m_data this.

Definition open_submessage (this : nat) (tag : Z) (size : Z) : W unit :=
  w <- load this ;;
  protozero_assert (m_pos w =? 0) ;;
  protozero_assert (m_data w) ;;
  (if size =? 0 then
     sz <- string_size this ;;
     set_m_rollback_pos this sz ;;
     add_field this tag pbf_wire_type.length_delimited ;;
     string_append this (replicate (Z.to_nat (size_t reserve_bytes)) Byte.x00)
   else
     set_m_rollback_pos this size_is_known ;;
     add_length_varint this tag (pbf_length_type size) ;;
     reserve this size) ;;
  sz <- string_size this ;;
  set_m_pos this sz.

Definition rollback_submessage (this : nat) : W unit :=
  w <- load this ;;
  protozero_assert (negb (m_pos w =? 0)) ;;
  protozero_assert (negb (m_rollback_pos w =? size_is_known)) ;;
  protozero_assert (m_data w) ;;
  string_resize this (m_rollback_pos w) ;;
  set_m_pos this 0.

Definition commit_submessage (this : nat) : W unit :=
  w <- load this ;;
  protozero_assert (negb (m_pos w =? 0)) ;;
  protozero_assert (negb (m_rollback_pos w =? size_is_known)) ;;
  protozero_assert (m_data w) ;;
  sz <- string_size this ;;
  let length := pbf_length_type (size_t (sz - m_pos w)) in
  protozero_assert (sz >=? size_t (m_pos w - reserve_bytes)) ;;
  let bytes := write_varint length in
  let n := Z.of_nat (List.length bytes) in
  string_write_at this (int64_t (m_pos w) - reserve_bytes) bytes ;;
  string_erase this (int64_t (m_pos w) - reserve_bytes + n) (int64_t (m_pos w)) ;;
  set_m_pos this 0.

Definition close_submessage (this : nat) : W unit :=
  w <- load this ;;
  protozero_assert (m_data w) ;;
  if (m_pos w =? 0) || (m_rollback_pos w =? size_is_known) then ret tt
  else
    sz <- string_size this ;;
    if size_t (sz - m_pos w) =? 0 then rollback_submessage this
    else commit_submessage this.

(** [add_impl<T>(value, tag)]: the overload is chosen by the dispatch
    tag; the argument is converted to the parameter type [T]. *)
Definition add_impl (T : cpp_type) (G : type_tag)
  : carrier G -> nat -> W unit :=
  match G as G' return carrier G' -> nat -> W unit with
  | varint_tag => fun value this =>
      string_append this (write_varint (uint64_t (convert T value)))
  | bool_tag => fun value this =>
      string_append this [byte.of_Z (convert T value)]
  | svarint_tag => fun value this =>
      string_append this
        (write_varint (uint64_t (encode_zigzag64 (int64_t (convert T value)))))
  | fixed_tag => fun value this =>
      add_fixed this T (convert T value)
  | length_delimited_tag => fun value this =>
      let size := Z.of_nat (List.length value) in
      protozero_assert (size <=? 2 ^ 32 - 1) ;;
      add_varint this (pbf_length_type size) ;;
      string_append this value
  end.

(** [explicit pbf_writer(std::string& data)] *)
Definition construct : W nat :=
  allocate (Build_pbf_writer true None 0 0).

(** [pbf_writer(pbf_writer& parent_writer, pbf_tag_type tag,
     std::size_t size = 0)] *)
Definition construct_sub (parent_writer : nat) (tag : Z) (size : Z) : W nat :=
  p <- load parent_writer ;;
  this <- allocate (Build_pbf_writer (m_data p) (Some parent_writer) 0 0) ;;
  open_submessage parent_writer tag size ;;
  ret this.

(** [~pbf_writer()] *)
Definition destroy (this : nat) : W unit :=
  w <- load this ;;
  match m_parent_writer w with
  | Some parent => close_submessage parent
  | None => ret tt
  end.

Definition rollback (this : nat) : W unit :=
  w <- load this ;;
  protozero_assert (bool_decide (is_Some (m_parent_writer w))) ;;
  protozero_assert (m_pos w =? 0) ;;
  match m_parent_writer w with
  | Some parent => rollback_submessage parent ;; set_m_data this false
  | None => abort
  end.

(** [add_packed_impl<T, I, G, C>::apply]: the two specialisations,
    chosen by [fixed_length<G, C>]. *)
Definition add_packed_impl (T : scalar_type) (forward_iterator : bool)
    (writer : nat) (tag : Z) (range : list (carrier (tag_of T))) : W unit :=
  if fixed_length (tag_of T) forward_iterator then
    let length := Z.of_nat (List.length range) in
    add_length_varint writer tag
      (pbf_length_type (size_t (sizeof (type_of T) * pbf_length_type length))) ;;
    reserve writer (size_t (sizeof (type_of T) * size_t length)) ;;
    for_each (fun v => add_impl (type_of T) (tag_of T) v writer) range
  else
    sw <- construct_sub writer tag 0 ;;
    for_each (fun v => add_impl (type_of T) (tag_of T) v sw) range ;;
    destroy sw.

(** [add<T>(tag, first, last)] for [T = types::packed<S>]: the range
    [first, last) is the list of the values the iterators yield, and
    [first == last] says that it is empty. *)
Definition add_packed (T : scalar_type) (forward_iterator : bool)
    (this : nat) (tag : Z) (range : list (carrier (tag_of T))) : W unit :=
  match range with
  | [] => ret tt
  | _ :: _ => add_packed_impl T forward_iterator this tag range
  end.

(** [add<T>(tag, value)] for a scalar [T]. *)
Definition add (T : scalar_type) (this : nat) (tag : Z)
    (value : carrier (tag_of T)) : W unit :=
  add_field this tag (wire_type_of T) ;;
  w <- load this ;;
  protozero_assert (m_pos w =? 0) ;;
  protozero_assert (m_data w) ;;
  add_impl (type_of T) (tag_of T) value this.

Definition add_bool (this : nat) (tag : Z) (value : bool) : W unit :=
  add _bool this tag (if value then 1 else 0).
Definition add_sint32 (this : nat) (tag : Z) (value : Z) : W unit :=
  add _sint32 this tag (int32_t value).
Definition add_sint64 (this : nat) (tag : Z) (value : Z) : W unit :=
  add _sint64 this tag (int64_t value).
Definition add_fixed32 (this : nat) (tag : Z) (value : Z) : W unit :=
  add _fixed32 this tag (uint32_t value).
Definition add_string (this : nat) (tag : Z) (value : list byte) : W unit :=
  add _string this tag value.
Definition add_bytes (this : nat) (tag : Z) (value : list byte) : W unit :=
  add _bytes this tag value.
Definition add_message (this : nat) (tag : Z) (value : list byte) : W unit :=
  add _message this tag value.
Definition add_enum (this : nat) (tag : Z) (value : Z) : W unit :=
  add _enum this tag (int32_t value).
Definition add_int32 (this : nat) (tag : Z) (value : Z) : W unit :=
  add _int32 this tag (int32_t value).
Definition add_uint32 (this : nat) (tag : Z) (value : Z) : W unit :=
  add _uint32 this tag (uint32_t value).
Definition add_int64 (this : nat) (tag : Z) (value : Z) : W unit :=
  add _int64 this tag (int64_t value).
Definition add_uint64 (this : nat) (tag : Z) (value : Z) : W unit :=
  add _uint64 this tag (uint64_t value).
Definition add_sfixed32 (this : nat) (tag : Z) (value : Z) : W unit :=
  add _sfixed32 this tag (int32_t value).
Definition add_fixed64 (this : nat) (tag : Z) (value : Z) : W unit :=
  add _fixed64 this tag (uint64_t value).
Definition add_sfixed64 (this : nat) (tag : Z) (value : Z) : W unit :=
  add _sfixed64 this tag (int64_t value).
Definition add_float (this : nat) (tag : Z) (value : Z) : W unit :=
  add _float this tag (uint32_t value).
Definition add_double (this : nat) (tag : Z) (value : Z) : W unit :=
  add _double this tag (uint64_t value).

(** [add<T>(tag, container)]: the packed add over [begin] and [end] of the
    container, whose iterators are forward iterators. *)
Definition add_container (T : scalar_type) (this : nat) (tag : Z)
    (value : list (carrier (tag_of T))) : W unit :=
  add_packed T true this tag value.

(** [detail::packed_field]: an object whose one member is the child writer
    [m_writer]; constructing, destroying and rolling back the field is
    constructing, destroying and rolling back that writer. *)
Definition packed_field (parent_writer : nat) (tag : Z) : W nat :=
  construct_sub parent_writer tag 0.
Definition packed_field_rollback (m_writer : nat) : W unit :=
  rollback m_writer.


(** [add_element] of [packed_field_fixed<T>], [packed_field_varint<T>] and
    [packed_field_svarint<T>]. *)
Definition packed_field_fixed_add_element (T : cpp_type) (m_writer : nat)
    (value : Z) : W unit :=
  add_fixed m_writer T (convert T value).
Definition packed_field_varint_add_element (T : cpp_type) (m_writer : nat)
    (value : Z) : W unit :=
  add_varint m_writer (uint64_t (convert T value)).
Definition packed_field_svarint_add_element (T : cpp_type) (m_writer : nat)
    (value : Z) : W unit :=
  add_varint m_writer (uint64_t (encode_zigzag64 (int64_t (convert T value)))).

(** [PACKED_FIELD_TYPE]: [detail::packed_type<T::tag>::type<T::type, N>],
    the packed-field class of a scalar type, here by its [add_element].
    There is no specialisation for [length_delimited_tag]: such a program
    does not compile, and the model stops. *)
Definition packed_type_add_element (T : scalar_type) (m_writer : nat)
  : carrier (tag_of T) -> W unit :=
  match tag_of T as G return carrier G -> W unit with
  | varint_tag | bool_tag => packed_field_varint_add_element (type_of T) m_writer
  | svarint_tag => packed_field_svarint_add_element (type_of T) m_writer
  | fixed_tag => packed_field_fixed_add_element (type_of T) m_writer
  | length_delimited_tag => fun _ => abort
  end.

End Build.

End Writer.

(* ===================================================================== *)
(** ** Vocabulary of the statements *)
(* ===================================================================== *)

Section Vocabulary.

Import Writer.
Local Open Scope writer_scope.

(** A writer that can take a field: its data store is set and it has no
    open submessage. *)
Definition ready (s : store) (this : nat) : Prop :=
  exists w, objects s !! this = Some w /\ m_data w = true /\ m_pos w = 0.

(** The field header as [add_field] computes it, in 32-bit arithmetic. *)
Definition field_header (tag type : Z) : Z :=
  uint32_t (Z.lor (uint32_t (Z.shiftl tag 3)) (uint32_t type)).

(** The object a child starts as. *)
Definition fresh_child (parent : nat) : pbf_writer :=
  Build_pbf_writer true (Some parent) 0 0.

(** A block [{ pbf_writer child(parent, tag, size); body; }]: the child is
    constructed, used, and destroyed at the end of its scope. *)
Definition scoped_submessage (NDEBUG : bool) (parent : nat) (tag size : Z) (body : nat -> W unit)
  : W unit :=
  child <- construct_sub NDEBUG parent tag size ;;
  body child ;;
  destroy NDEBUG child.

(** What the use of a child amounts to for its parent: it returns, the
    string has grown by [payload], the parent object is untouched and the
    child still belongs to it. *)
Definition appends (this parent : nat) (body : W unit) (payload : list byte) : Prop :=
  forall (s : store) (w : pbf_writer),
    objects s !! this = Some (fresh_child parent) ->
    objects s !! parent = Some w ->
    this <> parent ->
    exists objs' cw',
      body s = (Ret tt, Build_store (buffer s ++ payload) objs')
      /\ objs' !! parent = Some w
      /\ objs' !! this = Some cw'
      /\ m_parent_writer cw' = Some parent.

(** The bytes [add_impl] appends for a value. *)
Definition encode_value (T : cpp_type) (G : type_tag) : carrier G -> list byte :=
  match G as G' return carrier G' -> list byte with
  | varint_tag => fun value => write_varint (uint64_t (convert T value))
  | bool_tag => fun value => [byte.of_Z (convert T value)]
  | svarint_tag => fun value =>
      write_varint (uint64_t (encode_zigzag64 (int64_t (convert T value))))
  | fixed_tag => fun value => le_split (Z.to_nat (sizeof T)) (convert T value)
  | length_delimited_tag => fun value =>
      write_varint (pbf_length_type (Z.of_nat (List.length value))) ++ value
  end.

(** The size a [data_view] may have: it has to fit [pbf_length_type]. *)
Definition value_fits (G : type_tag) : carrier G -> bool :=
  match G as G' return carrier G' -> bool with
  | length_delimited_tag => fun value => Z.of_nat (List.length value) <=? 2 ^ 32 - 1
  | _ => fun _ => true
  end.

(** A root writer over an empty string, the store most examples start from. *)
Definition root_store : store :=
  Build_store [] [Build_pbf_writer true None 0 0].

(** The bytes of the elements of a packed field, one after the other. *)
Definition packed_payload (T : scalar_type) (range : list (carrier (tag_of T)))
  : list byte :=
  concat (map (encode_value (type_of T) (tag_of T)) range).

(** A block [{ PACKED_FIELD_TYPE f(parent, tag); for (v : values)
    f.add_element(v); }]. *)
Definition scoped_packed_field (NDEBUG : bool) (T : scalar_type) (parent : nat)
    (tag : Z) (values : list (carrier (tag_of T))) : W unit :=
  f <- packed_field NDEBUG parent tag ;;
  for_each (packed_type_add_element NDEBUG T f) values ;;
  destroy NDEBUG f.


End Vocabulary.

Section ReaderVocabulary.

Import Reader.

(** A computation that keeps the strong guarantee: when it throws, the
    reader is what it was. *)
Definition strong {A} (m : M A) : Prop :=
  forall r e r', m r = (Throw e, r') -> r' = r.

(** A computation that does not touch the reader unless it returns. *)
Definition pure_check {A} (m : M A) : Prop :=
  forall r, (exists a, m r = (Ret a, r)) \/ m r = (Abort, r).

(** A computation that never throws. *)
Definition no_throw {A} (m : M A) : Prop :=
  forall r e r', m r <> (Throw e, r').

(** A computation that keeps the cursor in its range: whatever the
    outcome, the end is not moved and the cursor has not gone back nor
    past the end. *)
Definition advances {A} (m : M A) : Prop :=
  forall r o r',
    m r = (o, r') ->
    m_data r <= m_end r ->
    m_end r' = m_end r /\ m_data r <= m_data r' <= m_end r'.

(** The wire types [next()] accepts. *)
Definition valid_wire_type (w : Z) : Prop :=
  w = pbf_wire_type.varint \/ w = pbf_wire_type.fixed64
  \/ w = pbf_wire_type.length_delimited \/ w = pbf_wire_type.fixed32.

End ReaderVocabulary.

(** A field that is written at the end of the string is read back: [write]
    appends some bytes and changes nothing else, and a reader that stands
    where the string ended, whatever follows the field, takes the field
    with [next()], reads [v], and stands right after the field with the
    wire type [wire] and the tag [tag_after]. *)
Definition reads_back {A} (NDEBUG : bool) (s : Writer.store) (write : Writer.W unit)
    (read : list byte -> Reader.M A) (v : A) (wire tag_after : Z) : Prop :=
  exists field,
    write s
    = (Ret tt, Writer.Build_store (Writer.buffer s ++ field) (Writer.objects s))
    /\ forall (rest : list byte) (w0 t0 : Z),
         let mem := Writer.buffer s ++ field ++ rest in
         Reader.bind (Reader.next NDEBUG mem) (fun _ => read mem)
           (Reader.Build_pbf_reader (Z.of_nat (List.length (Writer.buffer s)))
              (Z.of_nat (List.length mem)) w0 t0)
         = (Ret v,
            Reader.Build_pbf_reader
              (Z.of_nat (List.length (Writer.buffer s ++ field)))
              (Z.of_nat (List.length mem)) wire tag_after).

(* ===================================================================== *)
(** * Examples: the scenarios of the test suite *)
(* ===================================================================== *)

Section Examples.

Definition bytes (l : list Z) : list byte := map byte.of_Z l.

Example encode_zigzag64_0 : encode_zigzag64 0 = 0.
Proof. reflexivity. Qed.

Example encode_zigzag64_m1 : encode_zigzag64 (-1) = 1.
Proof. reflexivity. Qed.

Example encode_zigzag64_1 : encode_zigzag64 1 = 2.
Proof. reflexivity. Qed.

Example encode_zigzag64_m2 : encode_zigzag64 (-2) = 3.
Proof. reflexivity. Qed.

Example write_varint_0 : write_varint 0 = bytes [0].
Proof. reflexivity. Qed.

Example write_varint_300 : write_varint 300 = bytes [172; 2].
Proof. reflexivity. Qed.

Example decode_varint_300 : decode_varint (bytes [172; 2; 7]) 0 3 = Ret (300, 2).
Proof. reflexivity. Qed.

Example decode_varint_truncated :
  decode_varint (bytes [172]) 0 1 = Throw end_of_buffer_exception.
Proof. reflexivity. Qed.

Example decode_varint_too_long :
  decode_varint (bytes [128; 128; 128; 128; 128; 128; 128; 128; 128; 128; 1]) 0 11
  = Throw varint_too_long_exception.
Proof. reflexivity. Qed.

(** A single [fixed32] field, tag 1, value 12345678. *)
Example add_fixed32_bytes :
  Writer.add_fixed32 false 0 1 12345678 root_store
  = (Ret tt, Writer.Build_store (bytes [13; 78; 97; 188; 0]) (Writer.objects root_store)).
Proof. reflexivity. Qed.

Example get_fixed32_value :
  Reader.bind (Reader.next false (bytes [13; 78; 97; 188; 0]))
    (fun _ => Reader.get_fixed32 false (bytes [13; 78; 97; 188; 0])) (Reader.new 0 5)
  = (Ret 12345678, Reader.Build_pbf_reader 5 5 pbf_wire_type.fixed32 0).
Proof. reflexivity. Qed.

(** Packed [sint32], tag 7, values -17 and 22. *)
Example add_packed_sint32_bytes :
  Writer.buffer (snd (Writer.add_packed false _sint32 true 0 7 [-17; 22] root_store))
  = bytes [58; 2; 33; 44].
Proof. reflexivity. Qed.

(** Packed [fixed32] through a forward iterator: the length is known up
    front. *)
Example add_packed_fixed32_bytes :
  Writer.buffer (snd (Writer.add_packed false _fixed32 true 0 7 [1; 2] root_store))
  = bytes [58; 8; 1; 0; 0; 0; 2; 0; 0; 0].
Proof. reflexivity. Qed.

(** A nested message: [fixed32] tag 1 value 42, then [message] tag 5 holding
    [string] tag 1 of three bytes. *)
Example nested_message_bytes :
  Writer.buffer
    (snd (Writer.bind (Writer.add_fixed32 false 0 1 42)
            (fun _ => scoped_submessage false 0 5 0
                        (fun child => Writer.add_string false child 1 (bytes [102; 111; 111])))
            root_store))
  = bytes [13; 42; 0; 0; 0; 42; 5; 10; 3; 102; 111; 111].
Proof. reflexivity. Qed.

(** Adding a field to a parent whose child is still open fails the
    assertion of a debug build. *)
Example add_with_open_child_asserts :
  fst (Writer.bind (Writer.construct_sub false 0 1 0)
         (fun _ => Writer.add_fixed32 false 0 2 1234) root_store)
  = Abort.
Proof. reflexivity. Qed.

End Examples.

(* ===================================================================== *)
(** * Properties *)
(* ===================================================================== *)

(** ** ZigZag *)

Section ZigZag.

Lemma testbit_above_pow2 (n x i : Z) :
  0 <= x < 2 ^ n -> n <= i -> Z.testbit x i = false.
Proof.
  intros Hx Hi. destruct (Z.ltb_spec n 0).
  - rewrite Z.pow_neg_r in Hx by assumption. lia.
  - rewrite <- (Z.mod_small x (2 ^ n)) by assumption.
    apply Z.mod_pow2_bits_high. lia.
Qed.

Lemma lxor_ones_sub (n x : Z) :
  0 <= n -> 0 <= x < 2 ^ n -> Z.lxor x (2 ^ n - 1) = 2 ^ n - 1 - x.
Proof.
  intros Hn Hx.
  replace (2 ^ n - 1) with (Z.ones n) by (rewrite Z.ones_equiv; lia).
  rewrite Z.sub_nocarry_ldiff.
  - Z.bitblast. rewrite (testbit_above_pow2 n x i) by lia. reflexivity.
  - Z.bitblast. rewrite (testbit_above_pow2 n x i) by lia. reflexivity.
Qed.

Lemma encode_zigzag64_closed (i : Z) :
  - 2 ^ 63 <= i < 2 ^ 63 ->
  encode_zigzag64 i = if i <? 0 then - 2 * i - 1 else 2 * i.
Proof.
  intros Hi. unfold encode_zigzag64, uint64_t.
  rewrite Z.shiftl_mul_pow2, Z.shiftr_div_pow2 by lia.
  destruct (Z.ltb_spec i 0).
  - replace (i mod 2 ^ 64) with (i + 2 ^ 64) by (apply Z.mod_unique with (-1); lia).
    replace ((i + 2 ^ 64) * 2 ^ 1 mod 2 ^ 64) with (2 * i + 2 ^ 64)
      by (apply Z.mod_unique with 1; lia).
    replace (i / 2 ^ 63) with (-1) by (apply Z.div_unique with (i + 2 ^ 63); lia).
    change (-1 mod 2 ^ 64) with (2 ^ 64 - 1).
    rewrite lxor_ones_sub; lia.
  - rewrite (Z.mod_small i) by lia.
    rewrite (Z.mod_small (i * 2 ^ 1)) by lia.
    rewrite (Z.div_small i) by lia.
    change (0 mod 2 ^ 64) with 0. rewrite Z.lxor_0_r. lia.
Qed.

Lemma decode_zigzag64_closed (u : Z) :
  0 <= u < 2 ^ 64 ->
  decode_zigzag64 u = if Z.even u then u / 2 else - (u / 2) - 1.
Proof.
  intros Hu. unfold decode_zigzag64, uint64_t, int64_t.
  rewrite Z.shiftr_div_pow2 by lia. change (2 ^ 1) with 2.
  change 1 with (Z.ones 1) at 1. rewrite Z.land_ones by lia. change (2 ^ 1) with 2.
  rewrite Zmod_even.
  assert (0 <= u / 2 < 2 ^ 63) by (split; [apply Z.div_pos; lia | apply Z.div_lt_upper_bound; lia]).
  destruct (Z.even u).
  - change (Z.opp 0 mod 2 ^ 64) with 0. rewrite Z.lxor_0_r.
    rewrite Z.mod_small by lia. lia.
  - change (Z.opp 1 mod 2 ^ 64) with (2 ^ 64 - 1).
    rewrite lxor_ones_sub by lia.
    replace ((2 ^ 64 - 1 - u / 2 + 2 ^ 63) mod 2 ^ 64) with (2 ^ 63 - 1 - u / 2)
      by (apply Z.mod_unique with 1; lia).
    lia.
Qed.

Lemma decode_encode_zigzag64 (i : Z) :
  - 2 ^ 63 <= i < 2 ^ 63 -> decode_zigzag64 (encode_zigzag64 i) = i.
Proof.
  intros Hi. rewrite encode_zigzag64_closed by assumption.
  destruct (Z.ltb_spec i 0).
  - rewrite decode_zigzag64_closed by lia.
    replace (- 2 * i - 1) with (1 + 2 * (- i - 1)) by lia.
    rewrite Z.even_add_mul_2. simpl Z.even. cbv iota.
    replace ((1 + 2 * (- i - 1)) / 2) with (- i - 1)
      by (apply Z.div_unique with 1; lia).
    lia.
  - rewrite decode_zigzag64_closed by lia.
    replace (2 * i) with (0 + 2 * i) by lia.
    rewrite Z.even_add_mul_2. simpl Z.even. cbv iota.
    rewrite Z.add_0_l, Z.mul_comm, Z.div_mul; lia.
Qed.

Lemma encode_decode_zigzag64 (u : Z) :
  0 <= u < 2 ^ 64 -> encode_zigzag64 (decode_zigzag64 u) = u.
Proof.
  intros Hu. rewrite decode_zigzag64_closed by assumption.
  assert (0 <= u / 2 < 2 ^ 63) by (split; [apply Z.div_pos; lia | apply Z.div_lt_upper_bound; lia]).
  pose proof (Z.div_mod u 2 ltac:(lia)) as Hdm. rewrite Zmod_even in Hdm.
  destruct (Z.even u).
  - rewrite encode_zigzag64_closed by lia.
    destruct (Z.ltb_spec (u / 2) 0); lia.
  - rewrite encode_zigzag64_closed by lia.
    destruct (Z.ltb_spec (- (u / 2) - 1) 0); lia.
Qed.

End ZigZag.

(** ** Bytes and varints *)

Section VarintFacts.

Lemma unsigned_of_Z_small (z : Z) :
  0 <= z < 256 -> byte.unsigned (byte.of_Z z) = z.
Proof.
  intros Hz. rewrite byte.unsigned_of_Z. unfold byte.wrap.
  apply Z.mod_small. lia.
Qed.

Lemma land_127_range (v : Z) : 0 <= Z.land v 127 < 128.
Proof.
  change 127 with (Z.ones 7). rewrite Z.land_ones by lia.
  apply Z.mod_pos_bound. lia.
Qed.

Lemma continuation_byte_range (v : Z) :
  128 <= Z.lor (Z.land v 127) 128 < 256.
Proof.
  pose proof (land_127_range v) as Hr.
  rewrite <- Z.add_nocarry_lor.
  - lia.
  - rewrite <- Z.land_assoc. change (Z.land 127 128) with 0. apply Z.land_0_r.
Qed.

Lemma continuation_byte_low (v : Z) :
  Z.land (Z.lor (Z.land v 127) 128) 127 = Z.land v 127.
Proof.
  change 127 with (Z.ones 7). change 128 with (2 ^ 7). Z.bitblast.
  replace (7 =? i) with false by (symmetry; apply Z.eqb_neq; lia).
  destruct (Z.testbit v i); reflexivity.
Qed.

Lemma group_rejoin (v : Z) :
  Z.lor (Z.land v 127) (Z.shiftl (Z.shiftr v 7) 7) = v.
Proof. change 127 with (Z.ones 7). Z.bitblast. Qed.

Lemma group_shiftr (b v : Z) :
  Z.shiftr (Z.lor (Z.land b 127) (Z.shiftl v 7)) 7 = v.
Proof. change 127 with (Z.ones 7). Z.bitblast. Qed.

Lemma group_bound (b v n : Z) :
  0 <= n -> 0 <= v < 2 ^ (7 * n) ->
  0 <= Z.lor (Z.land b 127) (Z.shiftl v 7) < 2 ^ (7 * (n + 1)).
Proof.
  intros Hn Hv. pose proof (land_127_range b) as Hb.
  rewrite <- Z.add_nocarry_lor.
  - rewrite Z.shiftl_mul_pow2 by lia.
    replace (7 * (n + 1)) with (7 * n + 7) by lia.
    rewrite Z.pow_add_r by lia. change (2 ^ 7) with 128. nia.
  - change 127 with (Z.ones 7). Z.bitblast.
    rewrite (Z.testbit_neg_r v l) by lia. apply andb_false_r.
Qed.

(** [write_varint] followed by [decode_varint] is the identity: the groups
    written for a value that fits the bound on the loop decode to it, and
    the decoder stops exactly after them. *)
Lemma decode_write_varint_loop (fuel : nat) :
  forall (v : Z) (rest : list byte),
    (1 <= fuel)%nat ->
    0 <= v < 2 ^ (7 * Z.of_nat fuel) ->
    decode_varint_impl fuel (write_varint_loop fuel v ++ rest)
    = Ret (v, Z.of_nat (List.length (write_varint_loop fuel v))).
Proof.
  induction fuel as [|fuel IH]; intros v rest Hfuel Hv; [lia|].
  cbn [write_varint_loop decode_varint_impl].
  destruct (Z.ltb_spec v 128) as [Hlt|Hge].
  - cbn [app]. rewrite unsigned_of_Z_small by lia.
    destruct (Z.ltb_spec v 128); [reflexivity | lia].
  - cbn [app]. pose proof (continuation_byte_range v) as Hc.
    rewrite unsigned_of_Z_small by lia.
    destruct (Z.ltb_spec (Z.lor (Z.land v 127) 128) 128); [lia|].
    assert (1 <= fuel)%nat as Hfuel'.
    { destruct fuel; [|lia]. change (2 ^ (7 * Z.of_nat 1)) with 128 in Hv. lia. }
    assert (0 <= Z.shiftr v 7 < 2 ^ (7 * Z.of_nat fuel)) as Hs.
    { rewrite Z.shiftr_div_pow2 by lia. split.
      - apply Z.div_pos; lia.
      - apply Z.div_lt_upper_bound; [lia|].
        rewrite <- Z.pow_add_r by lia.
        replace (7 + 7 * Z.of_nat fuel) with (7 * Z.of_nat (S fuel)) by lia.
        lia. }
    rewrite (IH _ rest Hfuel' Hs).
    rewrite continuation_byte_low, group_rejoin.
    cbn [List.length]. do 2 f_equal. lia.
Qed.

Lemma write_varint_loop_nonempty (fuel : nat) (v : Z) :
  (1 <= List.length (write_varint_loop (S fuel) v))%nat.
Proof. cbn [write_varint_loop]. destruct (v <? 128); cbn [List.length]; lia. Qed.

Lemma write_varint_loop_length_le (fuel : nat) :
  forall v, (List.length (write_varint_loop fuel v) <= fuel)%nat.
Proof.
  induction fuel as [|fuel IH]; intros v; cbn [write_varint_loop].
  - cbn. lia.
  - destruct (v <? 128); cbn [List.length]; [lia|]. specialize (IH (Z.shiftr v 7)). lia.
Qed.

(** A value below [2^(7k)] is written in at most [k] bytes. *)
Lemma write_varint_loop_length_bound (fuel : nat) :
  forall (v : Z) (k : Z),
    1 <= k -> v < 2 ^ (7 * k) ->
    Z.of_nat (List.length (write_varint_loop fuel v)) <= k.
Proof.
  induction fuel as [|fuel IH]; intros v k Hk Hv; cbn [write_varint_loop].
  - cbn. lia.
  - destruct (Z.ltb_spec v 128) as [Hlt|Hge]; cbn [List.length]; [lia|].
    assert (2 <= k) as Hk2.
    { destruct (Z.eq_dec k 1) as [->|]; [|lia]. change (2 ^ (7 * 1)) with 128 in Hv. lia. }
    specialize (IH (Z.shiftr v 7) (k - 1) ltac:(lia)).
    assert (Z.shiftr v 7 < 2 ^ (7 * (k - 1))) as Hs.
    { rewrite Z.shiftr_div_pow2 by lia.
      apply Z.div_lt_upper_bound; [lia|].
      rewrite <- Z.pow_add_r by lia.
      replace (7 + 7 * (k - 1)) with (7 * k) by lia. lia. }
    specialize (IH Hs). lia.
Qed.

(** What the decoder returns lies below [2^(7n)] for the [n] bytes it read. *)
Lemma decode_varint_impl_bound (fuel : nat) :
  forall (bs : list byte) (v n : Z),
    decode_varint_impl fuel bs = Ret (v, n) ->
    1 <= n <= Z.of_nat fuel /\ 0 <= v < 2 ^ (7 * n).
Proof.
  induction fuel as [|fuel IH]; intros bs v n H; cbn [decode_varint_impl] in H.
  - discriminate.
  - destruct bs as [|b rest]; [discriminate|].
    pose proof (byte.unsigned_range b) as Hb.
    destruct (Z.ltb_spec (byte.unsigned b) 128) as [Hlt|Hge].
    + injection H as <- <-. change (2 ^ (7 * 1)) with 128. lia.
    + destruct (decode_varint_impl fuel rest) as [[v' n']|e|] eqn:E; try discriminate.
      injection H as <- <-.
      destruct (IH _ _ _ E) as [Hn Hv].
      split; [lia|]. apply group_bound; lia.
Qed.

End VarintFacts.

Lemma uint64_t_small (v : Z) : 0 <= v < 2 ^ 64 -> uint64_t v = v.
Proof. intros H. unfold uint64_t. apply Z.mod_small. exact H. Qed.

Lemma uint64_t_range (v : Z) : 0 <= uint64_t v < 2 ^ 64.
Proof. unfold uint64_t. apply Z.mod_pos_bound. lia. Qed.

Lemma uint32_t_small (v : Z) : 0 <= v < 2 ^ 32 -> uint32_t v = v.
Proof. intros H. unfold uint32_t. apply Z.mod_small. exact H. Qed.

Lemma uint32_t_range (v : Z) : 0 <= uint32_t v < 2 ^ 32.
Proof. unfold uint32_t. apply Z.mod_pos_bound. lia. Qed.

Lemma int64_t_small (v : Z) : - 2 ^ 63 <= v < 2 ^ 63 -> int64_t v = v.
Proof. intros H. unfold int64_t. rewrite Z.mod_small; lia. Qed.

Lemma int32_t_small (v : Z) : - 2 ^ 31 <= v < 2 ^ 31 -> int32_t v = v.
Proof. intros H. unfold int32_t. rewrite Z.mod_small; lia. Qed.

Lemma int32_t_range (v : Z) : - 2 ^ 31 <= int32_t v < 2 ^ 31.
Proof.
  unfold int32_t. pose proof (Z.mod_pos_bound (v + 2 ^ 31) (2 ^ 32) ltac:(lia)). lia.
Qed.

Lemma int64_t_range (v : Z) : - 2 ^ 63 <= int64_t v < 2 ^ 63.
Proof.
  unfold int64_t. pose proof (Z.mod_pos_bound (v + 2 ^ 63) (2 ^ 64) ltac:(lia)). lia.
Qed.

Section VarintCodec.

Lemma bytes_between_app (pre bs post : list byte) (first last : Z) :
  first = Z.of_nat (List.length pre) ->
  last = first + Z.of_nat (List.length bs) ->
  bytes_between (pre ++ bs ++ post) first last = bs.
Proof.
  intros -> ->. unfold bytes_between.
  rewrite Nat2Z.id, drop_app_length.
  replace (Z.to_nat _) with (List.length bs) by lia.
  apply take_app_length.
Qed.

Lemma bytes_between_prefix (pre bs rest : list byte) (first last : Z) :
  first = Z.of_nat (List.length pre) ->
  last = first + Z.of_nat (List.length (bs ++ rest)) ->
  bytes_between (pre ++ bs ++ rest) first last = bs ++ rest.
Proof.
  intros Hf Hl. rewrite <- (app_nil_r (pre ++ bs ++ rest)), <- !app_assoc.
  rewrite (app_assoc bs rest []).
  apply bytes_between_app; assumption.
Qed.

Lemma write_varint_length (v : Z) :
  1 <= Z.of_nat (List.length (write_varint v)) <= 10.
Proof.
  unfold write_varint, max_varint_length.
  pose proof (write_varint_loop_nonempty 9 (uint64_t v)).
  pose proof (write_varint_loop_length_le 10 (uint64_t v)). lia.
Qed.

(** A 32-bit length needs at most 5 bytes. *)
Lemma write_varint_length_32 (v : Z) :
  0 <= v < 2 ^ 32 -> Z.of_nat (List.length (write_varint v)) <= 5.
Proof.
  intros Hv. unfold write_varint. rewrite uint64_t_small by lia.
  apply write_varint_loop_length_bound; lia.
Qed.

(** Round trip of the codec: the decoder reads back the value written and
    stops right after its bytes. *)
Lemma decode_varint_write_varint (mem : list byte) (first last v : Z) (rest : list byte) :
  bytes_between mem first last = write_varint v ++ rest ->
  decode_varint mem first last
  = Ret (uint64_t v, first + Z.of_nat (List.length (write_varint v))).
Proof.
  intros Hb. unfold decode_varint. rewrite Hb. unfold write_varint.
  pose proof (uint64_t_range v) as Hr.
  rewrite decode_write_varint_loop.
  - rewrite uint64_t_small by (apply uint64_t_range). reflexivity.
  - unfold max_varint_length. lia.
  - unfold max_varint_length. change (2 ^ (7 * Z.of_nat 10)) with (2 ^ 70). lia.
Qed.

(** No encoding of a value is shorter than the one [write_varint] emits. *)
Lemma write_varint_minimal (mem : list byte) (first last v p : Z) :
  decode_varint mem first last = Ret (v, p) ->
  Z.of_nat (List.length (write_varint v)) <= p - first.
Proof.
  unfold decode_varint. intros H.
  destruct (decode_varint_impl max_varint_length (bytes_between mem first last))
    as [[v' n]|e|] eqn:E; try discriminate.
  injection H as <- <-.
  destruct (decode_varint_impl_bound _ _ _ _ E) as [Hn Hv].
  unfold write_varint.
  rewrite (uint64_t_small (uint64_t v')) by (apply uint64_t_range).
  replace (first + n - first) with n by lia.
  apply write_varint_loop_length_bound; [lia|].
  unfold uint64_t. pose proof (Z.mod_le v' (2 ^ 64) ltac:(lia) ltac:(lia)). lia.
Qed.

End VarintCodec.

(** ** The writer: what each member function does to the store *)

Section WriterFacts.

Import Writer.
Local Open Scope writer_scope.

Variable NDEBUG : bool.

Lemma bind_Ret {A B} (m : W A) (k : A -> W B) (s s' : store) (a : A) :
  m s = (Ret a, s') -> bind m k s = k a s'.
Proof. intros H. unfold bind. rewrite H. reflexivity. Qed.

Lemma load_Some (s : store) (this : nat) (w : pbf_writer) :
  objects s !! this = Some w -> load this s = (Ret w, s).
Proof. intros H. unfold load. rewrite H. reflexivity. Qed.

Lemma assert_holds (c : bool) (s : store) :
  NDEBUG || c = true -> protozero_assert NDEBUG c s = (Ret tt, s).
Proof. intros H. unfold protozero_assert. rewrite H. reflexivity. Qed.

Lemma assert_true (s : store) : protozero_assert NDEBUG true s = (Ret tt, s).
Proof. apply assert_holds. apply orb_true_r. Qed.

Lemma lookup_insert_same (objs : list pbf_writer) (i : nat) (w w' : pbf_writer) :
  objs !! i = Some w -> <[i := w']> objs !! i = Some w'.
Proof. intros H. apply list_lookup_insert_eq. eapply lookup_lt_Some. exact H. Qed.

Lemma deref_m_data_ok (s : store) (this : nat) (w : pbf_writer) :
  objects s !! this = Some w -> m_data w = true ->
  deref_m_data this s = (Ret tt, s).
Proof.
  intros Hl Hd. unfold deref_m_data.
  rewrite (bind_Ret _ _ _ _ _ (load_Some _ _ _ Hl)). rewrite Hd. reflexivity.
Qed.

Lemma string_size_ok (s : store) (this : nat) (w : pbf_writer) :
  objects s !! this = Some w -> m_data w = true ->
  string_size this s = (Ret (Z.of_nat (List.length (buffer s))), s).
Proof.
  intros Hl Hd. unfold string_size.
  rewrite (bind_Ret _ _ _ _ _ (deref_m_data_ok _ _ _ Hl Hd)). reflexivity.
Qed.

Lemma string_append_ok (s : store) (this : nat) (w : pbf_writer) (bs : list byte) :
  objects s !! this = Some w -> m_data w = true ->
  string_append this bs s = (Ret tt, Build_store (buffer s ++ bs) (objects s)).
Proof.
  intros Hl Hd. unfold string_append.
  rewrite (bind_Ret _ _ _ _ _ (deref_m_data_ok _ _ _ Hl Hd)). reflexivity.
Qed.

Lemma string_resize_ok (s : store) (this : nat) (w : pbf_writer) (n : Z) :
  objects s !! this = Some w -> m_data w = true ->
  string_resize this n s
  = (Ret tt, Build_store (resize (Z.to_nat n) Byte.x00 (buffer s)) (objects s)).
Proof.
  intros Hl Hd. unfold string_resize.
  rewrite (bind_Ret _ _ _ _ _ (deref_m_data_ok _ _ _ Hl Hd)). reflexivity.
Qed.

Lemma string_erase_ok (s : store) (this : nat) (w : pbf_writer) (first last : Z) :
  objects s !! this = Some w -> m_data w = true ->
  0 <= first <= last -> last <= Z.of_nat (List.length (buffer s)) ->
  string_erase this first last s
  = (Ret tt, Build_store (take (Z.to_nat first) (buffer s)
                            ++ drop (Z.to_nat last) (buffer s)) (objects s)).
Proof.
  intros Hl Hd Hf Hla. unfold string_erase.
  rewrite (bind_Ret _ _ _ _ _ (deref_m_data_ok _ _ _ Hl Hd)).
  destruct (Z.leb_spec 0 first); [|lia].
  destruct (Z.leb_spec first last); [|lia].
  destruct (Z.leb_spec last (Z.of_nat (List.length (buffer s)))); [|lia].
  reflexivity.
Qed.

Lemma string_write_at_ok (s : store) (this : nat) (w : pbf_writer) (pos : Z)
    (bs : list byte) :
  objects s !! this = Some w -> m_data w = true ->
  0 <= pos -> pos + Z.of_nat (List.length bs) <= Z.of_nat (List.length (buffer s)) ->
  string_write_at this pos bs s
  = (Ret tt, Build_store (list_inserts (Z.to_nat pos) bs (buffer s)) (objects s)).
Proof.
  intros Hl Hd Hp Hla. unfold string_write_at.
  rewrite (bind_Ret _ _ _ _ _ (deref_m_data_ok _ _ _ Hl Hd)).
  destruct (Z.leb_spec 0 pos); [|lia].
  destruct (Z.leb_spec (pos + Z.of_nat (List.length bs))
              (Z.of_nat (List.length (buffer s)))); [|lia].
  reflexivity.
Qed.

Lemma set_m_rollback_pos_ok (s : store) (this : nat) (w : pbf_writer) (v : Z) :
  objects s !! this = Some w ->
  set_m_rollback_pos this v s
  = (Ret tt, Build_store (buffer s)
               (<[this := Build_pbf_writer (m_data w) (m_parent_writer w) v (m_pos w)]>
                  (objects s))).
Proof.
  intros Hl. unfold set_m_rollback_pos.
  rewrite (bind_Ret _ _ _ _ _ (load_Some _ _ _ Hl)). reflexivity.
Qed.

Lemma set_m_pos_ok (s : store) (this : nat) (w : pbf_writer) (v : Z) :
  objects s !! this = Some w ->
  set_m_pos this v s
  = (Ret tt, Build_store (buffer s)
               (<[this := Build_pbf_writer (m_data w) (m_parent_writer w)
                            (m_rollback_pos w) v]> (objects s))).
Proof.
  intros Hl. unfold set_m_pos.
  rewrite (bind_Ret _ _ _ _ _ (load_Some _ _ _ Hl)). reflexivity.
Qed.

Lemma add_varint_ok (s : store) (this : nat) (value : Z) :
  ready s this ->
  add_varint NDEBUG this value s
  = (Ret tt, Build_store (buffer s ++ write_varint value) (objects s)).
Proof.
  intros (w & Hl & Hd & Hp). unfold add_varint.
  rewrite (bind_Ret _ _ _ _ _ (load_Some _ _ _ Hl)).
  rewrite Hp, Hd, (bind_Ret _ _ _ _ _ (assert_true _)).
  rewrite (bind_Ret _ _ _ _ _ (assert_true _)).
  apply (string_append_ok _ _ _ _ Hl Hd).
Qed.

Lemma add_field_ok (s : store) (this : nat) (tag type : Z) :
  ready s this ->
  NDEBUG || tag_in_range tag = true ->
  add_field NDEBUG this tag type s
  = (Ret tt, Build_store (buffer s ++ write_varint (field_header tag type)) (objects s)).
Proof.
  intros Hr Ht. unfold add_field.
  rewrite (bind_Ret _ _ _ _ _ (assert_holds _ _ Ht)).
  apply add_varint_ok. exact Hr.
Qed.

Lemma add_length_varint_ok (s : store) (this : nat) (tag length : Z) :
  ready s this ->
  NDEBUG || tag_in_range tag = true ->
  add_length_varint NDEBUG this tag length s
  = (Ret tt,
     Build_store (buffer s ++ write_varint (field_header tag pbf_wire_type.length_delimited)
                    ++ write_varint length) (objects s)).
Proof.
  intros Hr Ht. unfold add_length_varint.
  rewrite (bind_Ret _ _ _ _ _ (add_field_ok _ _ _ _ Hr Ht)).
  rewrite add_varint_ok by exact Hr. cbn [buffer objects].
  rewrite <- app_assoc. reflexivity.
Qed.

Lemma add_fixed_ok (s : store) (this : nat) (T : cpp_type) (value : Z) :
  ready s this ->
  add_fixed NDEBUG this T value s
  = (Ret tt, Build_store (buffer s ++ le_split (Z.to_nat (sizeof T)) value) (objects s)).
Proof.
  intros (w & Hl & Hd & Hp). unfold add_fixed.
  rewrite (bind_Ret _ _ _ _ _ (load_Some _ _ _ Hl)).
  rewrite Hp, Hd, (bind_Ret _ _ _ _ _ (assert_true _)).
  rewrite (bind_Ret _ _ _ _ _ (assert_true _)).
  apply (string_append_ok _ _ _ _ Hl Hd).
Qed.

Lemma reserve_ok (s : store) (this : nat) (size : Z) :
  ready s this -> reserve NDEBUG this size s = (Ret tt, s).
Proof.
  intros (w & Hl & Hd & Hp). unfold reserve.
  rewrite (bind_Ret _ _ _ _ _ (load_Some _ _ _ Hl)).
  rewrite Hd, (bind_Ret _ _ _ _ _ (assert_true _)).
  apply (deref_m_data_ok _ _ _ Hl Hd).
Qed.

End WriterFacts.

Section Submessage.

Import Writer.
Local Open Scope writer_scope.

Variable NDEBUG : bool.

(** Overwriting the head of a placeholder and erasing the rest of it leaves
    the new bytes between what was before and what was after. *)
Lemma patch_placeholder (front ph payload bytes : list byte) :
  (List.length bytes <= List.length ph)%nat ->
  take (List.length front + List.length bytes)
       (list_inserts (List.length front) bytes (front ++ ph ++ payload))
  ++ drop (List.length front + List.length ph)
       (list_inserts (List.length front) bytes (front ++ ph ++ payload))
  = front ++ bytes ++ payload.
Proof.
  intros Hle.
  rewrite <- (take_drop (List.length bytes) ph) at 1 3.
  set (ph1 := take (List.length bytes) ph). set (ph2 := drop (List.length bytes) ph).
  assert (List.length ph1 = List.length bytes) as H1 by (unfold ph1; rewrite length_take; lia).
  assert (List.length ph = (List.length bytes + List.length ph2)%nat) as H2
    by (unfold ph2; rewrite length_drop; lia).
  rewrite H2. clearbody ph1 ph2. clear H2 Hle.
  replace (List.length front) with (List.length front + 0)%nat at 2 4 by lia.
  rewrite list_inserts_app_r, <- app_assoc.
  rewrite list_inserts_0_r by lia.
  rewrite take_app_add, drop_app_add.
  rewrite take_app_length, drop_app_add, drop_app_length.
  rewrite <- app_assoc. reflexivity.
Qed.

Lemma ready_insert (s : store) (this : nat) (w : pbf_writer) (b : list byte)
    (parent : option nat) (rb : Z) :
  objects s !! this = Some w ->
  ready (Build_store b (<[this := Build_pbf_writer true parent rb 0]> (objects s))) this.
Proof.
  intros Hl. exists (Build_pbf_writer true parent rb 0).
  split; [|split; reflexivity].
  cbn [objects]. eapply lookup_insert_same. exact Hl.
Qed.

(** [open_submessage] with size 0: header, placeholder, both anchors. *)
Lemma open_submessage_unknown (s : store) (this : nat) (w : pbf_writer) (tag : Z) :
  objects s !! this = Some w -> m_data w = true -> m_pos w = 0 ->
  NDEBUG || tag_in_range tag = true ->
  let header := write_varint (field_header tag pbf_wire_type.length_delimited) in
  let buffer' := buffer s ++ header ++ replicate 5 Byte.x00 in
  open_submessage NDEBUG this tag 0 s
  = (Ret tt,
     Build_store buffer'
       (<[this := Build_pbf_writer true (m_parent_writer w)
                    (Z.of_nat (List.length (buffer s)))
                    (Z.of_nat (List.length buffer'))]> (objects s))).
Proof.
  intros Hl Hd Hp Ht header buffer'. unfold open_submessage.
  rewrite (bind_Ret _ _ _ _ _ (load_Some _ _ _ Hl)).
  rewrite Hp, Hd, (bind_Ret _ _ _ _ _ (assert_true _ _)).
  rewrite (bind_Ret _ _ _ _ _ (assert_true _ _)).
  change (0 =? 0) with true. cbv iota.
  erewrite bind_Ret.
  2:{ rewrite (bind_Ret _ _ _ _ _ (string_size_ok _ _ _ Hl Hd)).
      rewrite (bind_Ret _ _ _ _ _ (set_m_rollback_pos_ok _ _ _ _ Hl)).
      rewrite Hd, Hp.
      erewrite bind_Ret; [|apply add_field_ok; [eapply ready_insert; exact Hl | exact Ht]].
      eapply string_append_ok; [cbn [objects]; eapply lookup_insert_same; exact Hl | reflexivity]. }
  cbn [buffer objects].
  erewrite bind_Ret;
    [|eapply string_size_ok; [cbn [objects]; eapply lookup_insert_same; exact Hl | reflexivity]].
  erewrite set_m_pos_ok by (cbn [objects]; eapply lookup_insert_same; exact Hl).
  cbn [buffer objects m_data m_parent_writer m_rollback_pos].
  rewrite list_insert_insert_eq.
  change (Z.to_nat (size_t reserve_bytes)) with 5%nat.
  rewrite <- app_assoc. reflexivity.
Qed.

(** [open_submessage] with a known size: header and length varint at its
    natural size, and the rollback anchor set to [size_is_known]. *)
Lemma open_submessage_known (s : store) (this : nat) (w : pbf_writer) (tag size : Z) :
  objects s !! this = Some w -> m_data w = true -> m_pos w = 0 ->
  NDEBUG || tag_in_range tag = true ->
  size <> 0 ->
  let header := write_varint (field_header tag pbf_wire_type.length_delimited) in
  let buffer' := buffer s ++ header ++ write_varint (pbf_length_type size) in
  open_submessage NDEBUG this tag size s
  = (Ret tt,
     Build_store buffer'
       (<[this := Build_pbf_writer true (m_parent_writer w) size_is_known
                    (Z.of_nat (List.length buffer'))]> (objects s))).
Proof.
  intros Hl Hd Hp Ht Hs header buffer'. unfold open_submessage.
  rewrite (bind_Ret _ _ _ _ _ (load_Some _ _ _ Hl)).
  rewrite Hp, Hd, (bind_Ret _ _ _ _ _ (assert_true _ _)).
  rewrite (bind_Ret _ _ _ _ _ (assert_true _ _)).
  destruct (Z.eqb_spec size 0) as [|_]; [contradiction|].
  erewrite bind_Ret; [|rewrite (bind_Ret _ _ _ _ _ (set_m_rollback_pos_ok _ _ _ _ Hl))].
  2:{ rewrite Hd, Hp.
      erewrite bind_Ret;
        [|apply add_length_varint_ok; [eapply ready_insert; exact Hl | exact Ht]].
      apply reserve_ok. eapply ready_insert. exact Hl. }
  cbn [buffer objects].
  erewrite bind_Ret;
    [|eapply string_size_ok; [cbn [objects]; eapply lookup_insert_same; exact Hl | reflexivity]].
  erewrite set_m_pos_ok by (cbn [objects]; eapply lookup_insert_same; exact Hl).
  cbn [buffer objects m_data m_parent_writer m_rollback_pos].
  rewrite list_insert_insert_eq. reflexivity.
Qed.

(** [close_submessage] when nothing was appended after the data anchor:
    the string is cut back to the rollback anchor. *)
Lemma close_submessage_rollback (s : store) (this : nat) (w : pbf_writer) :
  objects s !! this = Some w -> m_data w = true ->
  m_pos w <> 0 -> m_rollback_pos w <> size_is_known ->
  Z.of_nat (List.length (buffer s)) = m_pos w ->
  close_submessage NDEBUG this s
  = (Ret tt,
     Build_store (resize (Z.to_nat (m_rollback_pos w)) Byte.x00 (buffer s))
       (<[this := Build_pbf_writer true (m_parent_writer w) (m_rollback_pos w) 0]>
          (objects s))).
Proof.
  intros Hl Hd Hp Hr Hsz. unfold close_submessage.
  rewrite (bind_Ret _ _ _ _ _ (load_Some _ _ _ Hl)).
  rewrite Hd, (bind_Ret _ _ _ _ _ (assert_true _ _)).
  destruct (Z.eqb_spec (m_pos w) 0) as [|_]; [contradiction|].
  destruct (Z.eqb_spec (m_rollback_pos w) size_is_known) as [|_]; [contradiction|].
  cbn [orb].
  rewrite (bind_Ret _ _ _ _ _ (string_size_ok _ _ _ Hl Hd)).
  rewrite Hsz, Z.sub_diag. change (size_t 0 =? 0) with true. cbv iota.
  unfold rollback_submessage.
  rewrite (bind_Ret _ _ _ _ _ (load_Some _ _ _ Hl)).
  destruct (Z.eqb_spec (m_pos w) 0) as [|_]; [contradiction|].
  destruct (Z.eqb_spec (m_rollback_pos w) size_is_known) as [|_]; [contradiction|].
  cbn [negb]. rewrite Hd.
  rewrite !(bind_Ret _ _ _ _ _ (assert_true _ _)).
  rewrite (bind_Ret _ _ _ _ _ (string_resize_ok _ _ _ _ Hl Hd)).
  erewrite set_m_pos_ok by (cbn [objects]; exact Hl).
  rewrite Hd. reflexivity.
Qed.

(** [close_submessage] when a payload follows the placeholder: the length
    is written over the head of the placeholder and the rest of the
    placeholder is erased. *)
Lemma close_submessage_commit (s : store) (this : nat) (w : pbf_writer)
    (front ph payload : list byte) :
  objects s !! this = Some w -> m_data w = true ->
  m_rollback_pos w <> size_is_known ->
  buffer s = front ++ ph ++ payload ->
  List.length ph = 5%nat ->
  m_pos w = Z.of_nat (List.length (front ++ ph)) ->
  payload <> [] ->
  Z.of_nat (List.length (buffer s)) < 2 ^ 63 ->
  close_submessage NDEBUG this s
  = (Ret tt,
     Build_store
       (front ++ write_varint (pbf_length_type (Z.of_nat (List.length payload))) ++ payload)
       (<[this := Build_pbf_writer true (m_parent_writer w) (m_rollback_pos w) 0]>
          (objects s))).
Proof.
  intros Hl Hd Hr Hb Hph Hp Hne Hsz.
  assert (Z.of_nat (List.length (buffer s))
          = m_pos w + Z.of_nat (List.length payload)) as Hlen.
  { rewrite Hb, Hp, !length_app. lia. }
  assert (m_pos w = Z.of_nat (List.length front) + 5) as Hp'.
  { rewrite Hp, length_app. lia. }
  assert (0 < Z.of_nat (List.length payload)) as Hpl.
  { destruct payload; [contradiction | cbn [List.length]; lia]. }
  unfold close_submessage.
  rewrite (bind_Ret _ _ _ _ _ (load_Some _ _ _ Hl)).
  rewrite Hd, (bind_Ret _ _ _ _ _ (assert_true _ _)).
  destruct (Z.eqb_spec (m_pos w) 0) as [|_]; [lia|].
  destruct (Z.eqb_spec (m_rollback_pos w) size_is_known) as [|_]; [contradiction|].
  cbn [orb].
  rewrite (bind_Ret _ _ _ _ _ (string_size_ok _ _ _ Hl Hd)).
  assert (size_t (Z.of_nat (List.length (buffer s)) - m_pos w)
          = Z.of_nat (List.length payload)) as Hst.
  { unfold size_t. rewrite Z.mod_small; lia. }
  rewrite Hst.
  destruct (Z.eqb_spec (Z.of_nat (List.length payload)) 0) as [|_]; [lia|].
  unfold commit_submessage.
  rewrite (bind_Ret _ _ _ _ _ (load_Some _ _ _ Hl)).
  destruct (Z.eqb_spec (m_pos w) 0) as [|_]; [lia|].
  destruct (Z.eqb_spec (m_rollback_pos w) size_is_known) as [|_]; [contradiction|].
  cbn [negb]. rewrite Hd.
  rewrite !(bind_Ret _ _ _ _ _ (assert_true _ _)).
  rewrite (bind_Ret _ _ _ _ _ (string_size_ok _ _ _ Hl Hd)).
  rewrite Hst. change reserve_bytes with 5.
  assert (size_t (m_pos w - 5) = m_pos w - 5) as ->
    by (unfold size_t; rewrite Z.mod_small; lia).
  erewrite bind_Ret
    by (apply assert_holds; apply orb_true_iff; right; apply Z.geb_le; lia).
  rewrite (int64_t_small (m_pos w)) by lia.
  set (bytes := write_varint (pbf_length_type (Z.of_nat (List.length payload)))).
  assert (1 <= Z.of_nat (List.length bytes) <= 5) as Hn.
  { split; [apply write_varint_length|].
    apply write_varint_length_32. apply uint32_t_range. }
  erewrite bind_Ret by (eapply string_write_at_ok; [exact Hl | exact Hd | lia | lia]).
  erewrite bind_Ret.
  2:{ eapply string_erase_ok; [exact Hl | exact Hd | lia |].
      cbn [buffer]. rewrite length_inserts. lia. }
  erewrite set_m_pos_ok by (cbn [objects]; exact Hl).
  cbn [buffer objects]. rewrite Hd. f_equal. f_equal.
  rewrite Hb, Hp'.
  replace (Z.to_nat (Z.of_nat (List.length front) + 5 - 5)) with (List.length front) by lia.
  replace (Z.to_nat (Z.of_nat (List.length front) + 5 - 5 + Z.of_nat (List.length bytes)))
    with (List.length front + List.length bytes)%nat by lia.
  replace (Z.to_nat (Z.of_nat (List.length front) + 5))
    with (List.length front + List.length ph)%nat by lia.
  apply patch_placeholder. lia.
Qed.

End Submessage.

Section ChildWriter.

Import Writer.
Local Open Scope writer_scope.

Variable NDEBUG : bool.

Lemma construct_sub_unknown (s : store) (parent : nat) (w : pbf_writer) (tag : Z) :
  objects s !! parent = Some w -> m_data w = true -> m_pos w = 0 ->
  NDEBUG || tag_in_range tag = true ->
  let header := write_varint (field_header tag pbf_wire_type.length_delimited) in
  let buffer' := buffer s ++ header ++ replicate 5 Byte.x00 in
  construct_sub NDEBUG parent tag 0 s
  = (Ret (List.length (objects s)),
     Build_store buffer'
       (<[parent := Build_pbf_writer true (m_parent_writer w)
                      (Z.of_nat (List.length (buffer s)))
                      (Z.of_nat (List.length buffer'))]>
          (objects s ++ [fresh_child parent]))).
Proof.
  intros Hl Hd Hp Ht header buffer'. unfold construct_sub.
  rewrite (bind_Ret _ _ _ _ _ (load_Some _ _ _ Hl)).
  unfold allocate at 1. unfold bind at 1. rewrite Hd.
  erewrite bind_Ret.
  2:{ eapply (open_submessage_unknown NDEBUG _ parent w tag); try eassumption.
      cbn [objects]. apply lookup_app_l_Some. exact Hl. }
  reflexivity.
Qed.

Lemma construct_sub_known (s : store) (parent : nat) (w : pbf_writer) (tag size : Z) :
  objects s !! parent = Some w -> m_data w = true -> m_pos w = 0 ->
  NDEBUG || tag_in_range tag = true ->
  size <> 0 ->
  let header := write_varint (field_header tag pbf_wire_type.length_delimited) in
  let buffer' := buffer s ++ header ++ write_varint (pbf_length_type size) in
  construct_sub NDEBUG parent tag size s
  = (Ret (List.length (objects s)),
     Build_store buffer'
       (<[parent := Build_pbf_writer true (m_parent_writer w) size_is_known
                      (Z.of_nat (List.length buffer'))]>
          (objects s ++ [fresh_child parent]))).
Proof.
  intros Hl Hd Hp Ht Hs header buffer'. unfold construct_sub.
  rewrite (bind_Ret _ _ _ _ _ (load_Some _ _ _ Hl)).
  unfold allocate at 1. unfold bind at 1. rewrite Hd.
  erewrite bind_Ret.
  2:{ eapply (open_submessage_known NDEBUG _ parent w tag size); try eassumption.
      cbn [objects]. apply lookup_app_l_Some. exact Hl. }
  reflexivity.
Qed.

Lemma lookup_child_after_open (objs : list pbf_writer) (parent : nat)
    (w w' cw : pbf_writer) :
  objs !! parent = Some w ->
  <[parent := w']> (objs ++ [cw]) !! List.length objs = Some cw
  /\ <[parent := w']> (objs ++ [cw]) !! parent = Some w'
  /\ List.length objs <> parent.
Proof.
  intros Hl. pose proof (lookup_lt_Some _ _ _ Hl) as Hlt.
  split; [|split].
  - rewrite list_lookup_insert_ne by lia. apply list_lookup_middle. reflexivity.
  - apply list_lookup_insert_eq. rewrite length_app. cbn [List.length]. lia.
  - lia.
Qed.

Lemma destroy_child (s : store) (this parent : nat) (cw : pbf_writer) :
  objects s !! this = Some cw -> m_parent_writer cw = Some parent ->
  destroy NDEBUG this s = close_submessage NDEBUG parent s.
Proof.
  intros Hl Hp. unfold destroy.
  rewrite (bind_Ret _ _ _ _ _ (load_Some _ _ _ Hl)). rewrite Hp. reflexivity.
Qed.

(** A child of unknown size, used and destroyed. *)
Lemma scoped_submessage_unknown (s : store) (parent : nat) (w : pbf_writer)
    (tag : Z) (body : nat -> W unit) (payload : list byte) :
  objects s !! parent = Some w -> m_data w = true -> m_pos w = 0 ->
  NDEBUG || tag_in_range tag = true ->
  Z.of_nat (List.length (buffer s)) + Z.of_nat (List.length payload) + 15 < 2 ^ 63 ->
  (forall child, appends child parent (body child) payload) ->
  let header := write_varint (field_header tag pbf_wire_type.length_delimited) in
  exists s',
    scoped_submessage NDEBUG parent tag 0 body s = (Ret tt, s')
    /\ buffer s'
       = match payload with
         | [] => buffer s
         | _ :: _ =>
             buffer s ++ header
               ++ write_varint (pbf_length_type (Z.of_nat (List.length payload)))
               ++ payload
         end
    /\ exists w', objects s' !! parent = Some w' /\ m_pos w' = 0 /\ m_data w' = true.
Proof.
  intros Hl Hd Hp Ht Hsz Hbody header. unfold scoped_submessage.
  rewrite (bind_Ret _ _ _ _ _ (construct_sub_unknown _ _ _ _ Hl Hd Hp Ht)).
  fold header.
  set (w1 := Build_pbf_writer true (m_parent_writer w)
               (Z.of_nat (List.length (buffer s)))
               (Z.of_nat (List.length (buffer s ++ header ++ replicate 5 Byte.x00)))).
  destruct (lookup_child_after_open (objects s) parent w w1 (fresh_child parent) Hl)
    as (Hc & Hpar & Hne).
  destruct (Hbody (List.length (objects s))
              (Build_store (buffer s ++ header ++ replicate 5 Byte.x00)
                 (<[parent := w1]> (objects s ++ [fresh_child parent])))
              w1 Hc Hpar Hne)
    as (objs' & cw' & Hrun & Hpar' & Hc' & Hcp).
  rewrite (bind_Ret _ _ _ _ _ Hrun).
  rewrite (destroy_child (Build_store _ objs') _ parent cw' Hc' Hcp).
  cbn [buffer] in *.
  pose proof (write_varint_length (field_header tag pbf_wire_type.length_delimited)) as Hh.
  fold header in Hh.
  destruct payload as [|b payload].
  - rewrite app_nil_r.
    rewrite (close_submessage_rollback NDEBUG (Build_store _ objs') parent w1 Hpar').
    + cbn [m_rollback_pos m_parent_writer w1 buffer objects].
      eexists. split; [reflexivity|]. split.
      * cbn [buffer]. rewrite Nat2Z.id. apply resize_app. reflexivity.
      * eexists. split; [cbn [objects]; eapply lookup_insert_same; exact Hpar'|].
        split; reflexivity.
    + reflexivity.
    + cbn [m_pos w1]. rewrite !length_app, length_replicate. lia.
    + cbn [m_rollback_pos w1]. unfold size_is_known. cbn [List.length] in Hsz. lia.
    + reflexivity.
  - rewrite (close_submessage_commit NDEBUG (Build_store _ objs') parent w1
               (buffer s ++ header) (replicate 5 Byte.x00) (b :: payload) Hpar').
    + cbn [m_rollback_pos m_parent_writer w1].
      eexists. split; [reflexivity|]. split.
      * cbn [buffer]. rewrite <- !app_assoc. reflexivity.
      * eexists. split; [cbn [objects]; eapply lookup_insert_same; exact Hpar'|].
        split; reflexivity.
    + reflexivity.
    + cbn [m_rollback_pos w1]. unfold size_is_known. lia.
    + cbn [buffer]. rewrite <- !app_assoc. reflexivity.
    + apply length_replicate.
    + cbn [m_pos w1]. rewrite <- app_assoc. reflexivity.
    + discriminate.
    + cbn [buffer]. rewrite !length_app, length_replicate in *. lia.
Qed.

(** A child of known size, used and destroyed: closing does nothing. *)
Lemma scoped_submessage_known (s : store) (parent : nat) (w : pbf_writer)
    (tag size : Z) (body : nat -> W unit) (payload : list byte) :
  objects s !! parent = Some w -> m_data w = true -> m_pos w = 0 ->
  NDEBUG || tag_in_range tag = true ->
  size <> 0 ->
  (forall child, appends child parent (body child) payload) ->
  let header := write_varint (field_header tag pbf_wire_type.length_delimited) in
  exists s',
    scoped_submessage NDEBUG parent tag size body s = (Ret tt, s')
    /\ buffer s'
       = buffer s ++ header ++ write_varint (pbf_length_type size) ++ payload
    /\ exists w', objects s' !! parent = Some w'
                  /\ m_rollback_pos w' = size_is_known /\ m_data w' = true.
Proof.
  intros Hl Hd Hp Ht Hs Hbody header. unfold scoped_submessage.
  rewrite (bind_Ret _ _ _ _ _ (construct_sub_known _ _ _ _ _ Hl Hd Hp Ht Hs)).
  fold header.
  set (w1 := Build_pbf_writer true (m_parent_writer w) size_is_known
               (Z.of_nat (List.length
                  (buffer s ++ header ++ write_varint (pbf_length_type size))))).
  destruct (lookup_child_after_open (objects s) parent w w1 (fresh_child parent) Hl)
    as (Hc & Hpar & Hne).
  destruct (Hbody (List.length (objects s))
              (Build_store (buffer s ++ header ++ write_varint (pbf_length_type size))
                 (<[parent := w1]> (objects s ++ [fresh_child parent])))
              w1 Hc Hpar Hne)
    as (objs' & cw' & Hrun & Hpar' & Hc' & Hcp).
  rewrite (bind_Ret _ _ _ _ _ Hrun).
  rewrite (destroy_child (Build_store _ objs') _ parent cw' Hc' Hcp).
  unfold close_submessage.
  rewrite (bind_Ret _ _ _ _ _ (load_Some (Build_store _ objs') _ _ Hpar')).
  cbn [m_data m_pos m_rollback_pos w1].
  rewrite (bind_Ret _ _ _ _ _ (assert_true _ _)).
  rewrite Z.eqb_refl, orb_true_r.
  eexists. split; [reflexivity|]. split.
  - cbn [buffer]. rewrite <- !app_assoc. reflexivity.
  - exists w1. split; [exact Hpar'|]. split; reflexivity.
Qed.

End ChildWriter.

Section FieldWrites.

Import Writer.
Local Open Scope writer_scope.

Variable NDEBUG : bool.

Lemma add_impl_ok (s : store) (this : nat) (T : cpp_type) (G : type_tag)
    (value : carrier G) :
  ready s this ->
  NDEBUG || value_fits G value = true ->
  add_impl NDEBUG T G value this s
  = (Ret tt, Build_store (buffer s ++ encode_value T G value) (objects s)).
Proof.
  intros Hr Hf. pose proof Hr as (w & Hl & Hd & Hp).
  destruct G; cbn [add_impl encode_value].
  - apply (string_append_ok _ _ _ _ Hl Hd).
  - apply (string_append_ok _ _ _ _ Hl Hd).
  - apply (string_append_ok _ _ _ _ Hl Hd).
  - apply add_fixed_ok. exact Hr.
  - cbn [value_fits] in Hf.
    rewrite (bind_Ret _ _ _ _ _ (assert_holds _ _ _ Hf)).
    rewrite (bind_Ret _ _ _ _ _ (add_varint_ok _ _ _ _ Hr)).
    erewrite string_append_ok by (cbn [objects]; eassumption).
    cbn [buffer objects]. rewrite <- app_assoc. reflexivity.
Qed.

(** [add<T>(tag, value)] appends the field header and the value. *)
Lemma add_ok (s : store) (this : nat) (T : scalar_type) (tag : Z)
    (value : carrier (tag_of T)) :
  ready s this ->
  NDEBUG || tag_in_range tag = true ->
  NDEBUG || value_fits (tag_of T) value = true ->
  add NDEBUG T this tag value s
  = (Ret tt,
     Build_store (buffer s ++ write_varint (field_header tag (wire_type_of T))
                    ++ encode_value (type_of T) (tag_of T) value) (objects s)).
Proof.
  intros Hr Ht Hf. pose proof Hr as (w & Hl & Hd & Hp). unfold add.
  rewrite (bind_Ret _ _ _ _ _ (add_field_ok _ _ _ _ _ Hr Ht)).
  rewrite (bind_Ret _ _ _ _ _ (load_Some (Build_store _ (objects s)) _ _ Hl)).
  rewrite Hp, Hd, !(bind_Ret _ _ _ _ _ (assert_true _ _)).
  rewrite add_impl_ok by assumption.
  cbn [buffer objects]. rewrite <- app_assoc. reflexivity.
Qed.

Lemma fresh_child_ready (s : store) (this parent : nat) :
  objects s !! this = Some (fresh_child parent) -> ready s this.
Proof. intros H. exists (fresh_child parent). split; [exact H|]. split; reflexivity. Qed.

Lemma appends_nothing (this parent : nat) : appends this parent (ret tt) [].
Proof.
  intros s w Hc Hp Hne. exists (objects s), (fresh_child parent).
  rewrite app_nil_r. destruct s. split; [reflexivity|]. split; [exact Hp|].
  split; [exact Hc | reflexivity].
Qed.

Lemma appends_add (this parent : nat) (T : scalar_type) (tag : Z)
    (value : carrier (tag_of T)) :
  NDEBUG || tag_in_range tag = true ->
  NDEBUG || value_fits (tag_of T) value = true ->
  appends this parent (add NDEBUG T this tag value)
    (write_varint (field_header tag (wire_type_of T))
       ++ encode_value (type_of T) (tag_of T) value).
Proof.
  intros Ht Hf s w Hc Hp Hne. exists (objects s), (fresh_child parent).
  rewrite add_ok by eauto using fresh_child_ready.
  split; [reflexivity|]. split; [exact Hp|]. split; [exact Hc | reflexivity].
Qed.

(** In range, the header is [(tag << 3) | type] without wrap-around. *)
Lemma field_header_in_range (tag type : Z) :
  tag_in_range tag = true -> 0 <= type < 8 ->
  field_header tag type = Z.lor (Z.shiftl tag 3) type
  /\ field_header tag type = 8 * tag + type.
Proof.
  intros Ht Hty. unfold tag_in_range in Ht.
  change (Z.shiftl 1 29 - 1) with 536870911 in Ht.
  assert (0 < tag < 2 ^ 29) as Hr by lia.
  unfold field_header. rewrite Z.shiftl_mul_pow2 by lia. change (2 ^ 3) with 8.
  rewrite (uint32_t_small (tag * 8)) by lia.
  rewrite (uint32_t_small type) by lia.
  assert (Z.lor (tag * 8) type = tag * 8 + type) as Hlor.
  { symmetry. apply Z.add_nocarry_lor.
    rewrite <- (Z.mod_small type (2 ^ 3)) by lia.
    rewrite <- Z.land_ones by lia.
    change 8 with (2 ^ 3). rewrite <- Z.shiftl_mul_pow2 by lia.
    Z.bitblast. rewrite (Z.testbit_neg_r tag) by lia. reflexivity. }
  rewrite Hlor, uint32_t_small by lia. lia.
Qed.

End FieldWrites.

(* ===================================================================== *)
(** * The writer's submessage protocol *)
(* ===================================================================== *)

Section SubmessageProtocol.

Import Writer.
Local Open Scope writer_scope.

(** C2 (as the code has it).  [open_submessage] with unknown size records
    the size of the string as the rollback anchor, appends the field header
    [(tag << 3) | 2] and then [reserve_bytes = 5] null bytes as the
    placeholder of the length, and records the new size of the string as
    the data anchor. *)
Theorem open_submessage_reserves_placeholder
    (NDEBUG : bool) (s : store) (this : nat) (w : pbf_writer) (tag : Z) :
  objects s !! this = Some w -> m_data w = true -> m_pos w = 0 ->
  tag_in_range tag = true ->
  exists s' w',
    open_submessage NDEBUG this tag 0 s = (Ret tt, s')
    /\ reserve_bytes = 5
    /\ buffer s' = buffer s ++ write_varint (Z.lor (Z.shiftl tag 3) 2)
                     ++ replicate (Z.to_nat reserve_bytes) Byte.x00
    /\ objects s' !! this = Some w'
    /\ m_rollback_pos w' = Z.of_nat (List.length (buffer s))
    /\ m_pos w' = Z.of_nat (List.length (buffer s')).
Proof.
  intros Hl Hd Hp Ht.
  assert (NDEBUG || tag_in_range tag = true) as Ht' by (rewrite Ht; apply orb_true_r).
  rewrite (open_submessage_unknown NDEBUG s this w tag Hl Hd Hp Ht').
  destruct (field_header_in_range tag 2 Ht ltac:(lia)) as [Hh _].
  change pbf_wire_type.length_delimited with 2. rewrite Hh.
  eexists. eexists. split; [reflexivity|]. split; [reflexivity|].
  split; [reflexivity|]. split.
  - cbn [objects]. eapply lookup_insert_same. exact Hl.
  - split; reflexivity.
Qed.

Lemma open_submessage_reserves_placeholder_witness :
  exists s' w',
    open_submessage false 0 1 0 root_store = (Ret tt, s')
    /\ reserve_bytes = 5
    /\ buffer s' = buffer root_store ++ write_varint (Z.lor (Z.shiftl 1 3) 2)
                     ++ replicate (Z.to_nat reserve_bytes) Byte.x00
    /\ objects s' !! 0%nat = Some w'
    /\ m_rollback_pos w' = Z.of_nat (List.length (buffer root_store))
    /\ m_pos w' = Z.of_nat (List.length (buffer s')).
Proof.
  apply (open_submessage_reserves_placeholder false root_store 0
           (Build_pbf_writer true None 0 0) 1); reflexivity.
Defined.

(** C2, counterexample to the wording of the specification: the
    placeholder after the header is 5 null bytes, not 10. *)
Lemma open_submessage_placeholder_not_10 :
  buffer (snd (open_submessage true 0 1 0 root_store))
  = write_varint (Z.lor (Z.shiftl 1 3) 2) ++ replicate 5 Byte.x00
  /\ buffer (snd (open_submessage true 0 1 0 root_store))
     <> write_varint (Z.lor (Z.shiftl 1 3) 2) ++ replicate 10 Byte.x00.
Proof. split; [reflexivity | discriminate]. Qed.

(** C5.  A child of unknown size that is closed (or destroyed) with nothing
    appended after the data anchor: the string is cut back to the rollback
    anchor, and so is byte for byte what it was before the child was
    constructed.  The same holds after any use of the child that appends
    no byte. *)
Theorem empty_submessage_rolls_back
    (NDEBUG : bool) (s : store) (parent : nat) (w : pbf_writer) (tag : Z) :
  objects s !! parent = Some w -> m_data w = true -> m_pos w = 0 ->
  NDEBUG || tag_in_range tag = true ->
  Z.of_nat (List.length (buffer s)) + 15 < 2 ^ 63 ->
  exists child s1 w1 s2,
    construct_sub NDEBUG parent tag 0 s = (Ret child, s1)
    /\ objects s1 !! parent = Some w1
    /\ m_pos w1 = Z.of_nat (List.length (buffer s1))
    /\ close_submessage NDEBUG parent s1 = (Ret tt, s2)
    /\ destroy NDEBUG child s1 = (Ret tt, s2)
    /\ buffer s2 = take (Z.to_nat (m_rollback_pos w1)) (buffer s1)
    /\ buffer s2 = buffer s
    /\ forall body,
         (forall c, appends c parent (body c) []) ->
         exists s3, scoped_submessage NDEBUG parent tag 0 body s = (Ret tt, s3)
                    /\ buffer s3 = buffer s.
Proof.
  intros Hl Hd Hp Ht Hsz.
  rewrite (construct_sub_unknown NDEBUG s parent w tag Hl Hd Hp Ht).
  set (header := write_varint (field_header tag pbf_wire_type.length_delimited)).
  set (w1 := Build_pbf_writer true (m_parent_writer w)
               (Z.of_nat (List.length (buffer s)))
               (Z.of_nat (List.length (buffer s ++ header ++ replicate 5 Byte.x00)))).
  destruct (lookup_child_after_open (objects s) parent w w1 (fresh_child parent) Hl)
    as (Hc & Hpar & Hne).
  pose proof (write_varint_length (field_header tag pbf_wire_type.length_delimited)) as Hh.
  fold header in Hh.
  eexists. exists (Build_store (buffer s ++ header ++ replicate 5 Byte.x00)
                     (<[parent := w1]> (objects s ++ [fresh_child parent]))).
  exists w1. eexists.
  split; [reflexivity|]. split; [exact Hpar|]. split; [reflexivity|].
  assert (close_submessage NDEBUG parent
            (Build_store (buffer s ++ header ++ replicate 5 Byte.x00)
               (<[parent := w1]> (objects s ++ [fresh_child parent])))
          = (Ret tt,
             Build_store (resize (Z.to_nat (m_rollback_pos w1)) Byte.x00
                            (buffer s ++ header ++ replicate 5 Byte.x00))
               (<[parent := Build_pbf_writer true (m_parent_writer w1)
                              (m_rollback_pos w1) 0]>
                  (<[parent := w1]> (objects s ++ [fresh_child parent]))))) as Hclose.
  { apply (close_submessage_rollback NDEBUG
             (Build_store (buffer s ++ header ++ replicate 5 Byte.x00)
                (<[parent := w1]> (objects s ++ [fresh_child parent])))
             parent w1 Hpar).
    - reflexivity.
    - cbn [m_pos w1]. rewrite !length_app, length_replicate. lia.
    - cbn [m_rollback_pos w1]. unfold size_is_known. lia.
    - reflexivity. }
  split; [exact Hclose|]. split.
  { rewrite (destroy_child NDEBUG
               (Build_store (buffer s ++ header ++ replicate 5 Byte.x00)
                  (<[parent := w1]> (objects s ++ [fresh_child parent])))
               _ parent (fresh_child parent) Hc eq_refl).
    exact Hclose. }
  cbn [buffer m_rollback_pos w1]. rewrite Nat2Z.id.
  split; [apply resize_le; rewrite length_app; lia|].
  split; [apply resize_app; reflexivity|].
  intros body Hbody.
  destruct (scoped_submessage_unknown NDEBUG s parent w tag body [] Hl Hd Hp Ht
              ltac:(cbn [List.length]; lia) Hbody) as (s3 & Hrun & Hbuf & _).
  exists s3. split; [exact Hrun | exact Hbuf].
Qed.

Lemma empty_submessage_rolls_back_witness :
  exists child s1 w1 s2,
    construct_sub false 0 1 0 root_store = (Ret child, s1)
    /\ objects s1 !! 0%nat = Some w1
    /\ m_pos w1 = Z.of_nat (List.length (buffer s1))
    /\ close_submessage false 0 s1 = (Ret tt, s2)
    /\ destroy false child s1 = (Ret tt, s2)
    /\ buffer s2 = take (Z.to_nat (m_rollback_pos w1)) (buffer s1)
    /\ buffer s2 = buffer root_store
    /\ forall body,
         (forall c, appends c 0 (body c) []) ->
         exists s3, scoped_submessage false 0 1 0 body root_store = (Ret tt, s3)
                    /\ buffer s3 = buffer root_store.
Proof.
  apply (empty_submessage_rolls_back false root_store 0
           (Build_pbf_writer true None 0 0) 1); reflexivity.
Defined.

(** C6.  A child of unknown size into which a non-empty payload of fewer
    than 2^32 bytes was written: closing it leaves, after what the string
    held before, the field header, the varint of the number of payload
    bytes, and the payload moved left to follow it; that varint decodes to
    the payload size and no shorter encoding of it exists. *)
Theorem commit_submessage_patches_length
    (NDEBUG : bool) (s : store) (parent : nat) (w : pbf_writer) (tag : Z)
    (body : nat -> W unit) (payload : list byte) :
  objects s !! parent = Some w -> m_data w = true -> m_pos w = 0 ->
  tag_in_range tag = true ->
  (forall child, appends child parent (body child) payload) ->
  payload <> [] ->
  Z.of_nat (List.length payload) < 2 ^ 32 ->
  Z.of_nat (List.length (buffer s)) + Z.of_nat (List.length payload) + 15 < 2 ^ 63 ->
  let header := write_varint (Z.lor (Z.shiftl tag 3) 2) in
  let len := write_varint (Z.of_nat (List.length payload)) in
  exists s',
    scoped_submessage NDEBUG parent tag 0 body s = (Ret tt, s')
    /\ buffer s' = buffer s ++ header ++ len ++ payload
    /\ decode_varint (buffer s')
         (Z.of_nat (List.length (buffer s ++ header)))
         (Z.of_nat (List.length (buffer s')))
       = Ret (Z.of_nat (List.length payload),
              Z.of_nat (List.length (buffer s ++ header ++ len)))
    /\ (forall mem first last p,
          decode_varint mem first last = Ret (Z.of_nat (List.length payload), p) ->
          Z.of_nat (List.length len) <= p - first)
    /\ Z.of_nat (List.length len) <= reserve_bytes.
Proof.
  intros Hl Hd Hp Ht Hbody Hne H32 Hsz header len.
  assert (NDEBUG || tag_in_range tag = true) as Ht' by (rewrite Ht; apply orb_true_r).
  destruct (scoped_submessage_unknown NDEBUG s parent w tag body payload
              Hl Hd Hp Ht' Hsz Hbody) as (s' & Hrun & Hbuf & _).
  destruct (field_header_in_range tag 2 Ht ltac:(lia)) as [Hh _].
  change pbf_wire_type.length_delimited with 2 in Hbuf. rewrite Hh in Hbuf.
  fold header in Hbuf.
  unfold pbf_length_type in Hbuf.
  rewrite uint32_t_small in Hbuf by lia. fold len in Hbuf.
  assert (buffer s' = buffer s ++ header ++ len ++ payload) as Hbuf'
    by (destruct payload; [contradiction | exact Hbuf]).
  exists s'. split; [exact Hrun|]. split; [exact Hbuf'|]. split; [|split].
  - erewrite (decode_varint_write_varint _ _ _ (Z.of_nat (List.length payload)) payload).
    + rewrite uint64_t_small by lia. f_equal. f_equal.
      fold len. rewrite (app_assoc (buffer s) header len), (length_app (buffer s ++ header)).
      lia.
    + fold len. rewrite Hbuf', (app_assoc (buffer s) header).
      apply bytes_between_prefix; [reflexivity|].
      rewrite !length_app. lia.
  - intros mem first last p Hdec. apply (write_varint_minimal mem first last _ p Hdec).
  - apply write_varint_length_32. lia.
Qed.

Lemma commit_submessage_patches_length_witness :
  let payload := [byte.of_Z 8; byte.of_Z 1] in
  let body := fun child => add_bool false child 1 true in
  let header := write_varint (Z.lor (Z.shiftl 5 3) 2) in
  let len := write_varint (Z.of_nat (List.length payload)) in
  exists s',
    scoped_submessage false 0 5 0 body root_store = (Ret tt, s')
    /\ buffer s' = buffer root_store ++ header ++ len ++ payload
    /\ decode_varint (buffer s')
         (Z.of_nat (List.length (buffer root_store ++ header)))
         (Z.of_nat (List.length (buffer s')))
       = Ret (Z.of_nat (List.length payload),
              Z.of_nat (List.length (buffer root_store ++ header ++ len)))
    /\ (forall mem first last p,
          decode_varint mem first last = Ret (Z.of_nat (List.length payload), p) ->
          Z.of_nat (List.length len) <= p - first)
    /\ Z.of_nat (List.length len) <= reserve_bytes.
Proof.
  apply (commit_submessage_patches_length false root_store 0
           (Build_pbf_writer true None 0 0) 5
           (fun child => add_bool false child 1 true)
           [byte.of_Z 8; byte.of_Z 1]);
    try reflexivity; try discriminate.
  intros child. apply (appends_add false child 0 _bool 1 1); reflexivity.
Defined.

(** C7.  For every tag and every payload, the child constructed with the
    exact payload size and the child constructed with unknown size leave
    the same bytes in the string. *)
Theorem known_size_same_bytes_as_unknown
    (NDEBUG : bool) (s : store) (parent : nat) (w : pbf_writer) (tag : Z)
    (body : nat -> W unit) (payload : list byte) :
  objects s !! parent = Some w -> m_data w = true -> m_pos w = 0 ->
  NDEBUG || tag_in_range tag = true ->
  (forall child, appends child parent (body child) payload) ->
  Z.of_nat (List.length (buffer s)) + Z.of_nat (List.length payload) + 15 < 2 ^ 63 ->
  exists s1 s2,
    scoped_submessage NDEBUG parent tag (Z.of_nat (List.length payload)) body s
    = (Ret tt, s1)
    /\ scoped_submessage NDEBUG parent tag 0 body s = (Ret tt, s2)
    /\ buffer s1 = buffer s2.
Proof.
  intros Hl Hd Hp Ht Hbody Hsz.
  destruct (scoped_submessage_unknown NDEBUG s parent w tag body payload
              Hl Hd Hp Ht Hsz Hbody) as (s2 & Hrun2 & Hbuf2 & _).
  destruct payload as [|b payload].
  - exists s2, s2. cbn [List.length]. change (Z.of_nat 0) with 0.
    split; [exact Hrun2|]. split; [exact Hrun2 | reflexivity].
  - destruct (scoped_submessage_known NDEBUG s parent w tag
                (Z.of_nat (List.length (b :: payload))) body (b :: payload)
                Hl Hd Hp Ht ltac:(cbn [List.length]; lia) Hbody)
      as (s1 & Hrun1 & Hbuf1 & _).
    exists s1, s2. split; [exact Hrun1|]. split; [exact Hrun2|].
    rewrite Hbuf1, Hbuf2. reflexivity.
Qed.

Lemma known_size_same_bytes_as_unknown_witness :
  let body := fun child => add_bool false child 1 true in
  exists s1 s2,
    scoped_submessage false 0 5 (Z.of_nat (List.length [byte.of_Z 8; byte.of_Z 1]))
      body root_store = (Ret tt, s1)
    /\ scoped_submessage false 0 5 0 body root_store = (Ret tt, s2)
    /\ buffer s1 = buffer s2.
Proof.
  apply (known_size_same_bytes_as_unknown false root_store 0
           (Build_pbf_writer true None 0 0) 5
           (fun child => add_bool false child 1 true)
           [byte.of_Z 8; byte.of_Z 1]); try reflexivity.
  intros child. apply (appends_add false child 0 _bool 1 1); reflexivity.
Defined.

(** C9.  A packed add of an empty range returns at once: the string and
    every writer object are what they were, whatever the tag, the element
    type, the iterator category and the build. *)
Theorem add_packed_empty_range_writes_nothing
    (NDEBUG : bool) (T : scalar_type) (forward_iterator : bool)
    (this : nat) (tag : Z) (s : store) :
  add_packed NDEBUG T forward_iterator this tag [] s = (Ret tt, s).
Proof. reflexivity. Qed.



End SubmessageProtocol.

(* ===================================================================== *)
(** * The reader *)
(* ===================================================================== *)

Section ReaderFacts.

Import Reader.
Local Open Scope reader_scope.

Variable NDEBUG : bool.
Variable mem : list byte.

Lemma decode_varint_m_data_Ret (r : pbf_reader) (v p : Z) :
  decode_varint mem (m_data r) (m_end r) = Ret (v, p) ->
  decode_varint_m_data mem r
  = (Ret v, Build_pbf_reader p (m_end r) (m_wire_type r) (m_tag r)).
Proof. intros H. unfold decode_varint_m_data. rewrite H. reflexivity. Qed.

Lemma decode_varint_m_data_Throw (r : pbf_reader) (e : exception) :
  decode_varint mem (m_data r) (m_end r) = Throw e ->
  decode_varint_m_data mem r = (Throw e, r).
Proof. intros H. unfold decode_varint_m_data. rewrite H. reflexivity. Qed.

(** A successful decode moves the cursor forward, by at most 10 bytes. *)
Lemma decode_varint_advances (first last v p : Z) :
  decode_varint mem first last = Ret (v, p) -> first < p <= first + 10.
Proof.
  unfold decode_varint. intros H.
  destruct (decode_varint_impl max_varint_length (bytes_between mem first last))
    as [[v' n]|e|] eqn:E; try discriminate.
  injection H as <- <-.
  destruct (decode_varint_impl_bound _ _ _ _ E) as [Hn _].
  unfold max_varint_length in Hn. lia.
Qed.

Lemma decode_varint_never_aborts (first last : Z) :
  decode_varint mem first last <> Abort.
Proof.
  unfold decode_varint.
  assert (forall fuel bs, decode_varint_impl fuel bs <> Abort) as Himpl.
  { induction fuel as [|fuel IH]; intros bs; cbn [decode_varint_impl]; [discriminate|].
    destruct bs as [|b rest]; [discriminate|].
    destruct (byte.unsigned b <? 128); [discriminate|].
    specialize (IH rest).
    destruct (decode_varint_impl fuel rest) as [[v n]|e|]; try discriminate.
    contradiction. }
  specialize (Himpl max_varint_length (bytes_between mem first last)).
  destruct (decode_varint_impl max_varint_length (bytes_between mem first last))
    as [[v n]|e|]; try discriminate. contradiction.
Qed.

Lemma land_7_cases (header : Z) :
  Z.land header 7 = 0 \/ Z.land header 7 = 1 \/ Z.land header 7 = 2
  \/ Z.land header 7 = 3 \/ Z.land header 7 = 4 \/ Z.land header 7 = 5
  \/ Z.land header 7 = 6 \/ Z.land header 7 = 7.
Proof.
  assert (Z.land header 7 = header mod 8) as ->
    by (change 7 with (Z.ones 3); rewrite Z.land_ones by lia; reflexivity).
  pose proof (Z.mod_pos_bound header 8 ltac:(lia)) as H. lia.
Qed.

(** [next()] once the header is decoded. *)
Lemma next_decoded (r : pbf_reader) (header p : Z) :
  m_data r <> m_end r ->
  decode_varint mem (m_data r) (m_end r) = Ret (header, p) ->
  NDEBUG || tag_in_range (pbf_tag_type (Z.shiftr header 3)) = true ->
  let r' := Build_pbf_reader p (m_end r) (Z.land header 7)
              (pbf_tag_type (Z.shiftr header 3)) in
  next NDEBUG mem r
  = if (Z.land header 7 =? 0) || (Z.land header 7 =? 1)
       || (Z.land header 7 =? 2) || (Z.land header 7 =? 5)
    then (Ret true, r')
    else (Throw unknown_pbf_wire_type_exception, r').
Proof.
  intros Hne Hdec Ht r'. unfold next, bind at 1, this at 1.
  destruct (Z.eqb_spec (m_data r) (m_end r)) as [|_]; [contradiction|].
  unfold bind at 1. rewrite (decode_varint_m_data_Ret r header p Hdec).
  unfold bind, set_m_tag, set_m_wire_type, this, protozero_assert.
  cbn [m_data m_end m_wire_type m_tag]. rewrite Ht.
  cbn [m_data m_end m_wire_type m_tag].
  unfold pbf_wire_type.varint, pbf_wire_type.fixed64,
    pbf_wire_type.length_delimited, pbf_wire_type.fixed32.
  destruct ((Z.land header 7 =? 0) || (Z.land header 7 =? 1)
            || (Z.land header 7 =? 2) || (Z.land header 7 =? 5)); reflexivity.
Qed.

Lemma rbind_Ret {A B} (m : M A) (k : A -> M B) (r r' : pbf_reader) (a : A) :
  m r = (Ret a, r') -> bind m k r = k a r'.
Proof. intros H. unfold bind. rewrite H. reflexivity. Qed.

Lemma bind_assoc_this {A} (r : pbf_reader) (k : pbf_reader -> M A) :
  (r0 <- this ;; k r0) r = k r r.
Proof. reflexivity. Qed.

Lemma rbind_Throw {A B} (m : M A) (k : A -> M B) (r r' : pbf_reader) (e : exception) :
  m r = (Throw e, r') -> bind m k r = (Throw e, r').
Proof. intros H. unfold bind. rewrite H. reflexivity. Qed.

Lemma rbind_Abort {A B} (m : M A) (k : A -> M B) (r r' : pbf_reader) :
  m r = (Abort, r') -> bind m k r = (Abort, r').
Proof. intros H. unfold bind. rewrite H. reflexivity. Qed.

Lemma rassert_holds (c : bool) (r : pbf_reader) :
  NDEBUG || c = true -> protozero_assert NDEBUG c r = (Ret tt, r).
Proof. intros H. unfold protozero_assert. rewrite H. reflexivity. Qed.

(** With a current field of the wire type asked for, [get<T>()] is
    [get_scalar<T, R>(tag)]: both assertions hold. *)
Lemma get_current_field (T : scalar_type) (r : pbf_reader) :
  m_tag r <> 0 -> m_wire_type r = wire_type_of T ->
  get NDEBUG mem T r = get_scalar NDEBUG mem T r.
Proof.
  intros Htag Hwt. unfold get, tag.
  erewrite rbind_Ret by reflexivity.
  erewrite rbind_Ret
    by (apply rassert_holds; destruct (Z.eqb_spec (m_tag r) 0);
        [contradiction | apply orb_true_r]).
  unfold get_impl_is_scalar, has_wire_type.
  erewrite rbind_Ret by reflexivity.
  erewrite rbind_Ret
    by (apply rassert_holds; rewrite Hwt, Z.eqb_refl; apply orb_true_r).
  reflexivity.
Qed.

Lemma skip_bytes_ok (len : Z) (r : pbf_reader) :
  m_data r + len <= m_end r ->
  skip_bytes NDEBUG len r
  = (Ret tt, Build_pbf_reader (m_data r + len) (m_end r) (m_wire_type r)
               (if NDEBUG then m_tag r else 0)).
Proof.
  intros Hle. unfold skip_bytes, bind, this.
  destruct (Z.gtb_spec (m_data r + len) (m_end r)); [lia|].
  unfold set_m_data, set_m_tag, ret. cbn [m_data m_end m_wire_type m_tag].
  destruct NDEBUG; reflexivity.
Qed.

Lemma skip_bytes_Throw (len : Z) (r : pbf_reader) :
  m_data r + len > m_end r ->
  skip_bytes NDEBUG len r = (Throw end_of_buffer_exception, r).
Proof.
  intros Hgt. unfold skip_bytes, bind, this.
  destruct (Z.gtb_spec (m_data r + len) (m_end r)); [|lia]. reflexivity.
Qed.

Lemma deref_ok (p : Z) (b : byte) (r : pbf_reader) :
  0 <= p -> mem !! Z.to_nat p = Some b -> deref mem p r = (Ret b, r).
Proof.
  intros Hp Hb. unfold deref. destruct (Z.ltb_spec p 0); [lia|].
  rewrite Hb. reflexivity.
Qed.

Lemma strong_after_check {A B} (m : M A) (k : A -> M B) :
  pure_check m -> (forall a, strong (k a)) -> strong (bind m k).
Proof.
  intros Hm Hk r e r' H. unfold bind in H.
  destruct (Hm r) as [[a Ha]|Ha]; rewrite Ha in H.
  - eapply Hk. exact H.
  - discriminate.
Qed.

Lemma pure_check_assert c : pure_check (protozero_assert NDEBUG c).
Proof.
  intros r. unfold protozero_assert. destruct (NDEBUG || c); [left; eexists|right]; reflexivity.
Qed.

Lemma pure_check_tag : pure_check tag.
Proof. intros r. left. eexists. reflexivity. Qed.

Lemma pure_check_has_wire_type w : pure_check (has_wire_type w).
Proof. intros r. left. eexists. reflexivity. Qed.

Lemma strong_decode : strong (decode_varint_m_data mem).
Proof.
  intros r e r' H. unfold decode_varint_m_data in H.
  destruct (decode_varint mem (m_data r) (m_end r)) as [[v p]|e'|]; congruence.
Qed.

Lemma strong_skip_bytes len : strong (skip_bytes NDEBUG len).
Proof.
  intros r e r' H. unfold skip_bytes, bind, this in H.
  destruct (m_data r + len >? m_end r).
  - unfold throw in H. congruence.
  - unfold set_m_data, set_m_tag, ret in H. destruct NDEBUG; discriminate.
Qed.

Lemma strong_then_ret {A B} (m : M A) (f : A -> B) :
  strong m -> strong (bind m (fun a => ret (f a))).
Proof.
  intros Hm r e r' H. unfold bind in H.
  destruct (m r) as [[a|e'|] r1] eqn:E.
  - unfold ret in H. discriminate.
  - injection H as <- <-. eapply Hm. exact E.
  - discriminate.
Qed.

Lemma strong_then_no_throw {A B} (m : M A) (k : A -> M B) :
  strong m -> (forall a, no_throw (k a)) -> strong (bind m k).
Proof.
  intros Hm Hk r e r' H. unfold bind in H.
  destruct (m r) as [[a|e'|] r1] eqn:E.
  - exfalso. eapply Hk. exact H.
  - injection H as <- <-. eapply Hm. exact E.
  - discriminate.
Qed.

Lemma no_throw_ret {A} (a : A) : no_throw (ret a).
Proof. intros r e r' H. discriminate. Qed.

Lemma no_throw_read_back (R : cpp_type) :
  no_throw (r' <- this ;;
            b <- deref mem (m_data r' - 1) ;;
            ret (convert R (if byte.unsigned b =? 0 then 0 else 1))).
Proof.
  intros r e r' H. unfold bind, this, deref, ret in H.
  destruct (m_data r - 1 <? 0); [discriminate|].
  destruct (mem !! Z.to_nat (m_data r - 1)); discriminate.
Qed.

Lemma pure_check_bool_assert (r0 : pbf_reader) :
  pure_check (if NDEBUG then ret tt
              else b <- deref mem (m_data r0) ;;
                   protozero_assert NDEBUG (Z.land (byte.unsigned b) 128 =? 0)).
Proof.
  intros r. destruct NDEBUG; [left; eexists; reflexivity|].
  unfold bind, deref, protozero_assert.
  destruct (m_data r0 <? 0); [right; reflexivity|].
  destruct (mem !! Z.to_nat (m_data r0)); [|right; reflexivity].
  cbn [orb]. destruct (Z.land (byte.unsigned b) 128 =? 0);
    [left; eexists|right]; reflexivity.
Qed.

Lemma strong_get_scalar (T : scalar_type) :
  tag_of T <> length_delimited_tag -> strong (get_scalar NDEBUG mem T).
Proof.
  intros HT. unfold get_scalar.
  destruct T; cbn [tag_of type_of] in *; try contradiction.
  all: first
    [ apply strong_then_ret; apply strong_decode
    | apply strong_then_no_throw;
        [apply strong_skip_bytes | intros []; intros r e r' H; discriminate]
    | idtac ].
  unfold get_scalar_bool. intros r e r' H. rewrite bind_assoc_this in H.
  eapply strong_after_check; cycle 2; [exact H | apply (pure_check_bool_assert r) |].
  intros ?. apply strong_then_no_throw; [apply strong_skip_bytes|]. intros ?.
  apply no_throw_read_back.
Qed.

(** The scalar reads keep the strong guarantee: [skip_bytes] tests the
    bound before it moves the cursor, and [decode_varint] moves it on
    success only. *)
Lemma strong_get (T : scalar_type) :
  tag_of T <> length_delimited_tag -> strong (get NDEBUG mem T).
Proof.
  intros HT. unfold get.
  apply strong_after_check; [apply pure_check_tag|]. intros t.
  apply strong_after_check; [apply pure_check_assert|]. intros ?.
  unfold get_impl_is_scalar.
  apply strong_after_check; [apply pure_check_has_wire_type|]. intros w.
  apply strong_after_check; [apply pure_check_assert|]. intros ?.
  apply strong_get_scalar. exact HT.
Qed.

End ReaderFacts.

Section ReaderProtocol.

Import Reader.
Local Open Scope reader_scope.

(** C4.  [next()] at the end of the data returns [false] and changes
    nothing.  Otherwise it decodes the field header; the tag becomes
    [header >> 3] (as a [pbf_tag_type]) and the wire type [header & 7];
    it throws [unknown_pbf_wire_type_exception] exactly when that wire type
    is 3, 4, 6 or 7, and returns [true], with the field as the current one,
    when it is 0, 1, 2 or 5.  A header that cannot be decoded makes [next()]
    throw what the decoder throws, the reader being as before.  In a debug
    build the tag has to pass the range assertion: a tag that is out of
    range stops [next()] there, the cursor past the header and the tag set,
    before the wire type is stored and looked at. *)
Theorem next_sets_field_or_throws
    (NDEBUG : bool) (mem : list byte) (r : pbf_reader) :
  (m_data r = m_end r -> next NDEBUG mem r = (Ret false, r))
  /\ (m_data r <> m_end r ->
      (forall e, decode_varint mem (m_data r) (m_end r) = Throw e ->
                 next NDEBUG mem r = (Throw e, r))
      /\ forall header p,
          decode_varint mem (m_data r) (m_end r) = Ret (header, p) ->
          let r' := Build_pbf_reader p (m_end r) (Z.land header 7)
                      (pbf_tag_type (Z.shiftr header 3)) in
          (header < 2 ^ 35 -> m_tag r' = Z.shiftr header 3)
          /\ (NDEBUG || tag_in_range (m_tag r') = false ->
              next NDEBUG mem r
              = (Abort, Build_pbf_reader p (m_end r) (m_wire_type r) (m_tag r')))
          /\ (NDEBUG || tag_in_range (m_tag r') = true ->
              (next NDEBUG mem r = (Throw unknown_pbf_wire_type_exception, r')
               <-> In (m_wire_type r') [3; 4; 6; 7])
              /\ (In (m_wire_type r') [0; 1; 2; 5] ->
                  next NDEBUG mem r = (Ret true, r')))).
Proof.
  split.
  - intros Heq. unfold next, bind, this.
    rewrite Heq, Z.eqb_refl. reflexivity.
  - intros Hne. split.
    + intros e He. unfold next, bind at 1, this at 1.
      destruct (Z.eqb_spec (m_data r) (m_end r)) as [|_]; [contradiction|].
      unfold bind at 1. rewrite (decode_varint_m_data_Throw mem r e He). reflexivity.
    + intros header p Hdec r'. cbn [m_tag m_wire_type r'] in *.
      split; [|split; [|intros Ht; split]].
      * intros Hh. unfold pbf_tag_type. apply uint32_t_small.
        assert (0 <= header) as Hpos.
        { unfold decode_varint in Hdec.
          destruct (decode_varint_impl max_varint_length
                      (bytes_between mem (m_data r) (m_end r))) as [[v n]|e|];
            try discriminate.
          injection Hdec as <- _. apply uint64_t_range. }
        rewrite Z.shiftr_div_pow2 by lia. split.
        -- apply Z.div_pos; lia.
        -- apply Z.div_lt_upper_bound; lia.
      * intros Ht. unfold next, bind at 1, this at 1.
        destruct (Z.eqb_spec (m_data r) (m_end r)) as [|_]; [contradiction|].
        unfold bind at 1. rewrite (decode_varint_m_data_Ret mem r header p Hdec).
        unfold bind, set_m_tag, this, protozero_assert.
        cbn [m_data m_end m_wire_type m_tag]. rewrite Ht. reflexivity.
      * rewrite (next_decoded NDEBUG mem r header p Hne Hdec Ht). fold r'.
        cbn [In].
        destruct (land_7_cases header) as [H|[H|[H|[H|[H|[H|[H|H]]]]]]];
          rewrite H; cbn [Z.eqb orb Pos.eqb];
          (split; [intros Hx; first [discriminate Hx | lia] | intros Hx; first [reflexivity | lia]]).
      * rewrite (next_decoded NDEBUG mem r header p Hne Hdec Ht). fold r'.
        cbn [In].
        destruct (land_7_cases header) as [H|[H|[H|[H|[H|[H|[H|H]]]]]]];
          rewrite H; cbn [Z.eqb orb Pos.eqb]; intros Hx; first [reflexivity | lia].
Qed.

Lemma land_128_low (a : Z) : 0 <= a < 128 -> Z.land a 128 = 0.
Proof.
  intros Ha. rewrite <- (Z.mod_small a (2 ^ 7)) by lia.
  rewrite <- Z.land_ones, <- Z.land_assoc by lia.
  change (Z.land (Z.ones 7) 128) with 0. apply Z.land_0_r.
Qed.

(** The assertion of [get_scalar(bool_tag)], that the byte [m_data] points
    to has bit [0x80] clear, tests that the byte is below 128. *)
Lemma continuation_bit_test (x : Z) :
  0 <= x < 256 -> (Z.land x 128 =? 0) = (x <? 128).
Proof.
  intros Hx. destruct (Z.ltb_spec x 128) as [Hlt|Hge].
  - apply Z.eqb_eq. apply land_128_low. lia.
  - apply Z.eqb_neq.
    replace x with (x - 128 + 128) by lia.
    rewrite Z.add_nocarry_lor by (apply land_128_low; lia).
    rewrite Z.land_lor_distr_l, land_128_low by lia.
    change (Z.land 128 128) with 128. rewrite Z.lor_0_l. lia.
Qed.

(** C3 (as the code has it).  [get_bool] on a varint field with at least
    one payload byte reads exactly one byte and returns [false] exactly when
    that byte is zero.  Only one-byte varints are supported: when the byte
    has its continuation bit set, a debug build fails the assertion, and a
    release build returns [true] and leaves the rest of the varint
    unread. *)
Theorem get_bool_reads_one_byte
    (NDEBUG : bool) (mem : list byte) (r : pbf_reader) (b : byte) :
  m_tag r <> 0 ->
  m_wire_type r = pbf_wire_type.varint ->
  0 <= m_data r < m_end r ->
  mem !! Z.to_nat (m_data r) = Some b ->
  (NDEBUG = true \/ byte.unsigned b < 128 ->
   get_bool NDEBUG mem r
   = (Ret (negb (byte.unsigned b =? 0)),
      Build_pbf_reader (m_data r + 1) (m_end r) (m_wire_type r)
        (if NDEBUG then m_tag r else 0)))
  /\ (NDEBUG = false -> 128 <= byte.unsigned b ->
      get_bool NDEBUG mem r = (Abort, r)).
Proof.
  intros Htag Hwt Hrange Hb.
  pose proof (byte.unsigned_range b) as Hbr. change (2 ^ 8) with 256 in Hbr.
  assert (forall r0 : pbf_reader,
            m_data r0 = m_data r + 1 ->
            (r' <- this ;;
             b0 <- deref mem (m_data r' - 1) ;;
             ret (convert t_int32 (if byte.unsigned b0 =? 0 then 0 else 1))) r0
            = (Ret (if byte.unsigned b =? 0 then 0 else 1), r0)) as Hread.
  { intros r0 Hr0. rewrite bind_assoc_this.
    erewrite rbind_Ret
      by (apply deref_ok;
          [lia | rewrite Hr0; replace (m_data r + 1 - 1) with (m_data r) by lia; exact Hb]).
    unfold ret. destruct (byte.unsigned b =? 0); reflexivity. }
  assert (get NDEBUG mem _bool r = get_scalar_bool NDEBUG mem t_int32 r) as Hget
    by (apply (get_current_field NDEBUG mem _bool r Htag Hwt)).
  unfold get_bool. split.
  - intros Hok.
    erewrite rbind_Ret.
    2:{ rewrite Hget. unfold get_scalar_bool. rewrite bind_assoc_this.
        erewrite rbind_Ret.
        2:{ destruct NDEBUG; [reflexivity|].
            erewrite rbind_Ret by (apply deref_ok; [lia | exact Hb]).
            unfold protozero_assert. rewrite continuation_bit_test by exact Hbr.
            destruct Hok as [Hc|Hc]; [discriminate|].
            destruct (Z.ltb_spec (byte.unsigned b) 128); [reflexivity | lia]. }
        erewrite rbind_Ret by (apply skip_bytes_ok; lia).
        apply Hread. reflexivity. }
    unfold ret. destruct (Z.eqb_spec (byte.unsigned b) 0); reflexivity.
  - intros -> Hge.
    apply rbind_Abort. rewrite Hget. unfold get_scalar_bool. rewrite bind_assoc_this.
    apply rbind_Abort.
    erewrite rbind_Ret by (apply deref_ok; [lia | exact Hb]).
    unfold protozero_assert. rewrite continuation_bit_test by exact Hbr.
    destruct (Z.ltb_spec (byte.unsigned b) 128); [lia | reflexivity].
Qed.

Lemma get_bool_reads_one_byte_witness :
  let mem := [byte.of_Z 8; byte.of_Z 1] in
  let r := Build_pbf_reader 1 2 0 1 in
  (false = true \/ byte.unsigned (byte.of_Z 1) < 128 ->
   get_bool false mem r
   = (Ret (negb (byte.unsigned (byte.of_Z 1) =? 0)),
      Build_pbf_reader (m_data r + 1) (m_end r) (m_wire_type r)
        (if false then m_tag r else 0)))
  /\ (false = false -> 128 <= byte.unsigned (byte.of_Z 1) ->
      get_bool false mem r = (Abort, r)).
Proof.
  apply (get_bool_reads_one_byte false [byte.of_Z 8; byte.of_Z 1]
           (Build_pbf_reader 1 2 0 1) (byte.of_Z 1));
    [discriminate | reflexivity | cbn; lia | reflexivity].
Defined.

(** C3, counterexample to the wording of the specification.  The payload
    [80 00] is a two-byte varint of value zero: a release build reads its
    first byte only and returns [true], the second byte being left unread,
    and a debug build fails the assertion. *)
Lemma get_bool_multibyte_not_decoded :
  let mem := [byte.of_Z 8; byte.of_Z 128; byte.of_Z 0] in
  let r := Build_pbf_reader 1 3 pbf_wire_type.varint 1 in
  (forall NDEBUG, next NDEBUG mem (new 0 3) = (Ret true, r))
  /\ decode_varint mem (m_data r) (m_end r) = Ret (0, 3)
  /\ get_bool true mem r = (Ret true, Build_pbf_reader 2 3 pbf_wire_type.varint 1)
  /\ fst (get_bool true mem r) <> Ret (negb (0 =? 0))
  /\ get_bool false mem r = (Abort, r).
Proof.
  split; [intros []; reflexivity|].
  split; [reflexivity|]. split; [reflexivity|].
  split; [discriminate | reflexivity].
Qed.

(** C1 (what the code does).  When the length of a length-delimited field
    decodes but the payload it announces goes past the end of the data,
    [get_view] and [get_data] throw [end_of_buffer_exception] with the
    cursor already moved past the length varint: the reader is not what it
    was before the call. *)
Theorem get_view_failure_moves_cursor
    (NDEBUG : bool) (mem : list byte) (r : pbf_reader) (v p : Z) :
  m_tag r <> 0 ->
  m_wire_type r = pbf_wire_type.length_delimited ->
  decode_varint mem (m_data r) (m_end r) = Ret (v, p) ->
  p + pbf_length_type v > m_end r ->
  let r' := Build_pbf_reader p (m_end r) (m_wire_type r) (m_tag r) in
  get_view NDEBUG mem r = (Throw end_of_buffer_exception, r')
  /\ get_data NDEBUG mem r = (Throw end_of_buffer_exception, r')
  /\ m_data r < m_data r'
  /\ r' <> r.
Proof.
  intros Htag Hwt Hdec Hgt r'.
  pose proof (decode_varint_advances mem _ _ _ _ Hdec) as Hadv.
  assert (get NDEBUG mem _string r = (Throw end_of_buffer_exception, r')) as Hget.
  { rewrite (get_current_field NDEBUG mem _string r Htag Hwt).
    unfold get_scalar. cbn [tag_of]. unfold get_scalar_length_delimited.
    apply rbind_Throw. unfold get_len_and_skip.
    erewrite rbind_Ret.
    2:{ unfold get_length.
        erewrite rbind_Ret by (apply decode_varint_m_data_Ret; exact Hdec).
        reflexivity. }
    apply rbind_Throw. apply skip_bytes_Throw. cbn [m_data m_end]. exact Hgt. }
  split; [exact Hget|]. split; [exact Hget|].
  cbn [m_data r']. split; [lia|].
  intros Heq. apply (f_equal m_data) in Heq. cbn [m_data r'] in Heq. lia.
Qed.

Lemma get_view_failure_moves_cursor_witness :
  let mem := [byte.of_Z 10; byte.of_Z 5; byte.of_Z 97] in
  let r := Build_pbf_reader 1 3 pbf_wire_type.length_delimited 1 in
  let r' := Build_pbf_reader 2 3 pbf_wire_type.length_delimited 1 in
  next false mem (new 0 3) = (Ret true, r)
  /\ get_view false mem r = (Throw end_of_buffer_exception, r')
  /\ get_data false mem r = (Throw end_of_buffer_exception, r')
  /\ m_data r < m_data r'
  /\ r' <> r.
Proof.
  split; [reflexivity|].
  apply (get_view_failure_moves_cursor false
           [byte.of_Z 10; byte.of_Z 5; byte.of_Z 97]
           (Build_pbf_reader 1 3 pbf_wire_type.length_delimited 1) 5 2);
    [discriminate | reflexivity | reflexivity | reflexivity].
Defined.

(** So [get_view] does not keep the guarantee the scalar reads keep. *)
Lemma get_view_not_strong (NDEBUG : bool) :
  exists mem, ~ strong (get_view NDEBUG mem).
Proof.
  exists [byte.of_Z 10; byte.of_Z 5; byte.of_Z 97]. intros Hs.
  specialize (Hs (Build_pbf_reader 1 3 pbf_wire_type.length_delimited 1)
                end_of_buffer_exception
                (Build_pbf_reader 2 3 pbf_wire_type.length_delimited 1)).
  assert (Build_pbf_reader 2 3 pbf_wire_type.length_delimited 1
          = Build_pbf_reader 1 3 pbf_wire_type.length_delimited 1) as Heq
    by (apply Hs; destruct NDEBUG; reflexivity).
  discriminate Heq.
Qed.

Lemma next_sets_field_or_throws_witness :
  next false [byte.of_Z 11] (new 0 1)
  = (Throw unknown_pbf_wire_type_exception, Build_pbf_reader 1 1 3 1)
  /\ next false [byte.of_Z 13] (new 0 1) = (Ret true, Build_pbf_reader 1 1 5 1)
  /\ next false [] (new 0 0) = (Ret false, new 0 0).
Proof.
  split; [|split].
  - destruct (next_sets_field_or_throws false [byte.of_Z 11] (new 0 1)) as [_ H].
    destruct (H ltac:(discriminate)) as [_ H'].
    destruct (H' 11 1 eq_refl) as (_ & _ & H'').
    destruct (H'' eq_refl) as (Hthrow & _).
    apply Hthrow. cbn. tauto.
  - destruct (next_sets_field_or_throws false [byte.of_Z 13] (new 0 1)) as [_ H].
    destruct (H ltac:(discriminate)) as [_ H'].
    destruct (H' 13 1 eq_refl) as (_ & _ & H'').
    destruct (H'' eq_refl) as (_ & Hret).
    apply Hret. cbn. tauto.
  - destruct (next_sets_field_or_throws false [] (new 0 0)) as [H _].
    apply H. reflexivity.
Defined.

(** Where the unqualified statement fails.  In a debug build the header
    [03] (tag 0, wire type 3) does not make [next()] throw, and the header
    [00] (tag 0, wire type 0) does not make it return [true]: the tag
    assertion fails first, and the wire type is never stored.  In either
    build a header of 2^35 or more does not give the tag [header >> 3]:
    the tag is cut to the 32 bits of [pbf_tag_type]. *)
Lemma next_tag_assertion_comes_first :
  decode_varint [byte.of_Z 3] 0 1 = Ret (3, 1)
  /\ Z.land 3 7 = 3
  /\ next false [byte.of_Z 3] (new 0 1)
     = (Abort, Build_pbf_reader 1 1 pbf_wire_type.unknown 0)
  /\ fst (next false [byte.of_Z 3] (new 0 1)) <> Throw unknown_pbf_wire_type_exception
  /\ decode_varint [byte.of_Z 0] 0 1 = Ret (0, 1)
  /\ Z.land 0 7 = 0
  /\ next false [byte.of_Z 0] (new 0 1)
     = (Abort, Build_pbf_reader 1 1 pbf_wire_type.unknown 0)
  /\ fst (next false [byte.of_Z 0] (new 0 1)) <> Ret true
  /\ decode_varint (write_varint (2 ^ 35 + 8)) 0 6 = Ret (2 ^ 35 + 8, 6)
  /\ next true (write_varint (2 ^ 35 + 8)) (new 0 6)
     = (Ret true, Build_pbf_reader 6 6 pbf_wire_type.varint 1)
  /\ Z.shiftr (2 ^ 35 + 8) 3 <> 1.
Proof.
  repeat split; try reflexivity; try discriminate.
Qed.

End ReaderProtocol.

(* ===================================================================== *)
(** * Writer to reader: the zigzag path *)
(* ===================================================================== *)

Section ZigZagPath.

(** Over the integers, the encoding is [(n << 1) ^ (n >> 63)] with an
    arithmetic right shift, read as a [uint64_t]. *)
Lemma encode_zigzag64_formula (i : Z) :
  - 2 ^ 63 <= i < 2 ^ 63 ->
  encode_zigzag64 i = uint64_t (Z.lxor (Z.shiftl i 1) (Z.shiftr i 63)).
Proof.
  intros Hi. rewrite encode_zigzag64_closed by exact Hi.
  rewrite Z.shiftl_mul_pow2, Z.shiftr_div_pow2 by lia.
  destruct (Z.ltb_spec i 0).
  - replace (i / 2 ^ 63) with (-1) by (apply Z.div_unique with (i + 2 ^ 63); lia).
    rewrite Z.lxor_m1_r. unfold Z.lnot, uint64_t. rewrite Z.mod_small; lia.
  - rewrite (Z.div_small i) by lia. rewrite Z.lxor_0_r.
    unfold uint64_t. rewrite Z.mod_small; lia.
Qed.


Lemma encode_zigzag64_range (i : Z) :
  - 2 ^ 63 <= i < 2 ^ 63 -> 0 <= encode_zigzag64 i < 2 ^ 64.
Proof.
  intros Hi. rewrite encode_zigzag64_closed by assumption.
  destruct (Z.ltb_spec i 0); lia.
Qed.

Lemma decode_zigzag64_range (u : Z) :
  0 <= u < 2 ^ 64 -> - 2 ^ 63 <= decode_zigzag64 u < 2 ^ 63.
Proof. intros _. unfold decode_zigzag64. apply int64_t_range. Qed.

Lemma header_fields (tag type : Z) :
  tag_in_range tag = true -> 0 <= type < 8 ->
  0 <= field_header tag type < 2 ^ 64
  /\ pbf_tag_type (Z.shiftr (field_header tag type) 3) = tag
  /\ Z.land (field_header tag type) 7 = type.
Proof.
  intros Ht Hty. destruct (field_header_in_range tag type Ht Hty) as [_ ->].
  assert (0 < tag < 2 ^ 29) as Hr.
  { unfold tag_in_range in Ht. change (Z.shiftl 1 29 - 1) with 536870911 in Ht. lia. }
  split; [lia|]. split.
  - rewrite Z.shiftr_div_pow2 by lia. change (2 ^ 3) with 8.
    replace ((8 * tag + type) / 8) with tag by (apply Z.div_unique with type; lia).
    apply uint32_t_small. lia.
  - change 7 with (Z.ones 3). rewrite Z.land_ones by lia. change (2 ^ 3) with 8.
    symmetry. apply Z.mod_unique with tag; lia.
Qed.

(** [next()] on a field header the writer wrote. *)
Lemma next_reads_written_header (NDEBUG : bool) (tag type : Z) (rest : list byte) :
  tag_in_range tag = true -> In type [0; 1; 2; 5] ->
  let header := write_varint (field_header tag type) in
  let mem := header ++ rest in
  Reader.next NDEBUG mem (Reader.new 0 (Z.of_nat (List.length mem)))
  = (Ret true,
     Reader.Build_pbf_reader (Z.of_nat (List.length header))
       (Z.of_nat (List.length mem)) type tag).
Proof.
  intros Ht Hty header mem.
  assert (0 <= type < 8) as Hty' by (cbn [In] in Hty; lia).
  destruct (header_fields tag type Ht Hty') as (Hr & Htag & Hwt).
  pose proof (write_varint_length (field_header tag type)) as Hlen. fold header in Hlen.
  assert (decode_varint mem 0 (0 + Z.of_nat (List.length mem))
          = Ret (field_header tag type, Z.of_nat (List.length header))) as Hdec.
  { rewrite (decode_varint_write_varint mem 0 _ (field_header tag type) rest).
    - rewrite uint64_t_small by exact Hr. reflexivity.
    - apply (bytes_between_prefix [] _ rest); [reflexivity|]. reflexivity. }
  unfold Reader.new.
  assert (0 <> 0 + Z.of_nat (List.length mem)) as Hne
    by (unfold mem; rewrite length_app; lia).
  rewrite (next_decoded NDEBUG mem
             (Reader.Build_pbf_reader 0 (0 + Z.of_nat (List.length mem))
                pbf_wire_type.unknown 0) _ _ Hne Hdec).
  - rewrite Htag, Hwt. cbn [Reader.m_end].
    replace ((type =? 0) || (type =? 1) || (type =? 2) || (type =? 5)) with true.
    + rewrite Z.add_0_l. reflexivity.
    + cbn [In] in Hty. destruct Hty as [<-|[<-|[<-|[<-|[]]]]]; reflexivity.
  - rewrite Htag, Ht. apply orb_true_r.
Qed.

(** The zigzag field the writer appends is read back by the reader. *)
Lemma svarint_path (NDEBUG : bool) (T : scalar_type) (tag i : Z) :
  tag_of T = svarint_tag ->
  tag_in_range tag = true ->
  - 2 ^ 63 <= i < 2 ^ 63 ->
  convert (type_of T) i = i ->
  let mem := write_varint (field_header tag pbf_wire_type.varint)
               ++ write_varint (encode_zigzag64 i) in
  forall (get_T : Reader.M Z),
    (forall r, Reader.m_tag r <> 0 -> Reader.m_wire_type r = pbf_wire_type.varint ->
               get_T r = Reader.get_scalar_svarint mem (type_of T) r) ->
    Reader.bind (Reader.next NDEBUG mem) (fun _ => get_T) (Reader.new 0 (Z.of_nat (List.length mem)))
    = (Ret i,
       Reader.Build_pbf_reader (Z.of_nat (List.length mem)) (Z.of_nat (List.length mem))
         pbf_wire_type.varint tag).
Proof.
  intros HT Ht Hi Hconv mem get_T Hget.
  pose proof (encode_zigzag64_range i Hi) as Henc.
  rewrite (rbind_Ret _ _ _ _ _
             (next_reads_written_header NDEBUG tag pbf_wire_type.varint
                (write_varint (encode_zigzag64 i)) Ht ltac:(cbn; tauto))).
  fold mem.
  rewrite Hget.
  - unfold Reader.get_scalar_svarint.
    erewrite rbind_Ret.
    2:{ apply (decode_varint_m_data_Ret mem). cbn [Reader.m_data Reader.m_end].
        apply (decode_varint_write_varint mem _ _ (encode_zigzag64 i) []).
        rewrite app_nil_r. unfold mem.
        rewrite <- (app_nil_r (write_varint (encode_zigzag64 i))) at 1 2.
        apply bytes_between_app; [reflexivity|].
        rewrite !length_app. cbn [List.length]. lia. }
    unfold Reader.ret. rewrite uint64_t_small by exact Henc.
    rewrite decode_encode_zigzag64 by exact Hi. rewrite Hconv.
    cbn [Reader.m_end Reader.m_wire_type Reader.m_tag]. f_equal. f_equal.
    unfold mem. rewrite length_app. lia.
  - cbn [Reader.m_tag]. unfold tag_in_range in Ht. lia.
  - reflexivity.
Qed.

Lemma add_sint64_root (NDEBUG : bool) (tag i : Z) :
  tag_in_range tag = true -> - 2 ^ 63 <= i < 2 ^ 63 ->
  Writer.add_sint64 NDEBUG 0 tag i root_store
  = (Ret tt,
     Writer.Build_store
       (write_varint (field_header tag pbf_wire_type.varint)
          ++ write_varint (encode_zigzag64 i))
       (Writer.objects root_store)).
Proof.
  intros Ht Hi.
  assert (ready root_store 0) as Hready.
  { exists (Writer.Build_pbf_writer true None 0 0). repeat split. }
  unfold Writer.add_sint64. rewrite add_ok.
  - unfold encode_value, tag_of, type_of, convert, wire_type_of.
    rewrite !(int64_t_small i) by exact Hi.
    rewrite uint64_t_small by (apply encode_zigzag64_range; exact Hi).
    reflexivity.
  - exact Hready.
  - rewrite Ht. apply orb_true_r.
  - apply orb_true_r.
Qed.

Lemma add_sint32_root (NDEBUG : bool) (tag i : Z) :
  tag_in_range tag = true -> - 2 ^ 31 <= i < 2 ^ 31 ->
  Writer.add_sint32 NDEBUG 0 tag i root_store
  = (Ret tt,
     Writer.Build_store
       (write_varint (field_header tag pbf_wire_type.varint)
          ++ write_varint (encode_zigzag64 i))
       (Writer.objects root_store)).
Proof.
  intros Ht Hi.
  assert (ready root_store 0) as Hready.
  { exists (Writer.Build_pbf_writer true None 0 0). repeat split. }
  unfold Writer.add_sint32. rewrite add_ok.
  - unfold encode_value, tag_of, type_of, convert, wire_type_of.
    rewrite !(int32_t_small i) by exact Hi.
    rewrite (int64_t_small i) by lia.
    rewrite uint64_t_small by (apply encode_zigzag64_range; lia).
    reflexivity.
  - exact Hready.
  - rewrite Ht. apply orb_true_r.
  - apply orb_true_r.
Qed.

(** C8.  [decode_zigzag64] undoes [encode_zigzag64] on every 64-bit signed
    integer, and the converse holds on every 64-bit unsigned integer, so
    the two are a bijection; and a [sint64] (a [sint32]) value that
    [add_sint64] ([add_sint32]) writes is the value [get_sint64]
    ([get_sint32]) returns after [next()], the reader then being at its
    end. *)
Theorem zigzag_round_trip (NDEBUG : bool) (i u tag : Z) :
  - 2 ^ 63 <= i < 2 ^ 63 ->
  0 <= u < 2 ^ 64 ->
  tag_in_range tag = true ->
  (0 <= encode_zigzag64 i < 2 ^ 64 /\ decode_zigzag64 (encode_zigzag64 i) = i)
  /\ encode_zigzag64 i = uint64_t (Z.lxor (Z.shiftl i 1) (Z.shiftr i 63))
  /\ (- 2 ^ 63 <= decode_zigzag64 u < 2 ^ 63
      /\ encode_zigzag64 (decode_zigzag64 u) = u)
  /\ (exists mem objs,
        Writer.add_sint64 NDEBUG 0 tag i root_store
        = (Ret tt, Writer.Build_store mem objs)
        /\ Reader.bind (Reader.next NDEBUG mem) (fun _ => Reader.get_sint64 NDEBUG mem)
             (Reader.new 0 (Z.of_nat (List.length mem)))
           = (Ret i,
              Reader.Build_pbf_reader (Z.of_nat (List.length mem))
                (Z.of_nat (List.length mem)) pbf_wire_type.varint tag))
  /\ (- 2 ^ 31 <= i < 2 ^ 31 ->
      exists mem objs,
        Writer.add_sint32 NDEBUG 0 tag i root_store
        = (Ret tt, Writer.Build_store mem objs)
        /\ Reader.bind (Reader.next NDEBUG mem) (fun _ => Reader.get_sint32 NDEBUG mem)
             (Reader.new 0 (Z.of_nat (List.length mem)))
           = (Ret i,
              Reader.Build_pbf_reader (Z.of_nat (List.length mem))
                (Z.of_nat (List.length mem)) pbf_wire_type.varint tag)).
Proof.
  intros Hi Hu Ht.
  split; [split; [apply encode_zigzag64_range; exact Hi
                 | apply decode_encode_zigzag64; exact Hi]|].
  split; [apply encode_zigzag64_formula; exact Hi|].
  split; [split; [apply decode_zigzag64_range; exact Hu
                 | apply encode_decode_zigzag64; exact Hu]|].
  split.
  - exists (write_varint (field_header tag pbf_wire_type.varint)
              ++ write_varint (encode_zigzag64 i)), (Writer.objects root_store).
    split; [apply add_sint64_root; assumption|].
    apply (svarint_path NDEBUG _sint64 tag i eq_refl Ht Hi).
    + apply int64_t_small. exact Hi.
    + intros r Htag Hwt.
      apply (get_current_field NDEBUG _ _sint64 r Htag Hwt).
  - intros Hi32.
    exists (write_varint (field_header tag pbf_wire_type.varint)
              ++ write_varint (encode_zigzag64 i)), (Writer.objects root_store).
    split; [apply add_sint32_root; assumption|].
    apply (svarint_path NDEBUG _sint32 tag i eq_refl Ht Hi).
    + apply int32_t_small. exact Hi32.
    + intros r Htag Hwt.
      apply (get_current_field NDEBUG _ _sint32 r Htag Hwt).
Qed.

Lemma zigzag_round_trip_witness :
  decode_zigzag64 (encode_zigzag64 (-17)) = -17
  /\ encode_zigzag64 (decode_zigzag64 33) = 33.
Proof.
  destruct (zigzag_round_trip false (-17) 33 7
              ltac:(lia) ltac:(lia) eq_refl) as ((_ & H1) & _ & (_ & H2) & _).
  split; [exact H1 | exact H2].
Defined.

End ZigZagPath.

(* ===================================================================== *)
(** * Further properties of the reader and the writer *)
(* ===================================================================== *)

Section CursorInvariant.

Import Reader.
Local Open Scope reader_scope.

Variable NDEBUG : bool.
Variable mem : list byte.

Lemma decode_varint_impl_consumed (fuel : nat) :
  forall (bs : list byte) (v n : Z),
    decode_varint_impl fuel bs = Ret (v, n) -> n <= Z.of_nat (List.length bs).
Proof.
  induction fuel as [|fuel IH]; intros bs v n H; cbn [decode_varint_impl] in H.
  - discriminate.
  - destruct bs as [|b rest]; [discriminate|].
    destruct (byte.unsigned b <? 128).
    + injection H as <- <-. cbn [List.length]. lia.
    + destruct (decode_varint_impl fuel rest) as [[v' n']|e|] eqn:E; try discriminate.
      injection H as <- <-. specialize (IH _ _ _ E). cbn [List.length]. lia.
Qed.

(** A successful decode ends inside the range it was given. *)
Lemma decode_varint_within (first last v p : Z) :
  decode_varint mem first last = Ret (v, p) -> first < p <= last.
Proof.
  intros H. pose proof (decode_varint_advances mem _ _ _ _ H) as Hadv.
  unfold decode_varint in H.
  destruct (decode_varint_impl max_varint_length (bytes_between mem first last))
    as [[v' n]|e|] eqn:E; try discriminate.
  injection H as <- <-.
  pose proof (decode_varint_impl_consumed _ _ _ _ E) as Hc.
  unfold bytes_between in Hc. rewrite length_take in Hc. lia.
Qed.

Lemma advances_bind {A B} (m : M A) (k : A -> M B) :
  advances m -> (forall a, advances (k a)) -> advances (bind m k).
Proof.
  intros Hm Hk r o r' H Hr. unfold bind in H.
  destruct (m r) as [[a|e|] r1] eqn:E.
  - destruct (Hm _ _ _ E Hr) as (He & Hd).
    destruct (Hk a _ _ _ H ltac:(lia)) as (He' & Hd'). lia.
  - injection H as <- <-. exact (Hm _ _ _ E Hr).
  - injection H as <- <-. exact (Hm _ _ _ E Hr).
Qed.

Lemma advances_ret {A} (a : A) : advances (ret a).
Proof. intros r o r' H Hr. injection H as <- <-. lia. Qed.

Lemma advances_throw {A} (e : exception) : advances (@throw A e).
Proof. intros r o r' H Hr. injection H as <- <-. lia. Qed.

Lemma advances_this : advances this.
Proof. intros r o r' H Hr. injection H as <- <-. lia. Qed.

Lemma advances_assert (ndebug c : bool) : advances (protozero_assert ndebug c).
Proof.
  intros r o r' H Hr. unfold protozero_assert in H.
  destruct (ndebug || c); injection H as <- <-; lia.
Qed.

Lemma advances_set_m_tag (t : Z) : advances (set_m_tag t).
Proof. intros r o r' H Hr. injection H as <- <-. cbn. lia. Qed.

Lemma advances_set_m_wire_type (w : Z) : advances (set_m_wire_type w).
Proof. intros r o r' H Hr. injection H as <- <-. cbn. lia. Qed.

Lemma advances_deref (p : Z) : advances (deref mem p).
Proof.
  intros r o r' H Hr. unfold deref in H.
  destruct (p <? 0); [injection H as <- <-; lia|].
  destruct (mem !! Z.to_nat p); injection H as <- <-; lia.
Qed.

Lemma advances_decode : advances (decode_varint_m_data mem).
Proof.
  intros r o r' H Hr. unfold decode_varint_m_data in H.
  destruct (decode_varint mem (m_data r) (m_end r)) as [[v p]|e|] eqn:E.
  - injection H as <- <-. cbn [m_data m_end].
    pose proof (decode_varint_within _ _ _ _ E). lia.
  - injection H as <- <-. lia.
  - injection H as <- <-. lia.
Qed.

Lemma advances_skip_bytes (len : Z) : 0 <= len -> advances (skip_bytes NDEBUG len).
Proof.
  intros Hlen r o r' H Hr. unfold skip_bytes, bind, this in H.
  destruct (Z.gtb_spec (m_data r + len) (m_end r)).
  - injection H as <- <-. lia.
  - unfold set_m_data, set_m_tag, ret in H.
    destruct NDEBUG; injection H as <- <-; cbn [m_data m_end]; lia.
Qed.

Lemma advances_get_length : advances (get_length mem).
Proof.
  unfold get_length. apply advances_bind; [apply advances_decode|].
  intros v. apply advances_ret.
Qed.

Lemma advances_bind_post {A B} (P : A -> Prop) (m : M A) (k : A -> M B) :
  advances m ->
  (forall r a r', m r = (Ret a, r') -> P a) ->
  (forall a, P a -> advances (k a)) ->
  advances (bind m k).
Proof.
  intros Hm HP Hk r o r' H Hr. unfold bind in H.
  destruct (m r) as [[a|e|] r1] eqn:E.
  - destruct (Hm _ _ _ E Hr) as (He & Hd).
    destruct (Hk a (HP _ _ _ E) _ _ _ H ltac:(lia)) as (He' & Hd'). lia.
  - injection H as <- <-. exact (Hm _ _ _ E Hr).
  - injection H as <- <-. exact (Hm _ _ _ E Hr).
Qed.

Lemma get_length_nonneg (r : pbf_reader) (len : Z) (r' : pbf_reader) :
  get_length mem r = (Ret len, r') -> 0 <= len.
Proof.
  unfold get_length, bind, ret. intros H.
  destruct (decode_varint_m_data mem r) as [[v|e|] r1]; try discriminate.
  injection H as <- _. apply uint32_t_range.
Qed.

Lemma advances_get_len_and_skip : advances (get_len_and_skip NDEBUG mem).
Proof.
  unfold get_len_and_skip.
  apply (advances_bind_post (fun len => 0 <= len));
    [apply advances_get_length | apply get_length_nonneg |].
  intros len Hlen. apply advances_bind; [apply advances_skip_bytes; exact Hlen|].
  intros ?. apply advances_ret.
Qed.

Lemma sizeof_nonneg (R : cpp_type) : 0 <= sizeof R.
Proof. destruct R; cbn; lia. Qed.

Lemma advances_get_scalar (T : scalar_type) : advances (get_scalar NDEBUG mem T).
Proof.
  unfold get_scalar. destruct T; cbn [tag_of type_of].
  all: first
    [ apply advances_bind; [apply advances_decode | intros ?; apply advances_ret]
    | apply advances_bind;
        [apply advances_skip_bytes; apply sizeof_nonneg
        | intros ?; apply advances_bind; [apply advances_this | intros ?; apply advances_ret]]
    | apply advances_bind;
        [apply advances_get_len_and_skip
        | intros ?; apply advances_bind; [apply advances_this | intros ?; apply advances_ret]]
    | idtac ].
  unfold get_scalar_bool.
  apply advances_bind; [apply advances_this|]. intros r0.
  apply advances_bind.
  - destruct NDEBUG; [apply advances_ret|].
    apply advances_bind; [apply advances_deref | intros ?; apply advances_assert].
  - intros ?. apply advances_bind; [apply advances_skip_bytes; lia|]. intros ?.
    apply advances_bind; [apply advances_this|]. intros ?.
    apply advances_bind; [apply advances_deref | intros ?; apply advances_ret].
Qed.

Lemma advances_get (T : scalar_type) : advances (get NDEBUG mem T).
Proof.
  unfold get, tag, get_impl_is_scalar, has_wire_type.
  repeat first
    [ apply advances_get_scalar
    | apply advances_this | apply advances_ret | apply advances_assert
    | apply advances_bind; [|intros ?] ].
Qed.

Lemma advances_get_packed : advances (get_packed NDEBUG mem).
Proof.
  unfold get_packed, tag, get_impl_is_packed.
  repeat first
    [ apply advances_get_len_and_skip
    | apply advances_this | apply advances_ret | apply advances_assert
    | apply advances_bind; [|intros ?] ].
Qed.

Lemma advances_next : advances (next NDEBUG mem).
Proof.
  unfold next.
  apply advances_bind; [apply advances_this|]. intros r0.
  destruct (m_data r0 =? m_end r0); [apply advances_ret|].
  apply advances_bind; [apply advances_decode|]. intros value.
  apply advances_bind; [apply advances_set_m_tag|]. intros ?.
  apply advances_bind; [apply advances_this|]. intros r1.
  apply advances_bind; [apply advances_assert|]. intros ?.
  apply advances_bind; [apply advances_set_m_wire_type|]. intros ?.
  apply advances_bind; [apply advances_this|]. intros r2.
  destruct ((m_wire_type r2 =? pbf_wire_type.varint)
            || (m_wire_type r2 =? pbf_wire_type.fixed64)
            || (m_wire_type r2 =? pbf_wire_type.length_delimited)
            || (m_wire_type r2 =? pbf_wire_type.fixed32));
    [apply advances_ret | apply advances_throw].
Qed.

Lemma advances_skip : advances (skip NDEBUG mem).
Proof.
  unfold skip, tag, wire_type.
  apply advances_bind; [apply advances_bind; [apply advances_this | intros ?; apply advances_ret]|].
  intros t. apply advances_bind; [apply advances_assert|]. intros ?.
  apply advances_bind; [apply advances_bind; [apply advances_this | intros ?; apply advances_ret]|].
  intros w.
  destruct (w =? pbf_wire_type.varint).
  { apply advances_bind; [apply (advances_get _uint32) | intros ?; apply advances_ret]. }
  destruct (w =? pbf_wire_type.fixed64); [apply advances_skip_bytes; lia|].
  destruct (w =? pbf_wire_type.length_delimited).
  { apply (advances_bind_post (fun len => 0 <= len));
      [apply advances_get_length | apply get_length_nonneg |].
    intros len Hlen. apply advances_skip_bytes. exact Hlen. }
  destruct (w =? pbf_wire_type.fixed32); [apply advances_skip_bytes; lia|].
  apply advances_assert.
Qed.

Lemma advances_next_tag_loop (fuel : nat) (t : Z) :
  advances (next_tag_loop NDEBUG mem fuel t).
Proof.
  induction fuel as [|fuel IH]; cbn [next_tag_loop]; [apply advances_ret|].
  apply advances_bind; [apply advances_next|]. intros more.
  destruct more; [|apply advances_ret].
  apply advances_bind; [apply advances_this|]. intros r0.
  destruct (m_tag r0 =? t); [apply advances_ret|].
  apply advances_bind; [apply advances_skip | intros ?; exact IH].
Qed.

Lemma advances_next_tag (t : Z) : advances (next_tag NDEBUG mem t).
Proof.
  unfold next_tag. apply advances_bind; [apply advances_this|]. intros r0.
  apply advances_next_tag_loop.
Qed.

Lemma advances_get_message : advances (get_message NDEBUG mem).
Proof.
  unfold get_message, get_data.
  apply advances_bind; [apply (advances_get _string) | intros ?; apply advances_ret].
Qed.

Lemma bind_inv {A B} (m : M A) (k : A -> M B) (r r' : pbf_reader) (o : outcome B) :
  bind m k r = (o, r') ->
  (exists a r1, m r = (Ret a, r1) /\ k a r1 = (o, r'))
  \/ (exists e, m r = (Throw e, r') /\ o = Throw e)
  \/ (m r = (Abort, r') /\ o = Abort).
Proof.
  unfold bind. intros H. destruct (m r) as [[a|e|] r1].
  - left. eauto.
  - right. left. injection H as <- <-. eauto.
  - right. right. injection H as <- <-. eauto.
Qed.

Lemma next_Ret_inv (r r' : pbf_reader) (b : bool) :
  next NDEBUG mem r = (Ret b, r') ->
  if b then m_data r < m_data r' <= m_end r' /\ m_end r' = m_end r
            /\ valid_wire_type (m_wire_type r')
  else r' = r /\ m_data r = m_end r.
Proof.
  unfold next, bind, this. intros H.
  destruct (Z.eqb_spec (m_data r) (m_end r)) as [Heq|Hne].
  - injection H as <- <-. split; [reflexivity | exact Heq].
  - unfold decode_varint_m_data in H.
    destruct (decode_varint mem (m_data r) (m_end r)) as [[v p]|e|] eqn:E;
      try discriminate.
    pose proof (decode_varint_within _ _ _ _ E) as Hw.
    unfold set_m_tag, set_m_wire_type, protozero_assert in H.
    cbn [m_data m_end m_wire_type m_tag] in H.
    destruct (NDEBUG || tag_in_range (pbf_tag_type (Z.shiftr v 3))); [|discriminate].
    cbn [m_data m_end m_wire_type m_tag] in H.
    unfold valid_wire_type.
    destruct (Z.eqb_spec (Z.land v 7) pbf_wire_type.varint) as [H0|_];
      [injection H as <- <-; cbn [m_data m_end m_wire_type]; split; [lia|]; split; [reflexivity|]; tauto|].
    destruct (Z.eqb_spec (Z.land v 7) pbf_wire_type.fixed64) as [H1|_];
      [injection H as <- <-; cbn [m_data m_end m_wire_type]; split; [lia|]; split; [reflexivity|]; tauto|].
    destruct (Z.eqb_spec (Z.land v 7) pbf_wire_type.length_delimited) as [H2|_];
      [injection H as <- <-; cbn [m_data m_end m_wire_type]; split; [lia|]; split; [reflexivity|]; tauto|].
    destruct (Z.eqb_spec (Z.land v 7) pbf_wire_type.fixed32) as [H5|_];
      [injection H as <- <-; cbn [m_data m_end m_wire_type]; split; [lia|]; split; [reflexivity|]; tauto|].
    discriminate.
Qed.

(** The loop of [next(tag)] ends within its bound, with a current field of
    the tag asked for or at the end of the data. *)
Lemma next_tag_loop_ends (t : Z) (fuel : nat) :
  forall (r r' : pbf_reader) (o : outcome (option bool)),
    Z.max 0 (m_end r - m_data r) < Z.of_nat fuel ->
    next_tag_loop NDEBUG mem fuel t r = (o, r') ->
    o <> Ret None
    /\ (o = Ret (Some true) -> m_tag r' = t /\ valid_wire_type (m_wire_type r'))
    /\ (o = Ret (Some false) -> m_data r' = m_end r').
Proof.
  induction fuel as [|fuel IH]; intros r r' o Hfuel H; [lia|].
  cbn [next_tag_loop] in H.
  destruct (bind_inv _ _ _ _ _ H) as [(more & r1 & Hnext & Hk)|[(e & _ & ->)|(_ & ->)]];
    [|repeat split; discriminate..].
  pose proof (next_Ret_inv _ _ _ Hnext) as Hinv.
  destruct more.
  - destruct Hinv as (Hd & He & Hw).
    rewrite bind_assoc_this in Hk.
    destruct (Z.eqb_spec (m_tag r1) t) as [Ht|Ht].
    + injection Hk as <- <-. split; [discriminate|]. split; [tauto | discriminate].
    + destruct (bind_inv _ _ _ _ _ Hk) as [([] & r2 & Hskip & Hloop)|[(e & _ & ->)|(_ & ->)]];
        [|repeat split; discriminate..].
      destruct (advances_skip _ _ _ Hskip ltac:(lia)) as (He2 & Hd2).
      apply (IH r2 r' o); [lia | exact Hloop].
  - destruct Hinv as (-> & Heq). injection Hk as <- <-.
    split; [discriminate|]. split; [discriminate | intros _; exact Heq].
Qed.

End CursorInvariant.

Section SkipAndGet.

Import Reader.
Local Open Scope reader_scope.

(** [skip()] is the typed read of the current field with its result
    dropped: it returns, throws or fails, and leaves the reader, as the read
    does. *)
Lemma skip_is_get_scalar_discarded (NDEBUG : bool) (mem : list byte) (T : scalar_type)
    (r : pbf_reader) :
  T <> _bool ->
  m_tag r <> 0 ->
  m_wire_type r = wire_type_of T ->
  skip NDEBUG mem r = bind (get_scalar NDEBUG mem T) (fun _ => ret tt) r.
Proof.
  intros HT Htag Hwt.
  unfold skip, tag, wire_type.
  erewrite rbind_Ret by reflexivity.
  erewrite rbind_Ret
    by (apply rassert_holds; destruct (Z.eqb_spec (m_tag r) 0);
        [contradiction | apply orb_true_r]).
  erewrite rbind_Ret by reflexivity.
  rewrite Hwt.
  destruct T; try contradiction;
    cbn [wire_type_of tag_of type_of Z.eqb Pos.eqb
         pbf_wire_type.varint pbf_wire_type.fixed64 pbf_wire_type.length_delimited
         pbf_wire_type.fixed32];
    unfold get_scalar; cbn [tag_of type_of].
  all: try (unfold get_uint32, bind at 1;
            rewrite (get_current_field NDEBUG mem _uint32 r Htag Hwt);
            unfold get_scalar; cbn [tag_of type_of];
            unfold get_scalar_varint, get_scalar_svarint, bind, ret;
            destruct (decode_varint_m_data mem r) as [[v|e|] r1]; reflexivity).
  all: try (unfold get_scalar_fixed, bind, this, ret; cbn [sizeof];
            match goal with
            | |- context [skip_bytes ?nd ?len ?r0] =>
                destruct (skip_bytes nd len r0) as [[[]|e'|] r2]; reflexivity
            end).
  all: unfold get_scalar_length_delimited, get_len_and_skip, bind, this, ret;
    destruct (get_length mem r) as [[len|e|] r1]; try reflexivity;
    destruct (skip_bytes NDEBUG len r1) as [[[]|e'|] r2]; reflexivity.
Qed.

(** The assertions of [get<T>()] leave the reader alone: when it returns or
    throws, [get_scalar] did. *)
Lemma get_inv (NDEBUG : bool) (mem : list byte) (T : scalar_type)
    (r r' : pbf_reader) (o : outcome (result_of (tag_of T))) :
  get NDEBUG mem T r = (o, r') ->
  o <> Abort ->
  get_scalar NDEBUG mem T r = (o, r').
Proof.
  unfold get, get_impl_is_scalar, tag, has_wire_type, protozero_assert.
  unfold bind at 1. unfold bind at 1. unfold this at 1, ret at 1.
  unfold bind at 1.
  destruct (NDEBUG || negb (m_tag r =? 0)); [|intros H; injection H as <- <-; contradiction].
  unfold bind at 1. unfold bind at 1. unfold this at 1, ret at 1.
  unfold bind at 1.
  destruct (NDEBUG || (m_wire_type r =? wire_type_of T));
    [|intros H; injection H as <- <-; contradiction].
  intros H _. exact H.
Qed.

Lemma skip_bytes_inv (NDEBUG : bool) (len : Z) (r r' : pbf_reader) (o : outcome unit) :
  skip_bytes NDEBUG len r = (o, r') ->
  (o = Ret tt /\ m_data r + len <= m_end r
   /\ r' = Build_pbf_reader (m_data r + len) (m_end r) (m_wire_type r)
             (if NDEBUG then m_tag r else 0))
  \/ (o = Throw end_of_buffer_exception /\ m_data r + len > m_end r /\ r' = r).
Proof.
  intros H. destruct (Z.gtb_spec (m_data r + len) (m_end r)) as [Hgt|Hle].
  - rewrite skip_bytes_Throw in H by lia. injection H as <- <-. right. repeat split. lia.
  - rewrite skip_bytes_ok in H by lia. injection H as <- <-. left. repeat split. lia.
Qed.

Lemma get_len_and_skip_inv (NDEBUG : bool) (mem : list byte) (r r' : pbf_reader)
    (len : Z) :
  get_len_and_skip NDEBUG mem r = (Ret len, r') ->
  exists v p,
    decode_varint mem (m_data r) (m_end r) = Ret (v, p)
    /\ len = pbf_length_type v
    /\ p + len <= m_end r
    /\ r' = Build_pbf_reader (p + len) (m_end r) (m_wire_type r)
              (if NDEBUG then m_tag r else 0).
Proof.
  unfold get_len_and_skip, get_length. intros H.
  destruct (bind_inv _ _ _ _ _ H) as [(len' & r1 & Hlen & Hk)|[(e & _ & Hc)|(_ & Hc)]];
    try discriminate.
  destruct (bind_inv _ _ _ _ _ Hlen) as [(v & r0 & Hdec & Hret)|[(e & _ & Hc)|(_ & Hc)]];
    try discriminate.
  injection Hret as <- <-.
  unfold decode_varint_m_data in Hdec.
  destruct (decode_varint mem (m_data r) (m_end r)) as [[v' p]|e|] eqn:E; try discriminate.
  injection Hdec as <- <-.
  destruct (bind_inv _ _ _ _ _ Hk) as [([] & r2 & Hskip & Hret)|[(e & _ & Hc)|(_ & Hc)]];
    try discriminate.
  injection Hret as <- <-.
  destruct (skip_bytes_inv _ _ _ _ _ Hskip) as [(_ & Hle & ->)|(Hc & _)]; [|discriminate].
  cbn [m_data m_end m_wire_type m_tag] in *.
  exists v', p. split; [reflexivity|]. split; [reflexivity|].
  split; [lia | reflexivity].
Qed.

End SkipAndGet.

Section ReadWritten.

Import Reader.
Local Open Scope reader_scope.

Variable NDEBUG : bool.
Variable mem : list byte.

Lemma bytes_between_length (first last : Z) :
  Z.of_nat (List.length (bytes_between mem first last)) <= Z.max 0 (last - first).
Proof. unfold bytes_between. rewrite length_take. lia. Qed.

(** What is left of a range once a prefix of it is read. *)
Lemma bytes_between_drop (first last : Z) (a b : list byte) :
  0 <= first ->
  bytes_between mem first last = a ++ b ->
  bytes_between mem (first + Z.of_nat (List.length a)) last = b.
Proof.
  intros Hf H. pose proof (bytes_between_length first last) as Hl.
  rewrite H, length_app in Hl. unfold bytes_between in *.
  replace (Z.to_nat (first + Z.of_nat (List.length a)))
    with (Z.to_nat first + List.length a)%nat by lia.
  rewrite <- drop_drop, take_drop_commute.
  replace (List.length a + Z.to_nat (last - (first + Z.of_nat (List.length a))))%nat
    with (Z.to_nat (last - first)) by lia.
  rewrite H. apply drop_app_length.
Qed.

Lemma bytes_between_take (first last : Z) (a b : list byte) :
  bytes_between mem first last = a ++ b ->
  bytes_between mem first (first + Z.of_nat (List.length a)) = a.
Proof.
  intros H. pose proof (bytes_between_length first last) as Hl.
  rewrite H, length_app in Hl. unfold bytes_between in *.
  replace (Z.to_nat (first + Z.of_nat (List.length a) - first)) with (List.length a) by lia.
  replace (take (List.length a) (drop (Z.to_nat first) mem))
    with (take (List.length a)
            (take (Z.to_nat (last - first)) (drop (Z.to_nat first) mem)))
    by (rewrite take_take; f_equal; lia).
  rewrite H. apply take_app_length.
Qed.

(** [next()] in front of a field header the writer wrote. *)
Lemma next_on_header (first last tag w w0 t0 : Z) (rest : list byte) :
  tag_in_range tag = true -> In w [0; 1; 2; 5] ->
  bytes_between mem first last = write_varint (field_header tag w) ++ rest ->
  next NDEBUG mem (Build_pbf_reader first last w0 t0)
  = (Ret true,
     Build_pbf_reader (first + Z.of_nat (List.length (write_varint (field_header tag w))))
       last w tag).
Proof.
  intros Ht Hw Hb.
  assert (0 <= w < 8) as Hw' by (cbn [In] in Hw; lia).
  destruct (header_fields tag w Ht Hw') as (Hr & Htag & Hwt).
  pose proof (write_varint_length (field_header tag w)) as Hlen.
  pose proof (bytes_between_length first last) as Hbl.
  rewrite Hb, length_app in Hbl.
  assert (decode_varint mem first last
          = Ret (field_header tag w,
                 first + Z.of_nat (List.length (write_varint (field_header tag w))))) as Hdec.
  { rewrite (decode_varint_write_varint mem first last _ rest Hb).
    rewrite uint64_t_small by exact Hr. reflexivity. }
  rewrite (next_decoded NDEBUG mem (Build_pbf_reader first last w0 t0) _ _
             ltac:(cbn [m_data m_end]; lia) Hdec).
  - rewrite Htag, Hwt. cbn [m_end].
    replace ((w =? 0) || (w =? 1) || (w =? 2) || (w =? 5)) with true; [reflexivity|].
    cbn [In] in Hw. destruct Hw as [<-|[<-|[<-|[<-|[]]]]]; reflexivity.
  - rewrite Htag, Ht. apply orb_true_r.
Qed.

(** A varint the writer wrote, read as a varint. *)
Lemma read_written_varint (r : pbf_reader) (x : Z) (rest : list byte) :
  bytes_between mem (m_data r) (m_end r) = write_varint x ++ rest ->
  decode_varint_m_data mem r
  = (Ret (uint64_t x),
     Build_pbf_reader (m_data r + Z.of_nat (List.length (write_varint x))) (m_end r)
       (m_wire_type r) (m_tag r)).
Proof.
  intros Hb. apply decode_varint_m_data_Ret.
  apply (decode_varint_write_varint mem _ _ x rest Hb).
Qed.

End ReadWritten.

Section FixedWidthBytes.

Lemma le_combine_eq (l : list byte) :
  Reader.le_combine l = LittleEndianList.le_combine l.
Proof. induction l as [|h t IH]; [reflexivity|]. cbn. rewrite IH. reflexivity. Qed.

Lemma le_split_eq (n : nat) : forall w, Writer.le_split n w = LittleEndianList.le_split n w.
Proof. induction n as [|n IH]; intros w; [reflexivity|]. cbn. rewrite IH. reflexivity. Qed.

Lemma le_combine_le_split (n : nat) (w : Z) :
  Reader.le_combine (Writer.le_split n w) = w mod 2 ^ (Z.of_nat n * 8).
Proof. rewrite le_combine_eq, le_split_eq. apply LittleEndianList.le_combine_split. Qed.

Lemma length_le_split (n : nat) (w : Z) : List.length (Writer.le_split n w) = n.
Proof. rewrite le_split_eq. apply LittleEndianList.length_le_split. Qed.

Lemma convert_idem (R : cpp_type) (x : Z) : convert R (convert R x) = convert R x.
Proof.
  destruct R; cbn [convert]; try reflexivity.
  - apply int32_t_small, int32_t_range.
  - apply uint32_t_small, uint32_t_range.
  - apply int64_t_small, int64_t_range.
  - apply uint64_t_small, uint64_t_range.
  - apply uint32_t_small, uint32_t_range.
  - apply uint64_t_small, uint64_t_range.
Qed.

Lemma mod_mod_pow2 (x a b : Z) : 0 <= a <= b -> (x mod 2 ^ b) mod 2 ^ a = x mod 2 ^ a.
Proof.
  intros H. apply Z.mod_mod_divide.
  exists (2 ^ (b - a)). rewrite <- Z.pow_add_r by lia. f_equal. lia.
Qed.

Lemma signed_mod_pow2 (x a b : Z) :
  0 < a <= b ->
  (x mod 2 ^ b + 2 ^ (a - 1)) mod 2 ^ a = (x + 2 ^ (a - 1)) mod 2 ^ a.
Proof.
  intros H. rewrite <- Zplus_mod_idemp_l, mod_mod_pow2 by lia.
  rewrite Zplus_mod_idemp_l. reflexivity.
Qed.

(** Converting to a numeric type after reducing modulo a power of two at
    least as wide as the type is converting at once. *)
Lemma convert_mod (R : cpp_type) (x b : Z) :
  R <> t_data_view -> 8 * sizeof R <= b ->
  convert R (x mod 2 ^ b) = convert R x.
Proof.
  intros HR Hb. destruct R; try contradiction; cbn [convert sizeof] in *;
    unfold int32_t, uint32_t, int64_t, uint64_t.
  - change (2 ^ 31) with (2 ^ (32 - 1)). rewrite signed_mod_pow2 by lia. reflexivity.
  - apply mod_mod_pow2. lia.
  - change (2 ^ 63) with (2 ^ (64 - 1)). rewrite signed_mod_pow2 by lia. reflexivity.
  - apply mod_mod_pow2. lia.
  - apply mod_mod_pow2. lia.
  - apply mod_mod_pow2. lia.
Qed.

End FixedWidthBytes.

Section ScalarReadBack.

Import Reader.
Local Open Scope reader_scope.

Variable NDEBUG : bool.
Variable mem : list byte.

Lemma get_scalar_varint_written (R : cpp_type) (x : Z) (rest : list byte)
    (r : pbf_reader) :
  R <> t_data_view ->
  bytes_between mem (m_data r) (m_end r)
  = write_varint (uint64_t (convert R x)) ++ rest ->
  get_scalar_varint mem R r
  = (Ret (convert R x),
     Build_pbf_reader
       (m_data r + Z.of_nat (List.length (write_varint (uint64_t (convert R x)))))
       (m_end r) (m_wire_type r) (m_tag r)).
Proof.
  intros HR Hb. unfold get_scalar_varint.
  rewrite (rbind_Ret _ _ _ _ _ (read_written_varint mem r _ rest Hb)).
  unfold ret. unfold uint64_t at 1 2.
  rewrite Z.mod_mod by lia. fold (uint64_t (convert R x)).
  unfold uint64_t at 1.
  rewrite convert_mod by (try exact HR; destruct R; cbn [sizeof]; try lia; congruence).
  rewrite convert_idem. reflexivity.
Qed.

Lemma get_scalar_fixed_written (R : cpp_type) (x : Z) (rest : list byte)
    (r : pbf_reader) :
  R <> t_data_view ->
  0 <= m_data r ->
  bytes_between mem (m_data r) (m_end r)
  = Writer.le_split (Z.to_nat (sizeof R)) (convert R x) ++ rest ->
  get_scalar_fixed NDEBUG mem R r
  = (Ret (convert R x),
     Build_pbf_reader (m_data r + sizeof R) (m_end r) (m_wire_type r)
       (if NDEBUG then m_tag r else 0)).
Proof.
  intros HR Hd Hb.
  assert (4 <= sizeof R) as Hs by (destruct R; cbn [sizeof]; lia).
  pose proof (bytes_between_length mem (m_data r) (m_end r)) as Hl.
  rewrite Hb, length_app, length_le_split in Hl.
  unfold get_scalar_fixed.
  rewrite (rbind_Ret _ _ _ _ _ (skip_bytes_ok NDEBUG (sizeof R) r ltac:(lia))).
  rewrite bind_assoc_this. unfold ret. cbn [m_data].
  replace (m_data r + sizeof R - sizeof R) with (m_data r) by lia.
  pose proof (bytes_between_take mem _ _ _ _ Hb) as Ht.
  rewrite length_le_split, Z2Nat.id in Ht by lia. rewrite Ht.
  rewrite le_combine_le_split.
  rewrite convert_mod by (try exact HR; lia). rewrite convert_idem. reflexivity.
Qed.

End ScalarReadBack.

Section FieldRoundTrips.

Lemma reads_back_intro {A} (NDEBUG : bool) (s : Writer.store) (this : nat)
    (T : scalar_type) (tag : Z) (value : Writer.carrier (tag_of T))
    (read : list byte -> Reader.M A) (v : A) (tag_after : Z) :
  ready s this ->
  tag_in_range tag = true ->
  NDEBUG || value_fits (tag_of T) value = true ->
  (forall (mem rest : list byte) (r : Reader.pbf_reader),
      Reader.m_data r
      = Z.of_nat (List.length (Writer.buffer s
                                 ++ write_varint (field_header tag (wire_type_of T)))) ->
      Reader.m_tag r = tag ->
      Reader.m_wire_type r = wire_type_of T ->
      bytes_between mem (Reader.m_data r) (Reader.m_end r)
      = encode_value (type_of T) (tag_of T) value ++ rest ->
      read mem r
      = (Ret v,
         Reader.Build_pbf_reader
           (Reader.m_data r
            + Z.of_nat (List.length (encode_value (type_of T) (tag_of T) value)))
           (Reader.m_end r) (wire_type_of T) tag_after)) ->
  reads_back NDEBUG s (Writer.add NDEBUG T this tag value) read v
    (wire_type_of T) tag_after.
Proof.
  intros Hready Ht Hfits Hread.
  exists (write_varint (field_header tag (wire_type_of T))
            ++ encode_value (type_of T) (tag_of T) value).
  split.
  - apply add_ok; [exact Hready | rewrite Ht; apply orb_true_r | exact Hfits].
  - intros rest w0 t0 mem.
    assert (In (wire_type_of T) [0; 1; 2; 5]) as Hw by (destruct T; cbn; tauto).
    assert (bytes_between mem (Z.of_nat (List.length (Writer.buffer s)))
              (Z.of_nat (List.length mem))
            = write_varint (field_header tag (wire_type_of T))
                ++ encode_value (type_of T) (tag_of T) value ++ rest) as Hb.
    { unfold mem. rewrite <- !app_assoc.
      apply (bytes_between_prefix (Writer.buffer s)); [reflexivity|].
      rewrite !length_app. lia. }
    rewrite (rbind_Ret _ _ _ _ _
               (next_on_header NDEBUG mem _ _ tag _ w0 t0 _ Ht Hw Hb)).
    rewrite (Hread mem rest).
    + cbn [Reader.m_data Reader.m_end]. f_equal. f_equal.
      rewrite !length_app. lia.
    + cbn [Reader.m_data]. rewrite length_app. lia.
    + reflexivity.
    + reflexivity.
    + cbn [Reader.m_data Reader.m_end].
      apply (bytes_between_drop mem _ _ _ _ (Nat2Z.is_nonneg _) Hb).
Qed.

Lemma tag_in_range_nonzero (tag : Z) : tag_in_range tag = true -> tag <> 0.
Proof. unfold tag_in_range. lia. Qed.

Lemma reads_back_varint (NDEBUG : bool) (s : Writer.store) (this : nat)
    (T : scalar_type) (tag x : Z) (read : list byte -> Reader.M Z) :
  ready s this -> tag_in_range tag = true ->
  type_of T <> t_data_view ->
  wire_type_of T = pbf_wire_type.varint ->
  forall (value : Writer.carrier (tag_of T)),
    encode_value (type_of T) (tag_of T) value
    = write_varint (uint64_t (convert (type_of T) x)) ->
    (forall mem r, Reader.m_tag r <> 0 -> Reader.m_wire_type r = wire_type_of T ->
                   read mem r = Reader.get_scalar_varint mem (type_of T) r) ->
    reads_back NDEBUG s (Writer.add NDEBUG T this tag value) read
      (convert (type_of T) x) pbf_wire_type.varint tag.
Proof.
  intros Hready Ht HR Hw value Henc Hread. rewrite <- Hw.
  apply reads_back_intro; try assumption.
  - destruct T; try discriminate Hw; apply orb_true_r.
  - intros mem rest r Hd Htag Hwt Hb.
    rewrite Hread by (try exact Hwt; rewrite Htag; apply tag_in_range_nonzero; exact Ht).
    rewrite Henc in *.
    rewrite (get_scalar_varint_written mem _ x rest r HR Hb).
    rewrite Hwt, Htag. reflexivity.
Qed.

(** X8.  The varint-coded integer fields round-trip, whatever precedes and
    follows them; an argument is read back as converted to the type of the
    field. *)
Theorem varint_fields_round_trip
    (NDEBUG : bool) (s : Writer.store) (this : nat) (tag v : Z) :
  ready s this ->
  tag_in_range tag = true ->
  reads_back NDEBUG s (Writer.add_enum NDEBUG this tag v) (Reader.get_enum NDEBUG)
    (int32_t v) pbf_wire_type.varint tag
  /\ reads_back NDEBUG s (Writer.add_int32 NDEBUG this tag v) (Reader.get_int32 NDEBUG)
       (int32_t v) pbf_wire_type.varint tag
  /\ reads_back NDEBUG s (Writer.add_uint32 NDEBUG this tag v) (Reader.get_uint32 NDEBUG)
       (uint32_t v) pbf_wire_type.varint tag
  /\ reads_back NDEBUG s (Writer.add_int64 NDEBUG this tag v) (Reader.get_int64 NDEBUG)
       (int64_t v) pbf_wire_type.varint tag
  /\ reads_back NDEBUG s (Writer.add_uint64 NDEBUG this tag v) (Reader.get_uint64 NDEBUG)
       (uint64_t v) pbf_wire_type.varint tag.
Proof.
  intros Hready Ht.
  repeat split.
  - apply (reads_back_varint NDEBUG s this _enum tag v); try assumption;
      try discriminate; try reflexivity.
    + cbn [encode_value tag_of type_of convert]. rewrite int32_t_small by apply int32_t_range. reflexivity.
    + intros mem r Htag Hwt. apply (get_current_field NDEBUG mem _enum r Htag Hwt).
  - apply (reads_back_varint NDEBUG s this _int32 tag v); try assumption;
      try discriminate; try reflexivity.
    + cbn [encode_value tag_of type_of convert]. rewrite int32_t_small by apply int32_t_range. reflexivity.
    + intros mem r Htag Hwt. apply (get_current_field NDEBUG mem _int32 r Htag Hwt).
  - apply (reads_back_varint NDEBUG s this _uint32 tag v); try assumption;
      try discriminate; try reflexivity.
    + cbn [encode_value tag_of type_of convert]. rewrite uint32_t_small by apply uint32_t_range. reflexivity.
    + intros mem r Htag Hwt. apply (get_current_field NDEBUG mem _uint32 r Htag Hwt).
  - apply (reads_back_varint NDEBUG s this _int64 tag v); try assumption;
      try discriminate; try reflexivity.
    + cbn [encode_value tag_of type_of convert]. rewrite int64_t_small by apply int64_t_range. reflexivity.
    + intros mem r Htag Hwt. apply (get_current_field NDEBUG mem _int64 r Htag Hwt).
  - apply (reads_back_varint NDEBUG s this _uint64 tag v); try assumption;
      try discriminate; try reflexivity.
    + cbn [encode_value tag_of type_of convert]. rewrite uint64_t_small by apply uint64_t_range. reflexivity.
    + intros mem r Htag Hwt. apply (get_current_field NDEBUG mem _uint64 r Htag Hwt).
Qed.

Lemma varint_fields_round_trip_witness :
  reads_back false root_store (Writer.add_enum false 0 1 (-5)) (Reader.get_enum false)
    (int32_t (-5)) pbf_wire_type.varint 1
  /\ reads_back false root_store (Writer.add_int32 false 0 1 (-5)) (Reader.get_int32 false)
       (int32_t (-5)) pbf_wire_type.varint 1
  /\ reads_back false root_store (Writer.add_uint32 false 0 1 (-5)) (Reader.get_uint32 false)
       (uint32_t (-5)) pbf_wire_type.varint 1
  /\ reads_back false root_store (Writer.add_int64 false 0 1 (-5)) (Reader.get_int64 false)
       (int64_t (-5)) pbf_wire_type.varint 1
  /\ reads_back false root_store (Writer.add_uint64 false 0 1 (-5)) (Reader.get_uint64 false)
       (uint64_t (-5)) pbf_wire_type.varint 1.
Proof.
  apply (varint_fields_round_trip false root_store 0 1 (-5)).
  - exists (Writer.Build_pbf_writer true None 0 0). repeat split; reflexivity.
  - reflexivity.
Defined.

End FieldRoundTrips.

Section FixedRoundTrips.

Lemma reads_back_fixed (NDEBUG : bool) (s : Writer.store) (this : nat)
    (T : scalar_type) (tag x : Z) (read : list byte -> Reader.M Z) :
  ready s this -> tag_in_range tag = true ->
  type_of T <> t_data_view ->
  tag_of T = fixed_tag ->
  forall (value : Writer.carrier (tag_of T)),
    encode_value (type_of T) (tag_of T) value
    = Writer.le_split (Z.to_nat (sizeof (type_of T))) (convert (type_of T) x) ->
    (forall mem r, Reader.m_tag r <> 0 -> Reader.m_wire_type r = wire_type_of T ->
                   read mem r = Reader.get_scalar_fixed NDEBUG mem (type_of T) r) ->
    reads_back NDEBUG s (Writer.add NDEBUG T this tag value) read
      (convert (type_of T) x) (wire_type_of T) (if NDEBUG then tag else 0).
Proof.
  intros Hready Ht HR HG value Henc Hread.
  apply reads_back_intro; try assumption.
  - destruct T; try discriminate HG; apply orb_true_r.
  - intros mem rest r Hd Htag Hwt Hb.
    rewrite Hread by (try exact Hwt; rewrite Htag; apply tag_in_range_nonzero; exact Ht).
    rewrite Henc in *.
    assert (0 <= Reader.m_data r) as Hd0 by lia.
    rewrite (get_scalar_fixed_written NDEBUG mem _ x rest r HR Hd0 Hb).
    rewrite Hwt, Htag, length_le_split.
    assert (0 <= sizeof (type_of T)) by apply sizeof_nonneg.
    rewrite Z2Nat.id by assumption. reflexivity.
Qed.

(** X9.  The fixed-width fields round-trip; a [float] or [double] is read
    back with the bit pattern that was written. *)
Theorem fixed_fields_round_trip
    (NDEBUG : bool) (s : Writer.store) (this : nat) (tag v : Z) :
  ready s this ->
  tag_in_range tag = true ->
  let tag_after := if NDEBUG then tag else 0 in
  reads_back NDEBUG s (Writer.add_fixed32 NDEBUG this tag v) (Reader.get_fixed32 NDEBUG)
    (uint32_t v) pbf_wire_type.fixed32 tag_after
  /\ reads_back NDEBUG s (Writer.add_sfixed32 NDEBUG this tag v) (Reader.get_sfixed32 NDEBUG)
       (int32_t v) pbf_wire_type.fixed32 tag_after
  /\ reads_back NDEBUG s (Writer.add_fixed64 NDEBUG this tag v) (Reader.get_fixed64 NDEBUG)
       (uint64_t v) pbf_wire_type.fixed64 tag_after
  /\ reads_back NDEBUG s (Writer.add_sfixed64 NDEBUG this tag v) (Reader.get_sfixed64 NDEBUG)
       (int64_t v) pbf_wire_type.fixed64 tag_after
  /\ reads_back NDEBUG s (Writer.add_float NDEBUG this tag v) (Reader.get_float NDEBUG)
       (uint32_t v) pbf_wire_type.fixed32 tag_after
  /\ reads_back NDEBUG s (Writer.add_double NDEBUG this tag v) (Reader.get_double NDEBUG)
       (uint64_t v) pbf_wire_type.fixed64 tag_after.
Proof.
  intros Hready Ht tag_after. subst tag_after.
  repeat split.
  - apply (reads_back_fixed NDEBUG s this _fixed32 tag v); try assumption;
      try discriminate; try reflexivity.
    + cbn [encode_value tag_of type_of convert]. rewrite uint32_t_small by apply uint32_t_range. reflexivity.
    + intros mem r Htag Hwt. apply (get_current_field NDEBUG mem _fixed32 r Htag Hwt).
  - apply (reads_back_fixed NDEBUG s this _sfixed32 tag v); try assumption;
      try discriminate; try reflexivity.
    + cbn [encode_value tag_of type_of convert]. rewrite int32_t_small by apply int32_t_range. reflexivity.
    + intros mem r Htag Hwt. apply (get_current_field NDEBUG mem _sfixed32 r Htag Hwt).
  - apply (reads_back_fixed NDEBUG s this _fixed64 tag v); try assumption;
      try discriminate; try reflexivity.
    + cbn [encode_value tag_of type_of convert]. rewrite uint64_t_small by apply uint64_t_range. reflexivity.
    + intros mem r Htag Hwt. apply (get_current_field NDEBUG mem _fixed64 r Htag Hwt).
  - apply (reads_back_fixed NDEBUG s this _sfixed64 tag v); try assumption;
      try discriminate; try reflexivity.
    + cbn [encode_value tag_of type_of convert]. rewrite int64_t_small by apply int64_t_range. reflexivity.
    + intros mem r Htag Hwt. apply (get_current_field NDEBUG mem _sfixed64 r Htag Hwt).
  - apply (reads_back_fixed NDEBUG s this _float tag v); try assumption;
      try discriminate; try reflexivity.
    + cbn [encode_value tag_of type_of convert]. rewrite uint32_t_small by apply uint32_t_range. reflexivity.
    + intros mem r Htag Hwt. apply (get_current_field NDEBUG mem _float r Htag Hwt).
  - apply (reads_back_fixed NDEBUG s this _double tag v); try assumption;
      try discriminate; try reflexivity.
    + cbn [encode_value tag_of type_of convert]. rewrite uint64_t_small by apply uint64_t_range. reflexivity.
    + intros mem r Htag Hwt. apply (get_current_field NDEBUG mem _double r Htag Hwt).
Qed.

Lemma fixed_fields_round_trip_witness :
  reads_back false root_store (Writer.add_fixed32 false 0 1 12345678)
    (Reader.get_fixed32 false) (uint32_t 12345678) pbf_wire_type.fixed32 0
  /\ reads_back true root_store (Writer.add_sfixed64 true 0 1 (-3))
       (Reader.get_sfixed64 true) (int64_t (-3)) pbf_wire_type.fixed64 1.
Proof.
  split.
  - apply (proj1 (fixed_fields_round_trip false root_store 0 1 12345678
                    ltac:(exists (Writer.Build_pbf_writer true None 0 0);
                          repeat split; reflexivity)
                    eq_refl)).
  - apply (proj1 (proj2 (proj2 (proj2
             (fixed_fields_round_trip true root_store 0 1 (-3)
                ltac:(exists (Writer.Build_pbf_writer true None 0 0);
                      repeat split; reflexivity)
                eq_refl))))).
Defined.

End FixedRoundTrips.

Section BoolRoundTrip.

Lemma bytes_between_head (mem : list byte) (first last : Z) (b : byte) (rest : list byte) :
  0 <= first ->
  bytes_between mem first last = b :: rest ->
  mem !! Z.to_nat first = Some b /\ first + 1 <= last.
Proof.
  intros Hf H. unfold bytes_between in H.
  destruct (Z.to_nat (last - first)) as [|n] eqn:En; [discriminate H|].
  split; [|lia].
  destruct (drop (Z.to_nat first) mem) as [|x l] eqn:Ed; [discriminate H|].
  cbn in H. injection H as -> _.
  pose proof (lookup_drop mem (Z.to_nat first) 0) as Hl.
  rewrite Ed in Hl. cbn in Hl. rewrite Nat.add_0_r in Hl. symmetry. exact Hl.
Qed.

Lemma get_bool_written (NDEBUG : bool) (mem : list byte) (b : bool)
    (rest : list byte) (r : Reader.pbf_reader) :
  0 <= Reader.m_data r ->
  Reader.m_tag r <> 0 ->
  Reader.m_wire_type r = pbf_wire_type.varint ->
  bytes_between mem (Reader.m_data r) (Reader.m_end r)
  = byte.of_Z (if b then 1 else 0) :: rest ->
  Reader.get_bool NDEBUG mem r
  = (Ret b,
     Reader.Build_pbf_reader (Reader.m_data r + 1) (Reader.m_end r)
       (Reader.m_wire_type r) (if NDEBUG then Reader.m_tag r else 0)).
Proof.
  intros Hd Htag Hwt Hb.
  destruct (bytes_between_head mem _ _ _ _ Hd Hb) as [Hl Hle].
  assert (byte.unsigned (byte.of_Z (if b then 1 else 0)) = (if b then 1 else 0)) as Hu
      by (destruct b; reflexivity).
  unfold Reader.get_bool.
  assert (Reader.get NDEBUG mem _bool r
          = (Ret (if b then 1 else 0),
             Reader.Build_pbf_reader (Reader.m_data r + 1) (Reader.m_end r)
               (Reader.m_wire_type r) (if NDEBUG then Reader.m_tag r else 0))) as Hget;
    [|rewrite (rbind_Ret _ _ _ _ _ Hget); destruct b; reflexivity].
  rewrite (get_current_field NDEBUG mem _bool r Htag Hwt).
  unfold Reader.get_scalar. cbn [tag_of type_of]. unfold Reader.get_scalar_bool.
  rewrite !bind_assoc_this.
  assert ((if NDEBUG then Reader.ret tt
           else Reader.bind (Reader.deref mem (Reader.m_data r))
                  (fun b0 => Reader.protozero_assert NDEBUG
                               (Z.land (byte.unsigned b0) 128 =? 0))) r
          = (Ret tt, r)) as Hassert.
  { destruct NDEBUG; [reflexivity|].
    rewrite (rbind_Ret _ _ _ _ _ (deref_ok mem _ _ r Hd Hl)).
    apply rassert_holds. rewrite Hu. destruct b; reflexivity. }
  rewrite (rbind_Ret _ _ _ _ _ Hassert).
  rewrite (rbind_Ret _ _ _ _ _ (skip_bytes_ok NDEBUG 1 r Hle)).
  rewrite bind_assoc_this. cbn [Reader.m_data].
  replace (Reader.m_data r + 1 - 1) with (Reader.m_data r) by lia.
  rewrite (rbind_Ret _ _ _ _ _ (deref_ok mem _ _ _ Hd Hl)).
  rewrite Hu. destruct b; reflexivity.
Qed.

(** X10.  A bool field round-trips: [get_bool] returns the value that
    [add_bool] was given, whatever precedes and follows the field. *)
Theorem bool_field_round_trip
    (NDEBUG : bool) (s : Writer.store) (this : nat) (tag : Z) (b : bool) :
  ready s this ->
  tag_in_range tag = true ->
  reads_back NDEBUG s (Writer.add_bool NDEBUG this tag b) (Reader.get_bool NDEBUG)
    b pbf_wire_type.varint (if NDEBUG then tag else 0).
Proof.
  intros Hready Ht.
  apply (reads_back_intro NDEBUG s this _bool tag (if b then 1 else 0)
           (Reader.get_bool NDEBUG) b); try assumption.
  - apply orb_true_r.
  - intros mem rest r Hd Htag Hwt Hb.
    assert (0 <= Reader.m_data r) as Hd0 by lia.
    assert (Reader.m_tag r <> 0) as Hnz
        by (rewrite Htag; apply tag_in_range_nonzero; exact Ht).
    assert (encode_value (type_of _bool) (tag_of _bool) (if b then 1 else 0)
            = [byte.of_Z (if b then 1 else 0)]) as Hc
        by (destruct b; reflexivity).
    rewrite Hc in *. cbn [List.length app] in *.
    rewrite (get_bool_written NDEBUG mem b rest r Hd0 Hnz Hwt Hb).
    rewrite Hwt, Htag. reflexivity.
Qed.

Lemma bool_field_round_trip_witness :
  reads_back false root_store (Writer.add_bool false 0 1 true) (Reader.get_bool false)
    true pbf_wire_type.varint 0.
Proof.
  apply (bool_field_round_trip false root_store 0 1 true).
  - exists (Writer.Build_pbf_writer true None 0 0). repeat split; reflexivity.
  - reflexivity.
Defined.

End BoolRoundTrip.

Section LengthDelimitedRoundTrips.

Lemma get_scalar_length_delimited_written (NDEBUG : bool) (mem : list byte)
    (bs rest : list byte) (r : Reader.pbf_reader) :
  0 <= Reader.m_data r ->
  Z.of_nat (List.length bs) <= 2 ^ 32 - 1 ->
  bytes_between mem (Reader.m_data r) (Reader.m_end r)
  = write_varint (pbf_length_type (Z.of_nat (List.length bs))) ++ bs ++ rest ->
  let d := Reader.m_data r
           + Z.of_nat (List.length
                         (write_varint (pbf_length_type (Z.of_nat (List.length bs))))) in
  Reader.get_scalar_length_delimited NDEBUG mem r
  = (Ret (Reader.Build_data_view d (Z.of_nat (List.length bs))),
     Reader.Build_pbf_reader (d + Z.of_nat (List.length bs)) (Reader.m_end r)
       (Reader.m_wire_type r) (if NDEBUG then Reader.m_tag r else 0))
  /\ bytes_between mem d (d + Z.of_nat (List.length bs)) = bs.
Proof.
  intros Hd Hlen Hb d.
  assert (pbf_length_type (Z.of_nat (List.length bs)) = Z.of_nat (List.length bs)) as Hpl
      by (apply uint32_t_small; lia).
  subst d. rewrite Hpl in *.
  set (d := Reader.m_data r
            + Z.of_nat (List.length (write_varint (Z.of_nat (List.length bs))))).
  pose proof (bytes_between_length mem (Reader.m_data r) (Reader.m_end r)) as Hbl.
  rewrite Hb, !length_app in Hbl.
  pose proof (bytes_between_drop mem _ _ _ _ Hd Hb) as Hrest. fold d in Hrest.
  split.
  - unfold Reader.get_scalar_length_delimited, Reader.get_len_and_skip, Reader.get_length.
    unfold Reader.bind at 1. unfold Reader.bind at 1. unfold Reader.bind at 1.
    rewrite (read_written_varint mem r _ _ Hb). fold d.
    cbn [Reader.ret].
    rewrite uint64_t_small by lia.
    rewrite Hpl.
    erewrite rbind_Ret; [| apply skip_bytes_ok; cbn [Reader.m_data Reader.m_end]; unfold d;
                         pose proof (write_varint_length (Z.of_nat (List.length bs))); lia].
    cbn [Reader.ret Reader.m_data Reader.m_end Reader.m_wire_type Reader.m_tag].
    rewrite bind_assoc_this. cbn [Reader.ret Reader.m_data].
    unfold Reader.ret. replace (d + Z.of_nat (List.length bs) - Z.of_nat (List.length bs)) with d by lia. reflexivity.
  - apply (bytes_between_take mem _ _ _ _ Hrest).
Qed.

(** X11.  A string, bytes or message field round-trips when its size fits
    [pbf_length_type]: [get_bytes] and [get_string] return the bytes that
    were written, [get_view] a view of exactly those bytes in the buffer,
    and [get_message] a reader over them. *)
Theorem length_delimited_fields_round_trip
    (NDEBUG : bool) (s : Writer.store) (this : nat) (tag : Z) (bs : list byte) :
  ready s this ->
  tag_in_range tag = true ->
  Z.of_nat (List.length bs) <= 2 ^ 32 - 1 ->
  let d := Z.of_nat (List.length
                       (Writer.buffer s
                          ++ write_varint (field_header tag pbf_wire_type.length_delimited)
                          ++ write_varint (Z.of_nat (List.length bs)))) in
  let n := Z.of_nat (List.length bs) in
  let tag_after := if NDEBUG then tag else 0 in
  reads_back NDEBUG s (Writer.add_bytes NDEBUG this tag bs) (Reader.get_bytes NDEBUG)
    bs pbf_wire_type.length_delimited tag_after
  /\ reads_back NDEBUG s (Writer.add_string NDEBUG this tag bs) (Reader.get_string NDEBUG)
       bs pbf_wire_type.length_delimited tag_after
  /\ reads_back NDEBUG s (Writer.add_string NDEBUG this tag bs) (Reader.get_view NDEBUG)
       (Reader.Build_data_view d n) pbf_wire_type.length_delimited tag_after
  /\ reads_back NDEBUG s (Writer.add_message NDEBUG this tag bs) (Reader.get_message NDEBUG)
       (Reader.Build_pbf_reader d (d + n) pbf_wire_type.unknown 0)
       pbf_wire_type.length_delimited tag_after
  /\ forall rest,
       bytes_between
         (Writer.buffer s
            ++ (write_varint (field_header tag pbf_wire_type.length_delimited)
                  ++ write_varint (Z.of_nat (List.length bs)) ++ bs) ++ rest)
         d (d + n) = bs.
Proof.
  intros Hready Ht Hlen d n tag_after.
  assert (pbf_length_type (Z.of_nat (List.length bs)) = Z.of_nat (List.length bs)) as Hpl
      by (apply uint32_t_small; lia).
  assert (forall (mem rest : list byte) (r : Reader.pbf_reader),
             Reader.m_data r
             = Z.of_nat (List.length
                           (Writer.buffer s
                              ++ write_varint (field_header tag pbf_wire_type.length_delimited))) ->
             Reader.m_tag r = tag ->
             Reader.m_wire_type r = pbf_wire_type.length_delimited ->
             bytes_between mem (Reader.m_data r) (Reader.m_end r)
             = (write_varint (pbf_length_type (Z.of_nat (List.length bs))) ++ bs) ++ rest ->
             Reader.get NDEBUG mem _string r
             = (Ret (Reader.Build_data_view d n),
                Reader.Build_pbf_reader
                  (Reader.m_data r
                   + Z.of_nat (List.length
                                 (write_varint (pbf_length_type (Z.of_nat (List.length bs)))
                                    ++ bs)))
                  (Reader.m_end r) pbf_wire_type.length_delimited tag_after)
               /\ bytes_between mem d (d + n) = bs) as Hget.
  { intros mem rest r Hd Htag Hwt Hb.
    assert (0 <= Reader.m_data r) as Hd0 by lia.
    assert (Reader.m_tag r <> 0) as Hnz
        by (rewrite Htag; apply tag_in_range_nonzero; exact Ht).
    rewrite <- app_assoc in Hb.
    destruct (get_scalar_length_delimited_written NDEBUG mem bs rest r Hd0 Hlen Hb)
      as [Hg Hbytes].
    rewrite (get_current_field NDEBUG mem _string r Hnz Hwt).
    assert (Reader.m_data r
            + Z.of_nat (List.length
                          (write_varint (pbf_length_type (Z.of_nat (List.length bs)))))
            = d) as Hdd.
    { unfold d. rewrite Hd, Hpl, !length_app. lia. }
    rewrite Hdd in Hg, Hbytes.
    split; [|exact Hbytes].
    change (Reader.get_scalar NDEBUG mem _string r)
      with (Reader.get_scalar_length_delimited NDEBUG mem r).
    rewrite Hg, Hwt, Htag. f_equal. f_equal. rewrite length_app. unfold n. lia. }
  assert (NDEBUG || value_fits length_delimited_tag bs = true) as Hfits.
  { cbn [value_fits]. apply orb_true_iff. right. apply Z.leb_le. exact Hlen. }
  repeat split.
  - apply (reads_back_intro NDEBUG s this _bytes tag bs); try assumption.
    intros mem rest r Hd Htag Hwt Hb.
    destruct (Hget mem rest r Hd Htag Hwt Hb) as [Hg Hbytes].
    unfold Reader.get_bytes.
    rewrite (rbind_Ret _ _ _ _ _ Hg). cbn [Reader.ret Reader.data Reader.size].
    rewrite Hbytes. reflexivity.
  - apply (reads_back_intro NDEBUG s this _string tag bs); try assumption.
    intros mem rest r Hd Htag Hwt Hb.
    destruct (Hget mem rest r Hd Htag Hwt Hb) as [Hg Hbytes].
    unfold Reader.get_string, Reader.get_bytes.
    rewrite (rbind_Ret _ _ _ _ _ Hg). cbn [Reader.ret Reader.data Reader.size].
    rewrite Hbytes. reflexivity.
  - apply (reads_back_intro NDEBUG s this _string tag bs); try assumption.
    intros mem rest r Hd Htag Hwt Hb.
    destruct (Hget mem rest r Hd Htag Hwt Hb) as [Hg Hbytes].
    exact Hg.
  - apply (reads_back_intro NDEBUG s this _message tag bs); try assumption.
    intros mem rest r Hd Htag Hwt Hb.
    destruct (Hget mem rest r Hd Htag Hwt Hb) as [Hg Hbytes].
    unfold Reader.get_message, Reader.get_data.
    rewrite (rbind_Ret _ _ _ _ _ Hg). reflexivity.
  - intros rest.
    replace (Writer.buffer s
               ++ (write_varint (field_header tag pbf_wire_type.length_delimited)
                     ++ write_varint (Z.of_nat (List.length bs)) ++ bs) ++ rest)
      with ((Writer.buffer s
               ++ write_varint (field_header tag pbf_wire_type.length_delimited)
               ++ write_varint (Z.of_nat (List.length bs))) ++ bs ++ rest)
      by (rewrite <- !app_assoc; reflexivity).
    apply bytes_between_app; reflexivity.
Qed.

Lemma length_delimited_fields_round_trip_witness :
  reads_back false root_store
    (Writer.add_bytes false 0 1 [byte.of_Z 97; byte.of_Z 98]) (Reader.get_bytes false)
    [byte.of_Z 97; byte.of_Z 98] pbf_wire_type.length_delimited 0.
Proof.
  apply (proj1 (length_delimited_fields_round_trip false root_store 0 1
                  [byte.of_Z 97; byte.of_Z 98]
                  ltac:(exists (Writer.Build_pbf_writer true None 0 0);
                        repeat split; reflexivity)
                  eq_refl
                  ltac:(cbn; lia))).
Defined.

End LengthDelimitedRoundTrips.

Section CursorProtocol.

Import Reader.
Local Open Scope reader_scope.

(** X1.  The cursor of a reader only moves forward, never past the end, and
    the end is never moved, whatever the operation returns, throws or
    asserts and whatever the bytes are. *)
Theorem reader_cursor_stays_in_bounds (NDEBUG : bool) (mem : list byte) :
  advances (next NDEBUG mem)
  /\ (forall t, advances (next_tag NDEBUG mem t))
  /\ advances (skip NDEBUG mem)
  /\ (forall T, advances (get NDEBUG mem T))
  /\ advances (get_bool NDEBUG mem)
  /\ advances (get_bytes NDEBUG mem)
  /\ advances (get_message NDEBUG mem)
  /\ advances (get_packed NDEBUG mem).
Proof.
  split; [apply advances_next|].
  split; [intros t; apply advances_next_tag|].
  split; [apply advances_skip|].
  split; [intros T; apply advances_get|].
  split.
  { unfold get_bool. apply advances_bind; [apply advances_get|].
    intros v. apply advances_ret. }
  split.
  { unfold get_bytes. apply advances_bind; [apply (advances_get NDEBUG mem _string)|].
    intros v. apply advances_ret. }
  split; [apply advances_get_message | apply advances_get_packed].
Qed.

(** X2.  [next(tag)] ends within the bytes that are left; when it returns
    true the current field has the tag asked for and a wire type that is
    known, and when it returns false the reader is at its end. *)
Theorem next_tag_finds_or_ends
    (NDEBUG : bool) (mem : list byte) (t : Z) (r r' : pbf_reader)
    (o : outcome (option bool)) :
  next_tag NDEBUG mem t r = (o, r') ->
  o <> Ret None
  /\ (o = Ret (Some true) -> m_tag r' = t /\ valid_wire_type (m_wire_type r'))
  /\ (o = Ret (Some false) -> m_data r' = m_end r').
Proof.
  unfold next_tag. rewrite bind_assoc_this. intros H.
  apply (next_tag_loop_ends NDEBUG mem t
           (Z.to_nat (m_end r - m_data r) + 1) r r' o); [lia | exact H].
Qed.

Lemma next_tag_finds_or_ends_witness :
  let mem := [byte.of_Z 8; byte.of_Z 1; byte.of_Z 16; byte.of_Z 2] in
  let o := Ret (Some true) in
  let r' := Build_pbf_reader 3 4 pbf_wire_type.varint 2 in
  next_tag false mem 2 (new 0 4) = (o, r')
  /\ o <> Ret None
  /\ (o = Ret (Some true) -> m_tag r' = 2 /\ valid_wire_type (m_wire_type r'))
  /\ (o = Ret (Some false) -> m_data r' = m_end r').
Proof.
  split; [reflexivity|].
  apply (next_tag_finds_or_ends false
           [byte.of_Z 8; byte.of_Z 1; byte.of_Z 16; byte.of_Z 2] 2 (new 0 4)).
  reflexivity.
Defined.

(** X3.  [skip()] of the current field is the typed read of that field with
    the result thrown away, for every type whose wire type is the current
    one ([bool] apart, whose read asserts a one-byte varint). *)
Theorem skip_is_typed_read_discarded
    (NDEBUG : bool) (mem : list byte) (T : scalar_type) (r : pbf_reader) :
  T <> _bool ->
  m_tag r <> 0 ->
  m_wire_type r = wire_type_of T ->
  skip NDEBUG mem r = bind (get NDEBUG mem T) (fun _ => ret tt) r.
Proof.
  intros HT Htag Hwt.
  rewrite (skip_is_get_scalar_discarded NDEBUG mem T r HT Htag Hwt).
  unfold bind. rewrite (get_current_field NDEBUG mem T r Htag Hwt). reflexivity.
Qed.

Lemma skip_is_typed_read_discarded_witness :
  let mem := [byte.of_Z 13; byte.of_Z 78; byte.of_Z 97; byte.of_Z 188; byte.of_Z 0] in
  let r := Build_pbf_reader 1 5 pbf_wire_type.fixed32 1 in
  skip false mem r = bind (get false mem _sfixed32) (fun _ => ret tt) r
  /\ skip false mem r = (Ret tt, Build_pbf_reader 5 5 pbf_wire_type.fixed32 0).
Proof.
  split; [|reflexivity].
  apply (skip_is_typed_read_discarded false
           [byte.of_Z 13; byte.of_Z 78; byte.of_Z 97; byte.of_Z 188; byte.of_Z 0]
           _sfixed32 (Build_pbf_reader 1 5 pbf_wire_type.fixed32 1));
    [discriminate | discriminate | reflexivity].
Defined.

End CursorProtocol.

Section StrongGuarantee.

Import Reader.
Local Open Scope reader_scope.

Lemma strong_skip_numeric (NDEBUG : bool) (mem : list byte)
    (r r' : pbf_reader) (e : exception) :
  m_wire_type r <> pbf_wire_type.length_delimited ->
  skip NDEBUG mem r = (Throw e, r') -> r' = r.
Proof.
  intros Hw H. unfold skip, tag, wire_type in H.
  erewrite rbind_Ret in H by reflexivity.
  destruct (pure_check_assert NDEBUG (negb (m_tag r =? 0)) r) as [[[] Ha] | Ha].
  2:{ rewrite (rbind_Abort _ _ _ _ Ha) in H. discriminate H. }
  rewrite (rbind_Ret _ _ _ _ _ Ha) in H.
  erewrite rbind_Ret in H by reflexivity.
  destruct (m_wire_type r =? pbf_wire_type.varint).
  { revert H. apply (strong_then_ret (get_uint32 NDEBUG mem) (fun _ => tt)).
    apply (strong_get NDEBUG mem _uint32). discriminate. }
  destruct (m_wire_type r =? pbf_wire_type.fixed64).
  { revert H. apply strong_skip_bytes. }
  destruct (m_wire_type r =? pbf_wire_type.length_delimited) eqn:E.
  { apply Z.eqb_eq in E. contradiction. }
  destruct (m_wire_type r =? pbf_wire_type.fixed32).
  { revert H. apply strong_skip_bytes. }
  destruct (pure_check_assert NDEBUG false r) as [[[] Hb] | Hb];
    rewrite Hb in H; discriminate H.
Qed.

(** X4.  The reads of the numeric types and [skip()] on a numeric field keep
    the strong guarantee: when they throw, the reader is what it was. *)
Theorem numeric_reads_keep_strong_guarantee (NDEBUG : bool) (mem : list byte) :
  (forall T, tag_of T <> length_delimited_tag -> strong (get NDEBUG mem T))
  /\ strong (get_bool NDEBUG mem)
  /\ (forall r r' e,
         m_wire_type r <> pbf_wire_type.length_delimited ->
         skip NDEBUG mem r = (Throw e, r') -> r' = r).
Proof.
  split; [intros T HT; apply strong_get; exact HT|].
  split.
  - unfold get_bool.
    apply (strong_then_ret (get NDEBUG mem _bool) (fun v => negb (v =? 0))).
    apply strong_get. discriminate.
  - intros r r' e. apply strong_skip_numeric.
Qed.

Lemma numeric_reads_keep_strong_guarantee_witness :
  let mem := [byte.of_Z 13; byte.of_Z 78] in
  let r := Build_pbf_reader 1 2 pbf_wire_type.fixed32 1 in
  get false mem _fixed32 r = (Throw end_of_buffer_exception, r)
  /\ skip false mem r = (Throw end_of_buffer_exception, r)
  /\ (forall r', skip false mem r = (Throw end_of_buffer_exception, r') -> r' = r).
Proof.
  split; [reflexivity|]. split; [reflexivity|].
  intros r'.
  apply (proj2 (proj2 (numeric_reads_keep_strong_guarantee false
                         [byte.of_Z 13; byte.of_Z 78]))).
  discriminate.
Defined.

Lemma read_without_field_aborts (mem : list byte) (r : pbf_reader) :
  m_tag r = 0 ->
  (forall U, get false mem U r = (Abort, r))
  /\ skip false mem r = (Abort, r)
  /\ get_packed false mem r = (Abort, r).
Proof.
  intros H0.
  assert (protozero_assert false (negb (m_tag r =? 0)) r = (Abort, r)) as Ha.
  { unfold protozero_assert. rewrite H0. reflexivity. }
  split; [intros U|split].
  - unfold get, tag. erewrite rbind_Ret by reflexivity.
    apply (rbind_Abort _ _ _ _ Ha).
  - unfold skip, tag. erewrite rbind_Ret by reflexivity.
    apply (rbind_Abort _ _ _ _ Ha).
  - unfold get_packed, tag. erewrite rbind_Ret by reflexivity.
    apply (rbind_Abort _ _ _ _ Ha).
Qed.

Lemma deref_inv (mem : list byte) (p : Z) (r r1 : pbf_reader) (o : outcome byte) :
  deref mem p r = (o, r1) -> r1 = r.
Proof.
  unfold deref. destruct (p <? 0); [intros H; injection H as _ <-; reflexivity|].
  destruct (mem !! Z.to_nat p); intros H; injection H as _ <-; reflexivity.
Qed.

Lemma get_scalar_resets_tag (mem : list byte) (T : scalar_type)
    (r r' : pbf_reader) (v : result_of (tag_of T)) :
  tag_of T <> varint_tag -> tag_of T <> svarint_tag ->
  get_scalar false mem T r = (Ret v, r') -> m_tag r' = 0.
Proof.
  intros Hv Hs H. unfold get_scalar in H.
  destruct (tag_of T); try contradiction.
  - (* bool *)
    unfold get_scalar_bool in H. rewrite bind_assoc_this in H.
    apply bind_inv in H. destruct H as [(a & r1 & H1 & H) | [(e & _ & He) | [_ He]]];
      try discriminate He.
    apply bind_inv in H1.
    destruct H1 as [(b & r2 & Hd & Hassert) | [(e & _ & He) | [_ He]]];
      try discriminate He.
    apply deref_inv in Hd. subst r2.
    assert (r1 = r) as ->.
    { unfold protozero_assert in Hassert.
      destruct (false || _); [|discriminate Hassert].
      injection Hassert as _ <-. reflexivity. }
    apply bind_inv in H. destruct H as [(a' & r3 & Hsk & H) | [(e & _ & He) | [_ He]]];
      try discriminate He.
    destruct (skip_bytes_inv false 1 r r3 _ Hsk) as [(_ & _ & ->) | (Habs & _)];
      [|discriminate Habs].
    rewrite bind_assoc_this in H.
    apply bind_inv in H. destruct H as [(b' & r4 & Hd' & H) | [(e & _ & He) | [_ He]]];
      try discriminate He.
    apply deref_inv in Hd'. subst r4.
    injection H as _ <-. reflexivity.
  - (* fixed *)
    unfold get_scalar_fixed in H.
    apply bind_inv in H. destruct H as [(a' & r3 & Hsk & H) | [(e & _ & He) | [_ He]]];
      try discriminate He.
    destruct (skip_bytes_inv false _ r r3 _ Hsk) as [(_ & _ & ->) | (Habs & _)];
      [|discriminate Habs].
    rewrite bind_assoc_this in H. injection H as _ <-. reflexivity.
  - (* length-delimited *)
    unfold get_scalar_length_delimited in H.
    apply bind_inv in H. destruct H as [(len & r3 & Hsk & H) | [(e & _ & He) | [_ He]]];
      try discriminate He.
    destruct (get_len_and_skip_inv false mem r r3 len Hsk) as (v0 & p & _ & _ & _ & ->).
    rewrite bind_assoc_this in H. injection H as _ <-. reflexivity.
Qed.

(** X5.  A debug build forgets the current field once its value has been
    read through [skip_bytes] (bool, fixed-width and length-delimited
    types): the tag is 0 afterwards, and a second read, a [skip()] or a
    packed read without a new [next()] fails the assertion and leaves the
    reader as it is. *)
Theorem debug_build_rejects_second_read
    (mem : list byte) (T : scalar_type) (r r' : pbf_reader)
    (v : result_of (tag_of T)) :
  tag_of T <> varint_tag -> tag_of T <> svarint_tag ->
  get false mem T r = (Ret v, r') ->
  m_tag r' = 0
  /\ (forall U, get false mem U r' = (Abort, r'))
  /\ skip false mem r' = (Abort, r')
  /\ get_packed false mem r' = (Abort, r').
Proof.
  intros Hv Hs H.
  assert (m_tag r' = 0) as H0.
  { apply (get_scalar_resets_tag mem T r r' v Hv Hs).
    apply get_inv; [exact H | discriminate]. }
  split; [exact H0|]. apply read_without_field_aborts. exact H0.
Qed.

Lemma debug_build_rejects_second_read_witness :
  let mem := [byte.of_Z 13; byte.of_Z 78; byte.of_Z 97; byte.of_Z 188; byte.of_Z 0] in
  let r := Build_pbf_reader 1 5 pbf_wire_type.fixed32 1 in
  let r' := Build_pbf_reader 5 5 pbf_wire_type.fixed32 0 in
  get false mem _fixed32 r = (Ret 12345678, r')
  /\ m_tag r' = 0
  /\ (forall U, get false mem U r' = (Abort, r'))
  /\ skip false mem r' = (Abort, r')
  /\ get_packed false mem r' = (Abort, r').
Proof.
  split; [reflexivity|].
  apply (debug_build_rejects_second_read
           [byte.of_Z 13; byte.of_Z 78; byte.of_Z 97; byte.of_Z 188; byte.of_Z 0]
           _fixed32 (Build_pbf_reader 1 5 pbf_wire_type.fixed32 1)
           (Build_pbf_reader 5 5 pbf_wire_type.fixed32 0) 12345678);
    [discriminate | discriminate | reflexivity].
Defined.

End StrongGuarantee.

Section LengthDelimitedReads.

Import Reader.
Local Open Scope reader_scope.

Lemma get_len_and_skip_inside (NDEBUG : bool) (mem : list byte) (r r' : pbf_reader)
    (len : Z) :
  get_len_and_skip NDEBUG mem r = (Ret len, r') ->
  0 <= len < 2 ^ 32
  /\ m_data r < m_data r' - len
  /\ m_data r' <= m_end r
  /\ m_end r' = m_end r.
Proof.
  intros H.
  destruct (get_len_and_skip_inv NDEBUG mem r r' len H) as (v & p & Hdec & -> & Hle & ->).
  pose proof (decode_varint_within mem _ _ _ _ Hdec) as Hp.
  pose proof (uint32_t_range v) as Hr. unfold pbf_length_type in *.
  cbn [m_data m_end]. repeat split; lia.
Qed.

Lemma get_packed_inv (NDEBUG : bool) (mem : list byte) (r r' : pbf_reader)
    (a b : Z) :
  get_packed NDEBUG mem r = (Ret (a, b), r') ->
  get_len_and_skip NDEBUG mem r = (Ret (b - a), r') /\ b = m_data r'.
Proof.
  unfold get_packed, tag. erewrite rbind_Ret by reflexivity. intros H.
  apply bind_inv in H. destruct H as [(u & r1 & Ha & H) | [(e & _ & He) | [_ He]]];
    try discriminate He.
  assert (r1 = r) as ->.
  { unfold protozero_assert in Ha. destruct (NDEBUG || _); [|discriminate Ha].
    injection Ha as _ <-. reflexivity. }
  unfold get_impl_is_packed in H.
  apply bind_inv in H. destruct H as [(len & r2 & Hl & H) | [(e & _ & He) | [_ He]]];
    try discriminate He.
  rewrite bind_assoc_this in H. injection H as <- <- <-.
  split; [|reflexivity].
  replace (m_data r2 - (m_data r2 - len)) with len by lia. exact Hl.
Qed.

Lemma get_view_inv (NDEBUG : bool) (mem : list byte) (r r' : pbf_reader)
    (v : data_view) :
  get NDEBUG mem _string r = (Ret v, r') ->
  get_len_and_skip NDEBUG mem r = (Ret (size v), r') /\ data v = m_data r' - size v.
Proof.
  intros H. apply get_inv in H; [|discriminate].
  change (get_scalar NDEBUG mem _string r)
    with (get_scalar_length_delimited NDEBUG mem r) in H.
  unfold get_scalar_length_delimited in H.
  apply bind_inv in H. destruct H as [(len & r2 & Hl & H) | [(e & _ & He) | [_ He]]];
    try discriminate He.
  rewrite bind_assoc_this in H. injection H as <- <-.
  split; [exact Hl | reflexivity].
Qed.

(** X6.  What a length-delimited read hands out lies in the bytes that were
    unread: a view, a sub-reader or a packed range starts after the length
    varint, ends where the cursor now stands, which is not past the end,
    and is shorter than 2^32 bytes; [get_bytes] copies exactly that range. *)
Theorem length_delimited_reads_stay_inside
    (NDEBUG : bool) (mem : list byte) (r r' : pbf_reader) :
  (forall v, get_view NDEBUG mem r = (Ret v, r') ->
             m_data r < data v /\ 0 <= size v < 2 ^ 32
             /\ data v + size v = m_data r' /\ m_data r' <= m_end r)
  /\ (forall sub, get_message NDEBUG mem r = (Ret sub, r') ->
                  m_data r < m_data sub <= m_end sub /\ m_end sub - m_data sub < 2 ^ 32
                  /\ m_end sub = m_data r' /\ m_data r' <= m_end r
                  /\ m_tag sub = 0)
  /\ (forall a b, get_packed NDEBUG mem r = (Ret (a, b), r') ->
                  m_data r < a <= b /\ b - a < 2 ^ 32
                  /\ b = m_data r' /\ m_data r' <= m_end r)
  /\ (forall bs, get_bytes NDEBUG mem r = (Ret bs, r') ->
                 exists a, m_data r < a <= m_data r' /\ m_data r' <= m_end r
                           /\ bs = bytes_between mem a (m_data r')).
Proof.
  split; [|split; [|split]].
  - intros v H. unfold get_view in H.
    destruct (get_view_inv NDEBUG mem r r' v H) as [Hl Hd].
    destruct (get_len_and_skip_inside NDEBUG mem r r' _ Hl) as (? & ? & ? & ?).
    repeat split; lia.
  - intros sub H. unfold get_message, get_data in H.
    apply bind_inv in H. destruct H as [(v & r1 & Hv & H) | [(e & _ & He) | [_ He]]];
      try discriminate He.
    injection H as <- <-.
    destruct (get_view_inv NDEBUG mem r r1 v Hv) as [Hl Hd].
    destruct (get_len_and_skip_inside NDEBUG mem r r1 _ Hl) as (? & ? & ? & ?).
    cbn [m_data m_end m_tag]. repeat split; lia.
  - intros a b H.
    destruct (get_packed_inv NDEBUG mem r r' a b H) as [Hl Hb].
    destruct (get_len_and_skip_inside NDEBUG mem r r' _ Hl) as (? & ? & ? & ?).
    repeat split; lia.
  - intros bs H. unfold get_bytes in H.
    apply bind_inv in H. destruct H as [(v & r1 & Hv & H) | [(e & _ & He) | [_ He]]];
      try discriminate He.
    injection H as <- <-.
    destruct (get_view_inv NDEBUG mem r r1 v Hv) as [Hl Hd].
    destruct (get_len_and_skip_inside NDEBUG mem r r1 _ Hl) as (? & ? & ? & ?).
    exists (data v). split; [lia|]. split; [lia|].
    f_equal. lia.
Qed.

Lemma length_delimited_reads_stay_inside_witness :
  let mem := [byte.of_Z 10; byte.of_Z 2; byte.of_Z 97; byte.of_Z 98; byte.of_Z 0] in
  let r := Build_pbf_reader 1 5 pbf_wire_type.length_delimited 1 in
  let r' := Build_pbf_reader 4 5 pbf_wire_type.length_delimited 0 in
  let v := Build_data_view 2 2 in
  get_view false mem r = (Ret v, r')
  /\ m_data r < data v /\ 0 <= size v < 2 ^ 32
  /\ data v + size v = m_data r' /\ m_data r' <= m_end r.
Proof.
  split; [reflexivity|].
  apply (proj1 (length_delimited_reads_stay_inside false
                  [byte.of_Z 10; byte.of_Z 2; byte.of_Z 97; byte.of_Z 98; byte.of_Z 0]
                  (Build_pbf_reader 1 5 pbf_wire_type.length_delimited 1)
                  (Build_pbf_reader 4 5 pbf_wire_type.length_delimited 0))
           (Build_data_view 2 2)).
  reflexivity.
Defined.

(** X7.  A fixed-width field that is cut off by the end of the buffer is
    not read: the typed read and [skip()] throw [end_of_buffer_exception]
    and the reader stays on the field. *)
Theorem truncated_fixed_field_throws
    (NDEBUG : bool) (mem : list byte) (T : scalar_type) (r : pbf_reader) :
  tag_of T = fixed_tag ->
  m_tag r <> 0 ->
  m_wire_type r = wire_type_of T ->
  m_end r - m_data r < sizeof (type_of T) ->
  get NDEBUG mem T r = (Throw end_of_buffer_exception, r)
  /\ skip NDEBUG mem r = (Throw end_of_buffer_exception, r).
Proof.
  intros HG Htag Hwt Hshort.
  assert (get NDEBUG mem T r = (Throw end_of_buffer_exception, r)) as Hget.
  { rewrite (get_current_field NDEBUG mem T r Htag Hwt).
    unfold get_scalar.
    destruct T; try discriminate HG; cbn [tag_of type_of] in *;
      unfold get_scalar_fixed;
      apply rbind_Throw; apply skip_bytes_Throw; lia. }
  split; [exact Hget|].
  rewrite (skip_is_get_scalar_discarded NDEBUG mem T r); [| | exact Htag | exact Hwt].
  - apply rbind_Throw.
    rewrite <- (get_current_field NDEBUG mem T r Htag Hwt). exact Hget.
  - intros ->. discriminate HG.
Qed.

Lemma truncated_fixed_field_throws_witness :
  let mem := [byte.of_Z 9; byte.of_Z 1; byte.of_Z 2; byte.of_Z 3] in
  let r := Build_pbf_reader 1 4 pbf_wire_type.fixed64 1 in
  get false mem _double r = (Throw end_of_buffer_exception, r)
  /\ skip false mem r = (Throw end_of_buffer_exception, r).
Proof.
  apply (truncated_fixed_field_throws false
           [byte.of_Z 9; byte.of_Z 1; byte.of_Z 2; byte.of_Z 3] _double
           (Build_pbf_reader 1 4 pbf_wire_type.fixed64 1));
    [reflexivity | discriminate | reflexivity | cbn; lia].
Defined.

End LengthDelimitedReads.

Section PackedWrites.

Import Writer.
Local Open Scope writer_scope.

Variable NDEBUG : bool.

Lemma ready_same_objects (s s' : store) (this : nat) :
  objects s' = objects s -> ready s this -> ready s' this.
Proof. intros H (w & Hl & Hd & Hp). exists w. rewrite H. auto. Qed.

Lemma store_eta (s : store) : Build_store (buffer s) (objects s) = s.
Proof. destruct s. reflexivity. Qed.

Lemma for_each_appends {A} (f : A -> W unit) (enc : A -> list byte) (this : nat)
    (l : list A) :
  (forall a s, ready s this ->
               f a s = (Ret tt, Build_store (buffer s ++ enc a) (objects s))) ->
  forall s, ready s this ->
    for_each f l s
    = (Ret tt, Build_store (buffer s ++ concat (map enc l)) (objects s)).
Proof.
  intros Hf. induction l as [|a l IH]; intros s Hr; cbn [for_each map concat].
  - rewrite app_nil_r, store_eta. reflexivity.
  - rewrite (bind_Ret _ _ _ _ _ (Hf a s Hr)).
    rewrite IH by (apply (ready_same_objects s); [reflexivity | exact Hr]).
    cbn [buffer objects]. rewrite <- app_assoc. reflexivity.
Qed.

Lemma value_fits_numeric (T : scalar_type) (v : carrier (tag_of T)) :
  tag_of T <> length_delimited_tag -> value_fits (tag_of T) v = true.
Proof. revert v. destruct (tag_of T); intros v H; try reflexivity. contradiction. Qed.

Lemma for_each_add_impl_ok (T : scalar_type) (this : nat)
    (l : list (carrier (tag_of T))) (s : store) :
  tag_of T <> length_delimited_tag ->
  ready s this ->
  for_each (fun v => add_impl NDEBUG (type_of T) (tag_of T) v this) l s
  = (Ret tt, Build_store (buffer s ++ packed_payload T l) (objects s)).
Proof.
  intros HT Hr. unfold packed_payload.
  apply (for_each_appends _ (encode_value (type_of T) (tag_of T)) this l); [|exact Hr].
  intros a s0 Hr0. apply add_impl_ok; [exact Hr0|].
  rewrite value_fits_numeric by exact HT. apply orb_true_r.
Qed.

Lemma packed_type_add_element_ok (T : scalar_type) (this : nat)
    (v : carrier (tag_of T)) (s : store) :
  tag_of T <> length_delimited_tag ->
  tag_of T <> bool_tag ->
  ready s this ->
  packed_type_add_element NDEBUG T this v s
  = (Ret tt,
     Build_store (buffer s ++ encode_value (type_of T) (tag_of T) v) (objects s)).
Proof.
  intros HT HB Hr. unfold packed_type_add_element. revert v.
  destruct (tag_of T); intros v; try contradiction; cbn [encode_value].
  - apply add_varint_ok. exact Hr.
  - apply add_varint_ok. exact Hr.
  - unfold packed_field_fixed_add_element.
    apply add_fixed_ok. exact Hr.
Qed.

Lemma for_each_add_element_ok (T : scalar_type) (this : nat)
    (l : list (carrier (tag_of T))) (s : store) :
  tag_of T <> length_delimited_tag ->
  tag_of T <> bool_tag ->
  ready s this ->
  for_each (packed_type_add_element NDEBUG T this) l s
  = (Ret tt, Build_store (buffer s ++ packed_payload T l) (objects s)).
Proof.
  intros HT HB Hr. unfold packed_payload.
  apply (for_each_appends _ (encode_value (type_of T) (tag_of T)) this l); [|exact Hr].
  intros a s0 Hr0. apply packed_type_add_element_ok; assumption.
Qed.

Lemma appends_of_ready (this parent : nat) (body : W unit) (payload : list byte) :
  (forall s, ready s this ->
             body s = (Ret tt, Build_store (buffer s ++ payload) (objects s))) ->
  appends this parent body payload.
Proof.
  intros Hb s w Hc Hp Hne.
  exists (objects s), (fresh_child parent).
  split; [apply Hb; apply (fresh_child_ready s this parent Hc)|].
  split; [exact Hp|]. split; [exact Hc | reflexivity].
Qed.

Lemma encode_value_nonempty (T : scalar_type) (v : carrier (tag_of T)) :
  tag_of T <> length_delimited_tag ->
  encode_value (type_of T) (tag_of T) v <> [].
Proof.
  intros HT. revert v.
  destruct (tag_of T) eqn:E; intros v; try contradiction; cbn [encode_value].
  - intros H. pose proof (write_varint_length (uint64_t (convert (type_of T) v))) as Hl.
    rewrite H in Hl. cbn in Hl. lia.
  - discriminate.
  - intros H.
    pose proof (write_varint_length
                  (uint64_t (encode_zigzag64 (int64_t (convert (type_of T) v))))) as Hl.
    rewrite H in Hl. cbn in Hl. lia.
  - intros H. apply (f_equal (@List.length byte)) in H.
    rewrite length_le_split in H.
    destruct (type_of T); cbn in H; lia.
Qed.

Lemma packed_payload_nonempty (T : scalar_type) (v : carrier (tag_of T))
    (l : list (carrier (tag_of T))) :
  tag_of T <> length_delimited_tag -> packed_payload T (v :: l) <> [].
Proof.
  intros HT H. unfold packed_payload in H. cbn [map concat] in H.
  apply app_eq_nil in H. destruct H as [H _].
  exact (encode_value_nonempty T v HT H).
Qed.

Lemma packed_payload_fixed_length (T : scalar_type) (l : list (carrier (tag_of T))) :
  tag_of T = fixed_tag ->
  Z.of_nat (List.length (packed_payload T l))
  = sizeof (type_of T) * Z.of_nat (List.length l).
Proof.
  intros HT. unfold packed_payload. revert l. rewrite HT. intros l.
  induction l as [|v l IH]; cbn [map concat List.length].
  - lia.
  - rewrite length_app, Nat2Z.inj_add, IH. cbn [encode_value].
    rewrite length_le_split.
    pose proof (sizeof_nonneg (type_of T)). lia.
Qed.

End PackedWrites.

Section PackedStrategies.

Import Writer.
Local Open Scope writer_scope.

Lemma fixed_length_true (G : type_tag) (forward_iterator : bool) :
  fixed_length G forward_iterator = true -> G = fixed_tag.
Proof. destruct G; intros H; try discriminate H; reflexivity. Qed.

Lemma pbf_length_type_of_product (sz n : Z) :
  pbf_length_type (size_t (sz * pbf_length_type n)) = pbf_length_type (sz * n).
Proof.
  unfold pbf_length_type, size_t, uint32_t.
  rewrite (mod_mod_pow2 _ 32 64) by lia.
  apply Z.mul_mod_idemp_r. lia.
Qed.

Lemma add_packed_any (NDEBUG : bool) (T : scalar_type) (forward_iterator : bool)
    (this : nat) (tag : Z) (range : list (carrier (tag_of T))) (s : store) :
  ready s this ->
  NDEBUG || tag_in_range tag = true ->
  tag_of T <> length_delimited_tag ->
  Z.of_nat (List.length (buffer s))
  + Z.of_nat (List.length (packed_payload T range)) + 15 < 2 ^ 63 ->
  exists s',
    add_packed NDEBUG T forward_iterator this tag range s = (Ret tt, s')
    /\ buffer s'
       = match range with
         | [] => buffer s
         | _ :: _ =>
             buffer s ++ write_varint (field_header tag pbf_wire_type.length_delimited)
               ++ write_varint
                    (pbf_length_type (Z.of_nat (List.length (packed_payload T range))))
               ++ packed_payload T range
         end
    /\ ready s' this.
Proof.
  intros Hr Ht HT Hbuf.
  destruct range as [|v l];
    [exists s; split; [reflexivity | split; [reflexivity | exact Hr]]|].
  set (range := v :: l) in *.
  change (add_packed NDEBUG T forward_iterator this tag range)
    with (add_packed_impl NDEBUG T forward_iterator this tag range).
  unfold add_packed_impl.
  destruct (fixed_length (tag_of T) forward_iterator) eqn:Efl.
  - pose proof (fixed_length_true _ _ Efl) as HG.
    pose proof (packed_payload_fixed_length T range HG) as Hpl.
    rewrite pbf_length_type_of_product, <- Hpl.
    rewrite (bind_Ret _ _ _ _ _ (add_length_varint_ok NDEBUG s this tag _ Hr Ht)).
    erewrite bind_Ret
      by (apply reserve_ok; apply (ready_same_objects s); [reflexivity | exact Hr]).
    rewrite (for_each_add_impl_ok NDEBUG T this range _ HT)
      by (apply (ready_same_objects s); [reflexivity | exact Hr]).
    cbn [buffer objects]. eexists. split; [reflexivity|]. split.
    + cbn [buffer]. rewrite <- !app_assoc. reflexivity.
    + apply (ready_same_objects s); [reflexivity | exact Hr].
  - destruct Hr as (w & Hl & Hd & Hp).
    destruct (scoped_submessage_unknown NDEBUG s this w tag
                (fun sw => for_each (fun v => add_impl NDEBUG (type_of T) (tag_of T) v sw)
                             range)
                (packed_payload T range) Hl Hd Hp Ht Hbuf)
      as (s' & Hrun & Hb & Hr').
    { intros child. apply appends_of_ready. intros s0 Hr0.
      apply for_each_add_impl_ok; assumption. }
    exists s'. split; [exact Hrun|].
    split; [|destruct Hr' as (w' & ? & ? & ?); exists w'; auto].
    rewrite Hb.
    destruct (packed_payload T range) eqn:Ep;
      [exfalso; exact (packed_payload_nonempty T v l HT Ep)|].
    reflexivity.
Qed.

Lemma add_packed_ok (NDEBUG : bool) (T : scalar_type) (forward_iterator : bool)
    (this : nat) (tag : Z) (range : list (carrier (tag_of T))) (s : store) :
  ready s this ->
  NDEBUG || tag_in_range tag = true ->
  tag_of T <> length_delimited_tag ->
  Z.of_nat (List.length (packed_payload T range)) < 2 ^ 32 ->
  Z.of_nat (List.length (buffer s)) < 2 ^ 62 ->
  exists s',
    add_packed NDEBUG T forward_iterator this tag range s = (Ret tt, s')
    /\ buffer s'
       = match range with
         | [] => buffer s
         | _ :: _ =>
             buffer s ++ write_varint (field_header tag pbf_wire_type.length_delimited)
               ++ write_varint (Z.of_nat (List.length (packed_payload T range)))
               ++ packed_payload T range
         end
    /\ ready s' this.
Proof.
  intros Hr Ht HT Hlen Hbuf.
  destruct (add_packed_any NDEBUG T forward_iterator this tag range s Hr Ht HT
              ltac:(lia)) as (s' & Hrun & Hb & Hr').
  exists s'. split; [exact Hrun|]. split; [|exact Hr'].
  rewrite Hb. unfold pbf_length_type. rewrite uint32_t_small by lia. reflexivity.
Qed.

(** X12.  [add<packed<T>>(tag, first, last)] writes one length-delimited
    field whose payload is the elements one after the other, and the two
    strategies leave the same bytes: the length computed up front for a
    fixed-width type read through forward iterators, and a child writer
    whose length is patched in when it is closed.  The length that is
    written is the payload length as a [pbf_length_type]: the payload
    length itself below 2^32 bytes, and its low 32 bits from there on.  The
    overload that takes a container is the first of the two strategies.  An
    empty range writes nothing. *)
Theorem add_packed_writes_one_field
    (NDEBUG : bool) (T : scalar_type)
    (this : nat) (tag : Z) (range : list (carrier (tag_of T))) (s : store) :
  ready s this ->
  NDEBUG || tag_in_range tag = true ->
  tag_of T <> length_delimited_tag ->
  Z.of_nat (List.length (buffer s))
  + Z.of_nat (List.length (packed_payload T range)) + 15 < 2 ^ 63 ->
  let size := Z.of_nat (List.length (packed_payload T range)) in
  exists s1 s2,
    add_packed NDEBUG T true this tag range s = (Ret tt, s1)
    /\ add_packed NDEBUG T false this tag range s = (Ret tt, s2)
    /\ add_container NDEBUG T this tag range s = (Ret tt, s1)
    /\ buffer s1 = buffer s2
    /\ buffer s1
       = match range with
         | [] => buffer s
         | _ :: _ =>
             buffer s ++ write_varint (field_header tag pbf_wire_type.length_delimited)
               ++ write_varint (pbf_length_type size)
               ++ packed_payload T range
         end
    /\ (size < 2 ^ 32 -> pbf_length_type size = size)
    /\ (2 ^ 32 <= size -> pbf_length_type size = size mod 2 ^ 32
                          /\ pbf_length_type size <> size)
    /\ ready s1 this /\ ready s2 this.
Proof.
  intros Hr Ht HT Hbuf size.
  destruct (add_packed_any NDEBUG T true this tag range s Hr Ht HT Hbuf)
    as (s1 & Hrun1 & Hb1 & Hr1).
  destruct (add_packed_any NDEBUG T false this tag range s Hr Ht HT Hbuf)
    as (s2 & Hrun2 & Hb2 & Hr2).
  exists s1, s2.
  split; [exact Hrun1|]. split; [exact Hrun2|]. split; [exact Hrun1|].
  split; [rewrite Hb1, Hb2; reflexivity|].
  split; [exact Hb1|].
  split; [intros Hlt; apply uint32_t_small; unfold size in *; lia|].
  split; [|split; [exact Hr1 | exact Hr2]].
  intros Hge. unfold pbf_length_type, uint32_t. split; [reflexivity|].
  pose proof (Z.mod_pos_bound size (2 ^ 32) ltac:(lia)). lia.
Qed.

Lemma add_packed_writes_one_field_witness :
  let size := Z.of_nat (List.length (packed_payload _fixed32 [1; 2])) in
  exists s1 s2,
    add_packed false _fixed32 true 0 7 [1; 2] root_store = (Ret tt, s1)
    /\ add_packed false _fixed32 false 0 7 [1; 2] root_store = (Ret tt, s2)
    /\ add_container false _fixed32 0 7 [1; 2] root_store = (Ret tt, s1)
    /\ buffer s1 = buffer s2
    /\ buffer s1
       = buffer root_store
           ++ write_varint (field_header 7 pbf_wire_type.length_delimited)
           ++ write_varint (pbf_length_type size)
           ++ packed_payload _fixed32 [1; 2]
    /\ (size < 2 ^ 32 -> pbf_length_type size = size)
    /\ (2 ^ 32 <= size -> pbf_length_type size = size mod 2 ^ 32
                          /\ pbf_length_type size <> size)
    /\ ready s1 0 /\ ready s2 0.
Proof.
  apply (add_packed_writes_one_field false _fixed32 0 7 [1; 2] root_store).
  - exists (Build_pbf_writer true None 0 0). repeat split; reflexivity.
  - reflexivity.
  - discriminate.
  - vm_compute. reflexivity.
Defined.

End PackedStrategies.

Section PackedFields.

Import Writer.
Local Open Scope writer_scope.

(** X13.  A packed-field object that is given the elements one by one and
    then destroyed leaves the bytes [add<packed<T>>] leaves for the same
    elements, whichever strategy that takes; with no element the field is
    rolled back. *)
Theorem packed_field_writes_what_add_packed_writes
    (NDEBUG : bool) (T : scalar_type) (forward_iterator : bool)
    (parent : nat) (tag : Z) (values : list (carrier (tag_of T))) (s : store) :
  ready s parent ->
  NDEBUG || tag_in_range tag = true ->
  tag_of T <> length_delimited_tag ->
  tag_of T <> bool_tag ->
  Z.of_nat (List.length (packed_payload T values)) < 2 ^ 32 ->
  Z.of_nat (List.length (buffer s)) < 2 ^ 62 ->
  exists s1 s2,
    scoped_packed_field NDEBUG T parent tag values s = (Ret tt, s1)
    /\ add_packed NDEBUG T forward_iterator parent tag values s = (Ret tt, s2)
    /\ buffer s1 = buffer s2
    /\ ready s1 parent.
Proof.
  intros Hr Ht HT HB Hlen Hbuf.
  destruct (add_packed_ok NDEBUG T forward_iterator parent tag values s
              Hr Ht HT Hlen Hbuf) as (s2 & Hrun2 & Hb2 & _).
  destruct Hr as (w & Hl & Hd & Hp).
  destruct (scoped_submessage_unknown NDEBUG s parent w tag
              (fun f => for_each (packed_type_add_element NDEBUG T f) values)
              (packed_payload T values) Hl Hd Hp Ht ltac:(lia))
    as (s1 & Hrun1 & Hb1 & Hr1).
  { intros child. apply appends_of_ready. intros s0 Hr0.
    apply for_each_add_element_ok; assumption. }
  exists s1, s2. split; [exact Hrun1|]. split; [exact Hrun2|].
  split; [|destruct Hr1 as (w' & ? & ? & ?); exists w'; auto].
  rewrite Hb1, Hb2.
  destruct values as [|v l]; [reflexivity|].
  destruct (packed_payload T (v :: l)) eqn:Ep;
    [exfalso; exact (packed_payload_nonempty T v l HT Ep)|].
  rewrite <- Ep in *. unfold pbf_length_type. rewrite uint32_t_small by lia.
  reflexivity.
Qed.

Lemma packed_field_writes_what_add_packed_writes_witness :
  exists s1 s2,
    scoped_packed_field false _sint32 0 7 [-17; 22] root_store = (Ret tt, s1)
    /\ add_packed false _sint32 true 0 7 [-17; 22] root_store = (Ret tt, s2)
    /\ buffer s1 = buffer s2
    /\ ready s1 0.
Proof.
  apply (packed_field_writes_what_add_packed_writes false _sint32 true 0 7
           [-17; 22] root_store).
  - exists (Build_pbf_writer true None 0 0). repeat split; reflexivity.
  - reflexivity.
  - discriminate.
  - discriminate.
  - vm_compute. reflexivity.
  - vm_compute. reflexivity.
Defined.



End PackedFields.

Section Rollback.

Import Writer.
Local Open Scope writer_scope.

Lemma rollback_submessage_ok (NDEBUG : bool) (s : store) (this : nat) (w : pbf_writer) :
  objects s !! this = Some w -> m_data w = true ->
  m_pos w <> 0 -> m_rollback_pos w <> size_is_known ->
  rollback_submessage NDEBUG this s
  = (Ret tt,
     Build_store (resize (Z.to_nat (m_rollback_pos w)) Byte.x00 (buffer s))
       (<[this := Build_pbf_writer true (m_parent_writer w) (m_rollback_pos w) 0]>
          (objects s))).
Proof.
  intros Hl Hd Hp Hr. unfold rollback_submessage.
  rewrite (bind_Ret _ _ _ _ _ (load_Some _ _ _ Hl)).
  destruct (Z.eqb_spec (m_pos w) 0) as [|_]; [contradiction|].
  destruct (Z.eqb_spec (m_rollback_pos w) size_is_known) as [|_]; [contradiction|].
  cbn [negb]. rewrite Hd.
  rewrite !(bind_Ret _ _ _ _ _ (assert_true _ _)).
  rewrite (bind_Ret _ _ _ _ _ (string_resize_ok _ _ _ _ Hl Hd)).
  erewrite set_m_pos_ok by (cbn [objects]; exact Hl).
  rewrite Hd. reflexivity.
Qed.

Lemma rollback_ok (NDEBUG : bool) (s : store) (this parent : nat) (cw w : pbf_writer) :
  objects s !! this = Some cw ->
  m_parent_writer cw = Some parent -> m_pos cw = 0 ->
  objects s !! parent = Some w -> m_data w = true ->
  m_pos w <> 0 -> m_rollback_pos w <> size_is_known ->
  this <> parent ->
  rollback NDEBUG this s
  = (Ret tt,
     Build_store (resize (Z.to_nat (m_rollback_pos w)) Byte.x00 (buffer s))
       (<[this := Build_pbf_writer false (Some parent) (m_rollback_pos cw) 0]>
          (<[parent := Build_pbf_writer true (m_parent_writer w) (m_rollback_pos w) 0]>
             (objects s)))).
Proof.
  intros Hc Hcp Hc0 Hl Hd Hp Hr Hne. unfold rollback.
  rewrite (bind_Ret _ _ _ _ _ (load_Some _ _ _ Hc)).
  rewrite Hcp, Hc0.
  rewrite (bind_Ret _ _ _ _ _ (assert_holds NDEBUG _ _ ltac:(apply orb_true_r))).
  rewrite (bind_Ret _ _ _ _ _ (assert_true _ _)).
  rewrite (bind_Ret _ _ _ _ _ (rollback_submessage_ok NDEBUG s parent w Hl Hd Hp Hr)).
  unfold set_m_data.
  erewrite bind_Ret
    by (apply load_Some; cbn [objects];
        rewrite list_lookup_insert_ne by (intros E; apply Hne; symmetry; exact E);
        exact Hc).
  rewrite Hcp, Hc0. reflexivity.
Qed.

(** X15.  [rollback()] of a child takes back everything the submessage has
    written, header included: the string is what it was before the child
    was constructed, the child has lost its string, the parent can take
    fields again, and the destructor of the child then changes nothing.
    In a debug build a later write through the child fails its
    assertion. *)
Theorem rollback_restores_buffer
    (NDEBUG : bool) (s : store) (parent : nat) (tag : Z)
    (body : nat -> W unit) (payload : list byte) :
  ready s parent ->
  NDEBUG || tag_in_range tag = true ->
  Z.of_nat (List.length (buffer s)) < 2 ^ 62 ->
  (forall child s0, ready s0 child ->
     body child s0 = (Ret tt, Build_store (buffer s0 ++ payload) (objects s0))) ->
  exists s1 cw,
    let child := List.length (objects s) in
    (child <- construct_sub NDEBUG parent tag 0 ;;
     body child ;; rollback NDEBUG child) s = (Ret tt, s1)
    /\ buffer s1 = buffer s
    /\ ready s1 parent
    /\ objects s1 !! child = Some cw /\ m_data cw = false
    /\ destroy NDEBUG child s1 = (Ret tt, s1)
    /\ (forall value, add_varint false child value s1 = (Abort, s1)).
Proof.
  intros Hr Ht Hbuf Hbody.
  destruct Hr as (w & Hl & Hd & Hp).
  set (header := write_varint (field_header tag pbf_wire_type.length_delimited)).
  set (buffer' := buffer s ++ header ++ replicate 5 Byte.x00).
  set (w1 := Build_pbf_writer true (m_parent_writer w)
               (Z.of_nat (List.length (buffer s))) (Z.of_nat (List.length buffer'))).
  set (objs1 := <[parent := w1]> (objects s ++ [fresh_child parent])).
  set (child := List.length (objects s)).
  destruct (lookup_child_after_open (objects s) parent w w1 (fresh_child parent) Hl)
    as (Hc & Hpar & Hne).
  fold objs1 child in Hc, Hpar, Hne.
  assert (construct_sub NDEBUG parent tag 0 s = (Ret child, Build_store buffer' objs1))
    as Hopen by (apply (construct_sub_unknown NDEBUG s parent w tag Hl Hd Hp Ht)).
  assert (body child (Build_store buffer' objs1)
          = (Ret tt, Build_store (buffer' ++ payload) objs1)) as Hrun.
  { apply (Hbody child (Build_store buffer' objs1)).
    apply (fresh_child_ready _ child parent). exact Hc. }
  set (w2 := Build_pbf_writer true (m_parent_writer w)
               (Z.of_nat (List.length (buffer s))) 0).
  set (cw := Build_pbf_writer false (Some parent) 0 0).
  set (objs2 := <[child := cw]> (<[parent := w2]> objs1)).
  assert (rollback NDEBUG child (Build_store (buffer' ++ payload) objs1)
          = (Ret tt, Build_store (buffer s) objs2)) as Hroll.
  { rewrite (rollback_ok NDEBUG (Build_store (buffer' ++ payload) objs1) child parent
               (fresh_child parent) w1 Hc eq_refl eq_refl Hpar eq_refl).
    - cbn [m_rollback_pos w1 fresh_child m_parent_writer buffer objects].
      f_equal. f_equal. rewrite Nat2Z.id. unfold buffer'. rewrite <- app_assoc.
      apply resize_app. reflexivity.
    - cbn [m_pos w1]. unfold buffer'. rewrite length_app. 
      pose proof (write_varint_length (field_header tag pbf_wire_type.length_delimited)).
      rewrite length_app, length_replicate. fold header in H. lia.
    - cbn [m_rollback_pos w1]. unfold size_is_known. lia.
    - exact Hne. }
  assert (objs2 !! child = Some cw) as Hc2.
  { unfold objs2. apply (lookup_insert_same _ _ (fresh_child parent)).
    rewrite list_lookup_insert_ne by (intros E; apply Hne; symmetry; exact E).
    exact Hc. }
  assert (objs2 !! parent = Some w2) as Hp2.
  { unfold objs2. rewrite list_lookup_insert_ne by exact Hne.
    apply (lookup_insert_same _ _ w1). exact Hpar. }
  exists (Build_store (buffer s) objs2), cw; cbv zeta; fold child.
  split; [|split; [|split; [|split; [|split; [|split]]]]].
  - unfold bind. rewrite Hopen, Hrun. exact Hroll.
  - reflexivity.
  - exists w2. split; [exact Hp2|]. split; reflexivity.
  - exact Hc2.
  - reflexivity.
  - rewrite (destroy_child NDEBUG (Build_store (buffer s) objs2) child parent cw Hc2 eq_refl).
    unfold close_submessage.
    rewrite (bind_Ret _ _ _ _ _ (load_Some (Build_store (buffer s) objs2) _ _ Hp2)).
    cbn [m_data w2 m_pos]. rewrite (bind_Ret _ _ _ _ _ (assert_true _ _)). reflexivity.
  - intros value. unfold add_varint.
    rewrite (bind_Ret _ _ _ _ _ (load_Some (Build_store (buffer s) objs2) _ _ Hc2)).
    reflexivity.
Qed.

Lemma rollback_restores_buffer_witness :
  exists s1 cw,
    (child <- construct_sub false 0 5 0 ;;
     add_bool false child 1 true ;; rollback false child) root_store = (Ret tt, s1)
    /\ buffer s1 = buffer root_store
    /\ ready s1 0
    /\ objects s1 !! 1%nat = Some cw /\ m_data cw = false
    /\ destroy false 1%nat s1 = (Ret tt, s1)
    /\ (forall value, add_varint false 1%nat value s1 = (Abort, s1)).
Proof.
  apply (rollback_restores_buffer false root_store 0 5
           (fun child => add_bool false child 1 true)
           [byte.of_Z 8; byte.of_Z 1]).
  - exists (Build_pbf_writer true None 0 0). repeat split; reflexivity.
  - reflexivity.
  - vm_compute. reflexivity.
  - intros child s0 Hr. apply (add_ok false s0 child _bool 1 1 Hr); reflexivity.
Defined.

End Rollback.

Section WriterAssertions.

Import Writer.
Local Open Scope writer_scope.

Lemma add_varint_release (s : store) (this : nat) (w : pbf_writer) (value : Z) :
  objects s !! this = Some w -> m_data w = true ->
  add_varint true this value s
  = (Ret tt, Build_store (buffer s ++ write_varint value) (objects s)).
Proof.
  intros Hl Hd. unfold add_varint.
  rewrite (bind_Ret _ _ _ _ _ (load_Some _ _ _ Hl)).
  rewrite !(bind_Ret _ _ _ _ _ (assert_holds true _ _ eq_refl)).
  apply (string_append_ok _ _ _ _ Hl Hd).
Qed.

Lemma add_fixed_release (s : store) (this : nat) (w : pbf_writer) (T : cpp_type)
    (value : Z) :
  objects s !! this = Some w -> m_data w = true ->
  add_fixed true this T value s
  = (Ret tt, Build_store (buffer s ++ le_split (Z.to_nat (sizeof T)) value) (objects s)).
Proof.
  intros Hl Hd. unfold add_fixed.
  rewrite (bind_Ret _ _ _ _ _ (load_Some _ _ _ Hl)).
  rewrite !(bind_Ret _ _ _ _ _ (assert_holds true _ _ eq_refl)).
  apply (string_append_ok _ _ _ _ Hl Hd).
Qed.

Lemma add_release (T : scalar_type) (this : nat) (tag : Z)
    (value : carrier (tag_of T)) (s : store) (w : pbf_writer) :
  objects s !! this = Some w -> m_data w = true ->
  add true T this tag value s
  = (Ret tt,
     Build_store (buffer s ++ write_varint (field_header tag (wire_type_of T))
                    ++ encode_value (type_of T) (tag_of T) value) (objects s)).
Proof.
  intros Hl Hd. unfold add, add_field.
  assert (forall bs, objects (Build_store bs (objects s)) !! this = Some w) as Hl'
      by (intros bs; exact Hl).
  erewrite bind_Ret; cycle 1.
  { rewrite (bind_Ret _ _ _ _ _ (assert_holds true _ _ eq_refl)).
    apply (add_varint_release s this w _ Hl Hd). }
  fold (field_header tag (wire_type_of T)).
  rewrite (bind_Ret _ _ _ _ _ (load_Some _ _ _ (Hl' _))).
  rewrite !(bind_Ret _ _ _ _ _ (assert_holds true _ _ eq_refl)).
  revert value. destruct (tag_of T); intros value; cbn [add_impl encode_value].
  - rewrite (string_append_ok _ _ _ _ (Hl' _) Hd). cbn [buffer objects].
    rewrite <- app_assoc. reflexivity.
  - rewrite (string_append_ok _ _ _ _ (Hl' _) Hd). cbn [buffer objects].
    rewrite <- app_assoc. reflexivity.
  - rewrite (string_append_ok _ _ _ _ (Hl' _) Hd). cbn [buffer objects].
    rewrite <- app_assoc. reflexivity.
  - rewrite (add_fixed_release _ _ _ _ _ (Hl' _) Hd). cbn [buffer objects].
    rewrite <- app_assoc. reflexivity.
  - rewrite (bind_Ret _ _ _ _ _ (assert_holds true _ _ eq_refl)).
    rewrite (bind_Ret _ _ _ _ _ (add_varint_release _ _ _ _ (Hl' _) Hd)).
    rewrite (string_append_ok _ _ _ _ (Hl' _) Hd). cbn [buffer objects].
    rewrite <- !app_assoc. reflexivity.
Qed.

(** X16.  What a debug build asserts of [add<T>(tag, value)]: that the
    tag is in range, that no submessage is open on the writer and that the
    writer has a string; when one of the three fails, the assertion fails
    with nothing written.  When they hold, the field is appended, unless
    the value is a [data_view] of more than 2^32 - 1 bytes: then a fourth
    assertion, in [add_impl], fails after the field header has been
    appended.  A release build appends the field whenever the writer has a
    string, also into an open submessage, under a tag that is out of range
    and with a length cut to 32 bits. *)
Theorem add_asserts_its_preconditions
    (T : scalar_type) (this : nat) (tag : Z) (value : carrier (tag_of T))
    (s : store) (w : pbf_writer) :
  objects s !! this = Some w ->
  let header := write_varint (field_header tag (wire_type_of T)) in
  let field := header ++ encode_value (type_of T) (tag_of T) value in
  let usable := tag_in_range tag = true /\ m_pos w = 0 /\ m_data w = true in
  (usable -> value_fits (tag_of T) value = true ->
   add false T this tag value s
   = (Ret tt, Build_store (buffer s ++ field) (objects s)))
  /\ (~ usable -> add false T this tag value s = (Abort, s))
  /\ (usable -> value_fits (tag_of T) value = false ->
      add false T this tag value s
      = (Abort, Build_store (buffer s ++ header) (objects s)))
  /\ (tag_of T <> length_delimited_tag -> value_fits (tag_of T) value = true)
  /\ (m_data w = true ->
      add true T this tag value s
      = (Ret tt, Build_store (buffer s ++ field) (objects s))).
Proof.
  intros Hl header field usable. split; [|split; [|split; [|split]]].
  - intros (Ht & Hp & Hd) Hfits. apply add_ok.
    + exists w. auto.
    + exact Ht.
    + rewrite Hfits. reflexivity.
  - intros Hn.
    assert (add_field false this tag (wire_type_of T) s = (Abort, s)) as Hf.
    { unfold add_field. destruct (tag_in_range tag) eqn:Et; [|reflexivity].
      rewrite (bind_Ret _ _ _ _ _ (assert_true false s)).
      unfold add_varint.
      rewrite (bind_Ret _ _ _ _ _ (load_Some _ _ _ Hl)).
      destruct (Z.eqb_spec (m_pos w) 0) as [Hp|Hp]; [|reflexivity].
      rewrite (bind_Ret _ _ _ _ _ (assert_true false s)).
      destruct (m_data w) eqn:Hd; [exfalso; apply Hn; unfold usable; auto|].
      reflexivity. }
    unfold add, bind. rewrite Hf. reflexivity.
  - intros (Ht & Hp & Hd) Hfits.
    assert (ready s this) as Hr by (exists w; auto).
    unfold add.
    rewrite (bind_Ret _ _ _ _ _
               (add_field_ok false s this tag (wire_type_of T) Hr Ht)).
    fold header.
    rewrite (bind_Ret _ _ _ _ _
               (load_Some (Build_store (buffer s ++ header) (objects s)) _ _ Hl)).
    rewrite Hp, Hd.
    rewrite !(bind_Ret _ _ _ _ _ (assert_true false _)).
    revert value field Hfits.
    destruct (tag_of T); intros value field Hfits; try discriminate Hfits.
    cbn [add_impl value_fits] in *.
    unfold bind, protozero_assert. rewrite Hfits. reflexivity.
  - apply value_fits_numeric.
  - intros Hd. apply (add_release T this tag value s w Hl Hd).
Qed.

Lemma add_asserts_its_preconditions_witness :
  let s := Build_store [byte.of_Z 42; byte.of_Z 0]
             [Build_pbf_writer true None 0 2; Build_pbf_writer true (Some 0%nat) 0 0] in
  let w := Build_pbf_writer true None 0 2 in
  let header := write_varint (field_header 1 (wire_type_of _fixed32)) in
  let field := header ++ encode_value (type_of _fixed32) (tag_of _fixed32) 7 in
  let usable := tag_in_range 1 = true /\ m_pos w = 0 /\ m_data w = true in
  (usable -> value_fits (tag_of _fixed32) 7 = true ->
   add false _fixed32 0 1 7 s
   = (Ret tt, Build_store (buffer s ++ field) (objects s)))
  /\ (~ usable -> add false _fixed32 0 1 7 s = (Abort, s))
  /\ (usable -> value_fits (tag_of _fixed32) 7 = false ->
      add false _fixed32 0 1 7 s
      = (Abort, Build_store (buffer s ++ header) (objects s)))
  /\ (tag_of _fixed32 <> length_delimited_tag -> value_fits (tag_of _fixed32) 7 = true)
  /\ (m_data w = true ->
      add true _fixed32 0 1 7 s
      = (Ret tt, Build_store (buffer s ++ field) (objects s))).
Proof.
  apply (add_asserts_its_preconditions _fixed32 0 1 7
           (Build_store [byte.of_Z 42; byte.of_Z 0]
              [Build_pbf_writer true None 0 2; Build_pbf_writer true (Some 0%nat) 0 0])
           (Build_pbf_writer true None 0 2));
    reflexivity.
Defined.

End WriterAssertions.

Section PackedRoundTrip.

Lemma get_len_and_skip_written (NDEBUG : bool) (mem : list byte)
    (bs rest : list byte) (r : Reader.pbf_reader) :
  0 <= Reader.m_data r ->
  Z.of_nat (List.length bs) < 2 ^ 32 ->
  bytes_between mem (Reader.m_data r) (Reader.m_end r)
  = write_varint (Z.of_nat (List.length bs)) ++ bs ++ rest ->
  let d := Reader.m_data r
           + Z.of_nat (List.length (write_varint (Z.of_nat (List.length bs)))) in
  Reader.get_len_and_skip NDEBUG mem r
  = (Ret (Z.of_nat (List.length bs)),
     Reader.Build_pbf_reader (d + Z.of_nat (List.length bs)) (Reader.m_end r)
       (Reader.m_wire_type r) (if NDEBUG then Reader.m_tag r else 0))
  /\ bytes_between mem d (d + Z.of_nat (List.length bs)) = bs.
Proof.
  intros Hd Hlen Hb d.
  pose proof (bytes_between_length mem (Reader.m_data r) (Reader.m_end r)) as Hbl.
  rewrite Hb, !length_app in Hbl.
  pose proof (bytes_between_drop mem _ _ _ _ Hd Hb) as Hrest. fold d in Hrest.
  pose proof (write_varint_length (Z.of_nat (List.length bs))) as Hvl.
  split.
  - unfold Reader.get_len_and_skip, Reader.get_length.
    unfold Reader.bind at 1. unfold Reader.bind at 1.
    rewrite (read_written_varint mem r _ _ Hb). fold d.
    cbn [Reader.ret].
    rewrite uint64_t_small by lia.
    unfold pbf_length_type. rewrite uint32_t_small by lia.
    erewrite rbind_Ret; [| apply skip_bytes_ok; cbn [Reader.m_data Reader.m_end];
                           unfold d; lia].
    reflexivity.
  - apply (bytes_between_take mem _ _ _ _ Hrest).
Qed.

(** X17.  A packed field that was written is found by [next()] and handed
    out by [get<packed<T>>()] as a range that starts at the first byte of
    the elements and is as long as the length that was written: the bytes
    of the elements, all of them below 2^32 bytes and the first
    [size mod 2^32] of them from there on, whatever precedes and follows
    the field. *)
Theorem packed_field_round_trip
    (NDEBUG : bool) (T : scalar_type) (forward_iterator : bool)
    (this : nat) (tag : Z) (v : Writer.carrier (tag_of T))
    (l : list (Writer.carrier (tag_of T))) (s : Writer.store) :
  ready s this ->
  tag_in_range tag = true ->
  tag_of T <> length_delimited_tag ->
  Z.of_nat (List.length (Writer.buffer s))
  + Z.of_nat (List.length (packed_payload T (v :: l))) + 15 < 2 ^ 63 ->
  exists s',
    Writer.add_packed NDEBUG T forward_iterator this tag (v :: l) s = (Ret tt, s')
    /\ forall (rest : list byte) (w0 t0 : Z),
         let mem := Writer.buffer s' ++ rest in
         let payload := packed_payload T (v :: l) in
         let n := pbf_length_type (Z.of_nat (List.length payload)) in
         let first := Z.of_nat (List.length (Writer.buffer s'))
                      - Z.of_nat (List.length payload) in
         Reader.bind (Reader.next NDEBUG mem) (fun _ => Reader.get_packed NDEBUG mem)
           (Reader.Build_pbf_reader (Z.of_nat (List.length (Writer.buffer s)))
              (Z.of_nat (List.length mem)) w0 t0)
         = (Ret (first, first + n),
            Reader.Build_pbf_reader (first + n) (Z.of_nat (List.length mem))
              pbf_wire_type.length_delimited (if NDEBUG then tag else 0))
         /\ bytes_between mem first (first + n) = take (Z.to_nat n) payload
         /\ (Z.of_nat (List.length payload) < 2 ^ 32 ->
             first + n = Z.of_nat (List.length (Writer.buffer s'))
             /\ take (Z.to_nat n) payload = payload).
Proof.
  intros Hr Ht HT Hbuf.
  destruct (add_packed_any NDEBUG T forward_iterator this tag (v :: l) s Hr
              ltac:(rewrite Ht; apply orb_true_r) HT Hbuf)
    as (s' & Hrun & Hb & _).
  exists s'. split; [exact Hrun|].
  intros rest w0 t0 mem payload n first.
  set (header := write_varint (field_header tag pbf_wire_type.length_delimited)) in *.
  fold payload n in Hb.
  set (lenv := write_varint n) in *.
  assert (0 <= n < 2 ^ 32) as Hn
      by (unfold n, pbf_length_type; apply uint32_t_range).
  assert (n <= Z.of_nat (List.length payload)) as Hnle.
  { unfold n, pbf_length_type, uint32_t. apply Z.mod_le; lia. }
  set (bs := take (Z.to_nat n) payload).
  assert (Z.of_nat (List.length bs) = n) as Hbs
      by (unfold bs; rewrite length_take; lia).
  assert (payload = bs ++ drop (Z.to_nat n) payload) as Hsplit
      by (unfold bs; symmetry; apply take_drop).
  assert (mem = Writer.buffer s ++ header ++ lenv ++ bs
                  ++ (drop (Z.to_nat n) payload ++ rest)) as Hmem.
  { unfold mem. rewrite Hb, <- !app_assoc. do 3 f_equal.
    rewrite (app_assoc bs), <- Hsplit. reflexivity. }
  assert (first = Z.of_nat (List.length (Writer.buffer s)) + Z.of_nat (List.length header)
                  + Z.of_nat (List.length lenv)) as Hfirst
      by (unfold first; rewrite Hb, !length_app; lia).
  assert (bytes_between mem (Z.of_nat (List.length (Writer.buffer s)))
            (Z.of_nat (List.length mem))
          = header ++ lenv ++ bs ++ (drop (Z.to_nat n) payload ++ rest)) as Hbytes.
  { rewrite Hmem. apply (bytes_between_prefix (Writer.buffer s)); [reflexivity|].
    rewrite !length_app. lia. }
  rewrite (rbind_Ret _ _ _ _ _
             (next_on_header NDEBUG mem _ _ tag pbf_wire_type.length_delimited w0 t0 _ Ht
                ltac:(cbn; tauto) Hbytes)).
  fold header.
  set (r1 := Reader.Build_pbf_reader
               (Z.of_nat (List.length (Writer.buffer s)) + Z.of_nat (List.length header))
               (Z.of_nat (List.length mem)) pbf_wire_type.length_delimited tag).
  assert (bytes_between mem (Reader.m_data r1) (Reader.m_end r1)
          = write_varint (Z.of_nat (List.length bs)) ++ bs
              ++ (drop (Z.to_nat n) payload ++ rest)) as Hb1.
  { rewrite Hbs. fold lenv.
    apply (bytes_between_drop mem _ _ _ _ (Nat2Z.is_nonneg _) Hbytes). }
  destruct (get_len_and_skip_written NDEBUG mem bs (drop (Z.to_nat n) payload ++ rest) r1
              ltac:(cbn [Reader.m_data r1]; lia) ltac:(lia) Hb1) as [Hg Hpay].
  rewrite Hbs in Hg, Hpay. fold lenv in Hg, Hpay.
  cbn [Reader.m_data Reader.m_end Reader.m_wire_type Reader.m_tag r1] in Hg, Hpay.
  rewrite <- Hfirst in Hg, Hpay.
  split; [|split; [exact Hpay|]].
  - unfold Reader.get_packed, Reader.tag.
    erewrite rbind_Ret by reflexivity.
    erewrite rbind_Ret
      by (apply rassert_holds; cbn [Reader.m_tag r1];
          pose proof (tag_in_range_nonzero tag Ht);
          destruct (Z.eqb_spec tag 0); [contradiction | apply orb_true_r]).
    unfold Reader.get_impl_is_packed.
    rewrite (rbind_Ret _ _ _ _ _ Hg).
    rewrite bind_assoc_this. cbn [Reader.m_data]. unfold Reader.ret.
    replace (first + n - n) with first by lia. reflexivity.
  - intros Hlt.
    assert (n = Z.of_nat (List.length payload)) as Hneq
        by (unfold n; apply uint32_t_small; lia).
    split; [unfold first; lia|].
    apply take_ge. lia.
Qed.

Lemma packed_field_round_trip_witness :
  exists s',
    Writer.add_packed false _sint32 false 0 7 [-17; 22] root_store = (Ret tt, s')
    /\ forall (rest : list byte) (w0 t0 : Z),
         let mem := Writer.buffer s' ++ rest in
         let payload := packed_payload _sint32 [-17; 22] in
         let n := pbf_length_type (Z.of_nat (List.length payload)) in
         let first := Z.of_nat (List.length (Writer.buffer s'))
                      - Z.of_nat (List.length payload) in
         Reader.bind (Reader.next false mem) (fun _ => Reader.get_packed false mem)
           (Reader.Build_pbf_reader (Z.of_nat (List.length (Writer.buffer root_store)))
              (Z.of_nat (List.length mem)) w0 t0)
         = (Ret (first, first + n),
            Reader.Build_pbf_reader (first + n) (Z.of_nat (List.length mem))
              pbf_wire_type.length_delimited (if false then 7 else 0))
         /\ bytes_between mem first (first + n) = take (Z.to_nat n) payload
         /\ (Z.of_nat (List.length payload) < 2 ^ 32 ->
             first + n = Z.of_nat (List.length (Writer.buffer s'))
             /\ take (Z.to_nat n) payload = payload).
Proof.
  apply (packed_field_round_trip false _sint32 false 0 7 (-17) [22] root_store).
  - exists (Writer.Build_pbf_writer true None 0 0). repeat split; reflexivity.
  - reflexivity.
  - discriminate.
  - vm_compute. reflexivity.
Defined.

End PackedRoundTrip.

Section ChildWriterAndMessage.

Import Writer.
Local Open Scope writer_scope.

(** X18.  A submessage written through a child writer is the field
    [add_message] writes for the bytes of the child, as long as the child
    has written something; an empty child is rolled back and leaves
    nothing, where [add_message] of no bytes leaves the header and the
    length 0. *)
Theorem child_writer_writes_what_add_message_writes
    (NDEBUG : bool) (s : store) (parent : nat) (tag : Z)
    (body : nat -> W unit) (payload : list byte) :
  ready s parent ->
  NDEBUG || tag_in_range tag = true ->
  (forall child, appends child parent (body child) payload) ->
  Z.of_nat (List.length payload) < 2 ^ 32 ->
  Z.of_nat (List.length (buffer s)) < 2 ^ 62 ->
  exists s1 s2,
    scoped_submessage NDEBUG parent tag 0 body s = (Ret tt, s1)
    /\ add_message NDEBUG parent tag payload s = (Ret tt, s2)
    /\ (payload <> [] -> buffer s1 = buffer s2)
    /\ (payload = [] ->
        buffer s1 = buffer s
        /\ buffer s2
           = buffer s ++ write_varint (field_header tag pbf_wire_type.length_delimited)
               ++ [Byte.x00]).
Proof.
  intros Hr Ht Hbody Hlen Hbuf.
  assert (add_message NDEBUG parent tag payload s
          = (Ret tt,
             Build_store
               (buffer s ++ write_varint (field_header tag pbf_wire_type.length_delimited)
                  ++ write_varint (pbf_length_type (Z.of_nat (List.length payload)))
                  ++ payload) (objects s))) as Hadd.
  { apply (add_ok NDEBUG s parent _message tag payload Hr Ht).
    cbn [tag_of value_fits]. apply orb_true_iff. right. apply Z.leb_le. lia. }
  destruct Hr as (w & Hl & Hd & Hp).
  destruct (scoped_submessage_unknown NDEBUG s parent w tag body payload Hl Hd Hp Ht
              ltac:(lia) Hbody) as (s1 & Hrun & Hb & _).
  eexists. eexists. split; [exact Hrun|]. split; [exact Hadd|].
  cbn [buffer]. split.
  - intros Hne. rewrite Hb. destruct payload; [contradiction | reflexivity].
  - intros ->. split; [exact Hb | reflexivity].
Qed.

Lemma child_writer_writes_what_add_message_writes_witness :
  exists s1 s2,
    scoped_submessage false 0 5 0 (fun child => add_bool false child 1 true) root_store
    = (Ret tt, s1)
    /\ add_message false 0 5 [byte.of_Z 8; byte.of_Z 1] root_store = (Ret tt, s2)
    /\ ([byte.of_Z 8; byte.of_Z 1] <> [] -> buffer s1 = buffer s2)
    /\ ([byte.of_Z 8; byte.of_Z 1] = [] ->
        buffer s1 = buffer root_store
        /\ buffer s2
           = buffer root_store
               ++ write_varint (field_header 5 pbf_wire_type.length_delimited)
               ++ [Byte.x00]).
Proof.
  apply (child_writer_writes_what_add_message_writes false root_store 0 5
           (fun child => add_bool false child 1 true) [byte.of_Z 8; byte.of_Z 1]).
  - exists (Build_pbf_writer true None 0 0). repeat split; reflexivity.
  - reflexivity.
  - intros child. apply (appends_add false child 0 _bool 1 1); reflexivity.
  - vm_compute. reflexivity.
  - vm_compute. reflexivity.
Defined.

End ChildWriterAndMessage.

Section ReaderEnd.

Import Reader.
Local Open Scope reader_scope.

(** X19.  For a reader whose cursor is not past its end, [operator bool],
    [length()] and [next()] agree on the end of the data: the reader
    converts to false exactly when its length is 0, and exactly then
    [next()] returns false and leaves the reader as it is. *)
Theorem reader_end_is_consistent
    (NDEBUG : bool) (mem : list byte) (r : pbf_reader) :
  m_data r <= m_end r ->
  m_end r - m_data r < 2 ^ 64 ->
  length r = m_end r - m_data r
  /\ (has_more r = false <-> length r = 0)
  /\ (has_more r = false <-> next NDEBUG mem r = (Ret false, r))
  /\ (has_more r = true -> forall r', next NDEBUG mem r <> (Ret false, r')).
Proof.
  intros Hle Hlt.
  assert (length r = m_end r - m_data r) as Hlen
      by (unfold length, size_t; apply Z.mod_small; lia).
  split; [exact Hlen|]. rewrite Hlen. unfold has_more.
  split; [rewrite Z.ltb_ge; lia|].
  split.
  - split.
    + intros H. apply Z.ltb_ge in H.
      unfold next. rewrite bind_assoc_this.
      destruct (Z.eqb_spec (m_data r) (m_end r)); [reflexivity | lia].
    + intros H. apply Z.ltb_ge.
      destruct (next_Ret_inv NDEBUG mem r r false H) as [_ He]. lia.
  - intros H r' Hn. apply Z.ltb_lt in H.
    destruct (next_Ret_inv NDEBUG mem r r' false Hn) as [_ He]. lia.
Qed.

Lemma reader_end_is_consistent_witness :
  let r := new 3 0 in
  length r = m_end r - m_data r
  /\ (has_more r = false <-> length r = 0)
  /\ (has_more r = false <-> next false [] r = (Ret false, r))
  /\ (has_more r = true -> forall r', next false [] r <> (Ret false, r')).
Proof.
  apply (reader_end_is_consistent false [] (new 3 0)); cbn; lia.
Defined.

End ReaderEnd.

Section LengthWraps.

Import Writer.
Local Open Scope writer_scope.

Lemma two_large_fields (NDEBUG : bool) (value : list byte) :
  Z.of_nat (List.length value) = 2 ^ 31 ->
  let field := write_varint (field_header 1 pbf_wire_type.length_delimited)
                 ++ write_varint (2 ^ 31) ++ value in
  let body := fun child =>
    add_bytes NDEBUG child 1 value ;; add_bytes NDEBUG child 1 value in
  (forall child, appends child 0 (body child) (field ++ field))
  /\ Z.of_nat (List.length (field ++ field)) = 2 ^ 32 + 12
  /\ exists s',
       scoped_submessage NDEBUG 0 5 0 body root_store = (Ret tt, s')
       /\ buffer s'
          = write_varint (field_header 5 pbf_wire_type.length_delimited)
              ++ write_varint 12 ++ field ++ field.
Proof.
  intros Hlen field body.
  assert (forall child, appends child 0 (body child) (field ++ field)) as Happ.
  { intros child. apply appends_of_ready. intros s0 Hr0. unfold body.
    assert (forall s1, ready s1 child ->
              add_bytes NDEBUG child 1 value s1
              = (Ret tt, Build_store (buffer s1 ++ field) (objects s1))) as Hadd.
    { intros s1 Hr1. unfold add_bytes.
      rewrite (add_ok NDEBUG s1 child _bytes 1 value Hr1).
      - cbn [type_of tag_of encode_value]. rewrite Hlen. reflexivity.
      - apply orb_true_r.
      - cbn [tag_of value_fits]. rewrite Hlen. apply orb_true_r. }
    rewrite (bind_Ret _ _ _ _ _ (Hadd s0 Hr0)).
    rewrite Hadd by (apply (ready_same_objects s0); [reflexivity | exact Hr0]).
    cbn [buffer objects]. rewrite <- app_assoc. reflexivity. }
  assert (Z.of_nat (List.length (field ++ field)) = 2 ^ 32 + 12) as Hfl.
  { unfold field. rewrite !length_app.
    change (List.length (write_varint (field_header 1 pbf_wire_type.length_delimited)))
      with 1%nat.
    change (List.length (write_varint (2 ^ 31))) with 5%nat. lia. }
  split; [exact Happ|]. split; [exact Hfl|].
  destruct (scoped_submessage_unknown NDEBUG root_store 0
              (Build_pbf_writer true None 0 0) 5 body (field ++ field)
              eq_refl eq_refl eq_refl (orb_true_r _))
    as (s' & Hrun & Hb & _).
  { rewrite Hfl. change (Z.of_nat (List.length (buffer root_store))) with 0. lia. }
  { exact Happ. }
  exists s'. split; [exact Hrun|].
  rewrite Hb.
  destruct (field ++ field) eqn:E.
  - cbn [List.length] in Hfl. lia.
  - rewrite Hfl. reflexivity.
Qed.

(** Where the unqualified statement fails: two [bytes] fields of 2^31 bytes
    each, written into a child of unknown size, are a payload of 2^32 + 12
    bytes, and closing the child writes the length 12. *)
Lemma commit_submessage_length_wraps :
  let value := replicate (Z.to_nat (2 ^ 31)) Byte.x00 in
  let field := write_varint (field_header 1 pbf_wire_type.length_delimited)
                 ++ write_varint (2 ^ 31) ++ value in
  let body := fun child =>
    add_bytes false child 1 value ;; add_bytes false child 1 value in
  (forall child, appends child 0 (body child) (field ++ field))
  /\ Z.of_nat (List.length (field ++ field)) = 2 ^ 32 + 12
  /\ (exists s',
       scoped_submessage false 0 5 0 body root_store = (Ret tt, s')
       /\ buffer s'
          = write_varint (field_header 5 pbf_wire_type.length_delimited)
              ++ write_varint 12 ++ field ++ field)
  /\ write_varint 12 <> write_varint (2 ^ 32 + 12).
Proof.
  intros value field body.
  destruct (two_large_fields false value) as (Happ & Hfl & Hrun).
  { unfold value. rewrite length_replicate. apply Z2Nat.id. lia. }
  split; [exact Happ|]. split; [exact Hfl|]. split; [exact Hrun|].
  discriminate.
Qed.

End LengthWraps.
